(** * sqlcipher-bench: the benchmark driver of [benchmark.c], [bench.h], [main.c]

    A shallow embedding of the driver: machine integers are [Z] with the
    wrap-around of their width written out where the code computes on them,
    a [double] that holds a count of microseconds is the [Z] it stands for,
    rounded to 53 bits, C strings are [string], the global variables of
    [benchmark.c] are the fields of one record that every function threads
    through, and every call into the storage engine or to [fprintf] appends
    one [event] to the log of the run.

    A function that reads an array outside its bounds does not return: C
    defines nothing from that read on, and the model keeps the state the run
    had reached.

    In [benchmark_run] and below the engine is taken to answer every call
    with success: any other status makes [exec_error_check],
    [step_error_check] or [error_check] leave the process with [exit(1)], so
    a run that is still going has seen successes only, and what is said of
    the log of a run is said of the run that the engine lets go on.
    [benchmark_open] is modelled with the answers of the engine. *)

From Stdlib Require Import ZArith Lia Ascii.
From Stdlib.Init Require Import Byte.
From stdpp Require Import base option list strings pretty.
From Equations Require Import Equations.

#[local] Open Scope Z_scope.

(** ** Constants and enumerations *)

(** Modelled from the spec: the macro [MAXNUMPERTIME] is used by
    [benchmark.c] but no header of the sources defines it.  The spec gives
    the maximum-keys-per-chunk constant as 500,000, which is also what the
    comment above each chunk loop says. *)
Definition MAXNUMPERTIME : Z := 500000.

(** [enum Order] of [benchmark.c]. *)
Inductive Order := SEQUENTIAL | RANDOM.

(** Divisibility can be decided. *)
#[global] Instance divide_dec : RelDecision Z.divide.
Proof.
  intros a b. destruct ((b =? 0) || negb (a =? 0) && (b mod a =? 0)) eqn:E.
  - left. destruct (Z.BoolSpec_divide a b); [assumption|discriminate].
  - right. destruct (Z.BoolSpec_divide a b); [discriminate|assumption].
Defined.

(** [uint32_t]: conversion of an integer to 32 unsigned bits. *)
Definition uint32 (z : Z) : Z := z mod 2 ^ 32.

(** [uint64_t]: conversion of an integer to 64 unsigned bits. *)
Definition uint64 (z : Z) : Z := z mod 2 ^ 64.

(** [int64_t]: conversion of an integer to 64 signed bits. *)
Definition int64 (z : Z) : Z := (z + 2 ^ 63) mod 2 ^ 64 - 2 ^ 63.

(** [double]: an integer as a [double] holds it, the nearest value with 53
    significant bits, a tie going to the even one.  Sums and differences of
    such values are again integers and are rounded the same way. *)
Definition round53 (z : Z) : Z :=
  let a := Z.abs z in
  if a <? 2 ^ 53 then z
  else
    let e := Z.log2 a - 52 in
    let q := Z.shiftr a e in
    let r := a - Z.shiftl q e in
    let half := Z.shiftl 1 (e - 1) in
    let q' := if (r <? half) || ((r =? half) && Z.even q) then q else q + 1 in
    Z.sgn z * Z.shiftl q' e.

(** ** random.c, as declared in bench.h *)

(** [struct Random]. *)
Record Random := { seed_ : Z }.

(** [struct RandomGenerator]: the pool, its size and the cursor. *)
Record RandomGenerator := {
  data_ : list byte;
  data_size_ : Z;
  pos_ : Z
}.

(** Modelled from the spec: [rand_init] of [random.c], which is not among
    the sources.  Section 4.1: the state is the seed normalised into
    (0, 2^31-1], a zero seed or one with the sign bit set being remapped. *)
Definition rand_init (s : Z) : Random :=
  let masked := Z.land (uint32 s) 2147483647 in
  {| seed_ := if masked =? 0 then 1 else masked |}.

(** Modelled from the spec: [rand_next] of [random.c], which is not among
    the sources.  Section 4.1: a multiplicative linear-congruential step
    modulo 2^31-1 that returns the new state.  The spec leaves the multiplier
    open; 16807, the minimal-standard one, stands for it. *)
Definition rand_next (r : Random) : Z * Random :=
  let s := (seed_ r * 16807) mod 2147483647 in
  (s, {| seed_ := s |}).

(** Modelled from the spec: [rand_gen_init] of [random.c], which is not among
    the sources.  The bytes of the pool come from the compression ratio, a
    [double]; the model takes the finished pool and puts the cursor at its
    start. *)
Definition rand_gen_init (pool : list byte) : RandomGenerator :=
  {| data_ := pool; data_size_ := Z.of_nat (length pool); pos_ := 0 |}.

(** Modelled from the spec: [rand_gen_generate] of [random.c], which is not
    among the sources.  Section 4.2: a view of [len] bytes that starts at the
    cursor, the cursor first going back to offset 0 if the request would
    overrun the pool, then advancing by [len].  The returned [char*] is the
    offset of the view in the pool. *)
Definition rand_gen_generate (g : RandomGenerator) (len : Z)
  : Z * RandomGenerator :=
  let start := if data_size_ g <? pos_ g + len then 0 else pos_ g in
  (start, {| data_ := data_ g; data_size_ := data_size_ g;
             pos_ := start + len |}).

(** The bytes a caller sees behind a pointer into the pool. *)
Definition pool_view (g : RandomGenerator) (off len : Z) : list byte :=
  take (Z.to_nat len) (drop (Z.to_nat off) (data_ g)).

(** The representation invariant of the generator. *)
Definition gen_ok (g : RandomGenerator) : Prop :=
  data_size_ g = Z.of_nat (length (data_ g)) /\ 0 <= pos_ g <= data_size_ g.

(** ** Flags ([main.c]) *)

Record Flags := {
  FLAGS_benchmarks : string;
  FLAGS_num : Z;
  FLAGS_reads : Z;
  FLAGS_value_size : Z;
  FLAGS_page_size : Z;
  FLAGS_num_pages : Z;
  FLAGS_use_existing_db : bool;
  FLAGS_transaction : bool;
  FLAGS_WAL_enabled : bool;
  FLAGS_use_sqlcipher : bool
}.

(** [init] of [main.c]: the defaults. *)
Definition init : Flags := {|
  FLAGS_benchmarks :=
    "fillseq,fillseqsync,fillrandom,fillrandsync,overwrite,overwritesync,readrandom,readseq,fillrand100K,fillseq100K,readseq,readrand100K,delete,deletesync,";
  FLAGS_num := 1000000;
  FLAGS_reads := -1;
  FLAGS_value_size := 128;
  FLAGS_page_size := 1024;
  FLAGS_num_pages := 4096;
  FLAGS_use_existing_db := false;
  FLAGS_transaction := true;
  FLAGS_WAL_enabled := true;
  FLAGS_use_sqlcipher := false
|}.

(** One command-line argument as the [sscanf] chain of [main] reads it:
    [%d] accepts any decimal [int], signed. *)
Inductive arg :=
| ArgBenchmarks (s : string)
| ArgUseExistingDb (b : bool)
| ArgNum (n : Z)
| ArgReads (n : Z)
| ArgValueSize (n : Z)
| ArgNoTransaction
| ArgPageSize (n : Z)
| ArgNumPages (n : Z)
| ArgWALEnabled (b : bool)
| ArgUseSqlcipher (b : bool).

(** The body of the argument loop of [main]: each flag overwrites its
    variable and checks nothing. *)
Definition set_flag (f : Flags) (a : arg) : Flags :=
  let '{| FLAGS_benchmarks := bs; FLAGS_num := n; FLAGS_reads := r;
          FLAGS_value_size := v; FLAGS_page_size := ps; FLAGS_num_pages := np;
          FLAGS_use_existing_db := e; FLAGS_transaction := t;
          FLAGS_WAL_enabled := w; FLAGS_use_sqlcipher := c |} := f in
  match a with
  | ArgBenchmarks s => Build_Flags s n r v ps np e t w c
  | ArgUseExistingDb b => Build_Flags bs n r v ps np b t w c
  | ArgNum k => Build_Flags bs k r v ps np e t w c
  | ArgReads k => Build_Flags bs n k v ps np e t w c
  | ArgValueSize k => Build_Flags bs n r k ps np e t w c
  | ArgNoTransaction => Build_Flags bs n r v ps np e false w c
  | ArgPageSize k => Build_Flags bs n r v k np e t w c
  | ArgNumPages k => Build_Flags bs n r v ps k e t w c
  | ArgWALEnabled b => Build_Flags bs n r v ps np e t b c
  | ArgUseSqlcipher b => Build_Flags bs n r v ps np e t w b
  end.

(** The flags [main] hands to [benchmark_init]. *)
Definition main_flags (argv : list arg) : Flags := foldl set_flag init argv.

(** ** What the program does not decide

    The start time read by [time(0)], the readings of [now_micros], the text
    [snprintf] leaves in the rate buffer of [stop] (a formatted [double],
    written under a length bound taken from the fresh buffer itself) and the
    bytes of the value pool. *)
Record World := {
  time0 : Z;
  now_micros : nat -> Z;
  rate_text : Z -> Z -> string;
  pool_bytes : list byte
}.

(** ** Events: calls into the engine and lines on [stderr] *)

Inductive event :=
| EExec (sql : string)               (* sqlite3_exec *)
| EPrepare (sql : string)            (* sqlite3_prepare_v2 *)
| EFinalize (sql : string)           (* sqlite3_finalize *)
| EBegin                             (* step and reset of BEGIN TRANSACTION *)
| EEnd                               (* step and reset of END TRANSACTION *)
| EReplace (idx key value size : Z)  (* bind, step and reset of REPLACE *)
| ERead (idx key : Z)                (* bind, step and reset of SELECT *)
| EDelete (idx key : Z)              (* bind, step and reset of DELETE *)
| ECheckpoint                        (* sqlite3_wal_checkpoint_v2 *)
| EProgress (done : Z)               (* "... finished %d ops" *)
| EWarn (name : string)              (* "unknown benchmark '%s'" *)
| ESummary (name : string) (total done : Z). (* the two lines of stop *)

(** Calls into the storage engine, as opposed to lines on [stderr]. *)
Definition is_db_op (e : event) : bool :=
  match e with
  | EProgress _ | EWarn _ | ESummary _ _ _ => false
  | _ => true
  end.

Definition is_summary (e : event) : bool :=
  match e with ESummary _ _ _ => true | _ => false end.

(** ** The globals of [benchmark.c]

    [db_] is left out: the model has one connection, always open.  The last
    three fields are not variables of [benchmark.c]: whether the table has
    been created, how often the clock has been read, and the log. *)
Record Bench := {
  num_ : Z;
  reads_ : Z;
  op_total_time_ : Z;
  bytes_ : Z;
  message_ : string;
  gen_ : RandomGenerator;
  rand_ : Random;
  done_ : Z;
  next_report_ : Z;
  created_ : bool;
  ticks_ : nat;
  log_ : list event
}.

Definition set_reads (v : Z) (b : Bench) : Bench :=
  Build_Bench (num_ b) v (op_total_time_ b) (bytes_ b) (message_ b) (gen_ b)
    (rand_ b) (done_ b) (next_report_ b) (created_ b) (ticks_ b) (log_ b).
Definition set_op_total_time (v : Z) (b : Bench) : Bench :=
  Build_Bench (num_ b) (reads_ b) v (bytes_ b) (message_ b) (gen_ b)
    (rand_ b) (done_ b) (next_report_ b) (created_ b) (ticks_ b) (log_ b).
Definition set_bytes (v : Z) (b : Bench) : Bench :=
  Build_Bench (num_ b) (reads_ b) (op_total_time_ b) v (message_ b) (gen_ b)
    (rand_ b) (done_ b) (next_report_ b) (created_ b) (ticks_ b) (log_ b).
Definition set_message (v : string) (b : Bench) : Bench :=
  Build_Bench (num_ b) (reads_ b) (op_total_time_ b) (bytes_ b) v (gen_ b)
    (rand_ b) (done_ b) (next_report_ b) (created_ b) (ticks_ b) (log_ b).
Definition set_gen (v : RandomGenerator) (b : Bench) : Bench :=
  Build_Bench (num_ b) (reads_ b) (op_total_time_ b) (bytes_ b) (message_ b) v
    (rand_ b) (done_ b) (next_report_ b) (created_ b) (ticks_ b) (log_ b).
Definition set_rand (v : Random) (b : Bench) : Bench :=
  Build_Bench (num_ b) (reads_ b) (op_total_time_ b) (bytes_ b) (message_ b)
    (gen_ b) v (done_ b) (next_report_ b) (created_ b) (ticks_ b) (log_ b).
Definition set_done (v : Z) (b : Bench) : Bench :=
  Build_Bench (num_ b) (reads_ b) (op_total_time_ b) (bytes_ b) (message_ b)
    (gen_ b) (rand_ b) v (next_report_ b) (created_ b) (ticks_ b) (log_ b).
Definition set_next_report (v : Z) (b : Bench) : Bench :=
  Build_Bench (num_ b) (reads_ b) (op_total_time_ b) (bytes_ b) (message_ b)
    (gen_ b) (rand_ b) (done_ b) v (created_ b) (ticks_ b) (log_ b).
Definition set_created (v : bool) (b : Bench) : Bench :=
  Build_Bench (num_ b) (reads_ b) (op_total_time_ b) (bytes_ b) (message_ b)
    (gen_ b) (rand_ b) (done_ b) (next_report_ b) v (ticks_ b) (log_ b).
Definition set_ticks (v : nat) (b : Bench) : Bench :=
  Build_Bench (num_ b) (reads_ b) (op_total_time_ b) (bytes_ b) (message_ b)
    (gen_ b) (rand_ b) (done_ b) (next_report_ b) (created_ b) v (log_ b).

(** One more event at the end of the log. *)
Definition emit (e : event) (b : Bench) : Bench :=
  Build_Bench (num_ b) (reads_ b) (op_total_time_ b) (bytes_ b) (message_ b)
    (gen_ b) (rand_ b) (done_ b) (next_report_ b) (created_ b) (ticks_ b)
    (log_ b ++ [e]).

(** ** How a call ends

    A call returns, or it does not: an array is read outside its bounds, or
    a loop never ends.  In both cases the state the run had reached is
    kept. *)
Inductive halt :=
| OutOfBounds   (* a read outside an array: undefined from here on *)
| Endless.      (* a loop that does not end *)

Inductive result (A : Type) : Type :=
| Done (a : A)
| Halt (h : halt) (b : Bench).
Arguments Done {A} a.
Arguments Halt {A} h b.

#[global] Instance result_ret : MRet result := fun A a => Done a.
#[global] Instance result_bind : MBind result := fun A B f r =>
  match r with
  | Done a => f a
  | Halt h b => Halt h b
  end.

(** The state a call ends in, returned or not. *)
Definition reached (r : result Bench) : Bench :=
  match r with
  | Done b => b
  | Halt _ b => b
  end.

(** How a call has ended: [None] for a return. *)
Definition ending {A} (r : result A) : option halt :=
  match r with
  | Done _ => None
  | Halt h _ => Some h
  end.

(** ** Arrays *)

(** [a[i]] for reading: there is a value inside the array and none outside,
    where C defines nothing; the caller does not go on without one. *)
Definition array_get (a : list Z) (i : Z) : option Z :=
  if i <? 0 then None else a !! Z.to_nat i.

(** [int]: conversion of an integer to 32 signed bits. *)
Definition int32 (z : Z) : Z := (z + 2 ^ 31) mod 2 ^ 32 - 2 ^ 31.

(** ** Key and value batches *)

(** [gen_key]: [for (int i = 0; i < num; ++i)] visits [seqZ 0 num].  In
    random order the [uint32_t] draw and the [int] count meet in unsigned
    arithmetic and the remainder is stored into an [int]. *)
Definition gen_key (keys : list Z) (num : Z) (order : Order) (r : Random)
  : list Z * Random :=
  match order with
  | SEQUENTIAL =>
      (foldl (fun ks i => <[Z.to_nat i := i]> ks) keys (seqZ 0 num), r)
  | RANDOM =>
      foldl (fun '(ks, r) i =>
               let '(x, r') := rand_next r in
               (<[Z.to_nat i := int32 (uint32 x mod uint32 num)]> ks, r'))
            (keys, r) (seqZ 0 num)
  end.

(** [gen_value]: one pointer into the pool for each entry. *)
Definition gen_value (values : list Z) (num value_size : Z)
  (g : RandomGenerator) : list Z * RandomGenerator :=
  foldl (fun '(vs, g) i =>
           let '(p, g') := rand_gen_generate g value_size in
           (<[Z.to_nat i := p]> vs, g'))
        (values, g) (seqZ 0 num).

(** A variable-length array [int keys[n]] before it is filled. *)
Definition fresh_array (n : Z) : list Z := replicate (Z.to_nat n) 0.

(** ** The chunk loop

    [for (int n = num > MAXNUMPERTIME ? MAXNUMPERTIME : num; n > 0;
          n -= MAXNUMPERTIME)]
    The body never assigns [n], so the loop is the list of the values [n]
    takes, in order.  [n] starts at most at [MAXNUMPERTIME], so the
    subtraction stays inside [int]. *)
Equations? chunk_loop (n : Z) : list Z by wf (Z.to_nat n) lt :=
  chunk_loop n with Z_lt_dec 0 n := {
    | left _ => n :: chunk_loop (n - MAXNUMPERTIME)
    | right _ => [] }.
Proof. unfold MAXNUMPERTIME. lia. Qed.

Definition chunks (num_entries : Z) : list Z :=
  chunk_loop (if MAXNUMPERTIME <? num_entries then MAXNUMPERTIME
              else num_entries).

(** ** The batch loops

    [for (int j = 0; j < entries_per_batch; j++)] at batch start [i]: the
    indices [i + j] it uses. *)
Definition inner_loop (i entries_per_batch : Z) : list Z :=
  Z.add i <$> seqZ 0 entries_per_batch.

(** [for (int i = 0; i < n; i += entries_per_batch)] around the inner loop:
    the indices [i + j] in the order they are used.  With a batch size that
    is not positive the inner loop does nothing and [i] never reaches [n]:
    the loop does not end, which is [None]. *)
Equations? batch_loop (n entries_per_batch i : Z) : option (list Z)
  by wf (Z.to_nat (n - i)) lt :=
  batch_loop n entries_per_batch i with Z_lt_dec i n := {
    | right _ => Some []
    | left _ with Z_lt_dec 0 entries_per_batch := {
      | left _ => app (inner_loop i entries_per_batch)
                    <$> batch_loop n entries_per_batch (i + entries_per_batch)
      | right _ => None } }.
Proof. lia. Qed.

Definition batch_indices (n entries_per_batch : Z) : option (list Z) :=
  batch_loop n entries_per_batch 0.

(** The body of the inner loop at each index in turn, as long as the body
    returns. *)
Fixpoint run_ops (op : Bench -> Z -> result Bench) (idxs : list Z)
  (b : Bench) : result Bench :=
  match idxs with
  | [] => Done b
  | i :: idxs' => b' ← op b i; run_ops op idxs' b'
  end.

(** A loop over the chunks whose body may not return. *)
Fixpoint run_chunks (body : Z -> Bench -> result Bench) (ns : list Z)
  (b : Bench) : result Bench :=
  match ns with
  | [] => Done b
  | n :: ns' => b' ← body n b; run_chunks body ns' b'
  end.

(** ** Progress and timing *)

Definition start (b : Bench) : Bench :=
  let b := set_bytes 0 b in
  let b := set_message "" b in
  let b := set_done 0 b in
  let b := set_next_report 100 b in
  set_op_total_time 0 b.

(** [done_] and [next_report_] are [int]s: an addition that leaves the
    range, which C does not define, wraps around as the machine does. *)
Definition finish_single_op (b : Bench) : Bench :=
  let b := set_done (int32 (done_ b + 1)) b in
  if next_report_ b <=? done_ b then
    let nr := next_report_ b in
    let b := set_next_report
               (int32 (if nr <? 1000 then nr + 100
                       else if nr <? 5000 then nr + 500
                       else if nr <? 10000 then nr + 1000
                       else if nr <? 50000 then nr + 5000
                       else if nr <? 100000 then nr + 10000
                       else if nr <? 500000 then nr + 50000
                       else nr + 100000)) b in
    emit (EProgress (done_ b)) b
  else b.

(** ** SQL text *)

Definition create_stmt : string :=
  "CREATE TABLE test (key int, value text, PRIMARY KEY (key))".
Definition replace_str : string :=
  "REPLACE INTO test (key, value) VALUES (?, ?)".
Definition read_str : string := "SELECT * FROM test WHERE key = ?".
Definition delete_str : string := "DELETE FROM test WHERE key = ?".
Definition begin_trans_str : string := "BEGIN TRANSACTION".
Definition end_trans_str : string := "END TRANSACTION".
Definition sync_stmt (write_sync : bool) : string :=
  if write_sync then "PRAGMA synchronous = FULL"
  else "PRAGMA synchronous = OFF".

(** [sizeof(int)]. *)
Definition sizeof_int : Z := 4.

(** ** The driver *)

Section Driver.

Variable F : Flags.
Variable W : World.

(** [now_micros()] stored into a [double]: the next reading of the clock, a
    [uint64_t], rounded. *)
Definition read_clock (b : Bench) : Z * Bench :=
  (round53 (uint64 (now_micros W (ticks_ b))), set_ticks (S (ticks_ b)) b).

(** [stop]: [message_] is not null once [start] has run, so the test on it
    is the [strcmp] alone. *)
Definition stop (name : string) (b : Bench) : Bench :=
  let b := if done_ b <? 1 then set_done 1 b else b in
  let b :=
    if 0 <? bytes_ b then
      let rate := rate_text W (bytes_ b) (op_total_time_ b) in
      if String.eqb (message_ b) "" then
        set_message (rate +:+ " " +:+ message_ b) b
      else set_message rate b
    else b in
  emit (ESummary name (op_total_time_ b) (done_ b)) b.

Definition wal_checkpoint (b : Bench) : Bench :=
  if FLAGS_WAL_enabled F then emit ECheckpoint b else b.

(** The transaction brackets of a chunk. *)
Definition begin_transaction (b : Bench) : Bench :=
  if FLAGS_transaction F then emit EBegin b else b.
Definition end_transaction (b : Bench) : Bench :=
  if FLAGS_transaction F then emit EEnd b else b.

(** The bodies of the inner loops, at index [i + j]: the key, and the value
    of a write, are read from the arrays of the chunk first.  [bytes_] is an
    [int64_t], and the sum with an [int] and a [size_t] is taken in 64
    bits. *)
Definition write_op (keys values : list Z) (value_size : Z) (b : Bench)
  (idx : Z) : result Bench :=
  match array_get keys idx, array_get values idx with
  | Some key, Some value =>
      let b := set_bytes (int64 (bytes_ b + (value_size + sizeof_int))) b in
      let b := emit (EReplace idx key value value_size) b in
      Done (finish_single_op b)
  | _, _ => Halt OutOfBounds b
  end.

Definition read_op (keys : list Z) (b : Bench) (idx : Z) : result Bench :=
  match array_get keys idx with
  | Some key => Done (finish_single_op (emit (ERead idx key) b))
  | None => Halt OutOfBounds b
  end.

Definition delete_op (keys : list Z) (b : Bench) (idx : Z) : result Bench :=
  match array_get keys idx with
  | Some key => Done (finish_single_op (emit (EDelete idx key) b))
  | None => Halt OutOfBounds b
  end.

(** What follows the generation of the batches in the body of each chunk
    loop: the first reading of the clock, the begin, the batch loops, the
    end, the second reading and the sum.  [op_total_time_] is a [double]. *)
Definition timed_ops (op : Bench -> Z -> result Bench)
  (entries_per_batch n : Z) (b : Bench) : result Bench :=
  let '(t_start, b) := read_clock b in
  let b := begin_transaction b in
  match batch_indices n entries_per_batch with
  | None => Halt Endless b
  | Some idxs =>
      b ← run_ops op idxs b;
      let b := end_transaction b in
      let '(t_end, b) := read_clock b in
      Done (set_op_total_time
              (round53 (op_total_time_ b + round53 (t_end - t_start))) b)
  end.

(** The body of the chunk loop of [benchmark_write]. *)
Definition write_chunk (order : Order) (value_size entries_per_batch n : Z)
  (b : Bench) : result Bench :=
  let '(keys, r) := gen_key (fresh_array n) n order (rand_ b) in
  let b := set_rand r b in
  let '(values, g) := gen_value (fresh_array n) n value_size (gen_ b) in
  let b := set_gen g b in
  timed_ops (write_op keys values value_size) entries_per_batch n b.

(** The body of the chunk loop of [benchmark_read]. *)
Definition read_chunk (order : Order) (entries_per_batch n : Z) (b : Bench)
  : result Bench :=
  let '(keys, r) := gen_key (fresh_array n) n order (rand_ b) in
  let b := set_rand r b in
  timed_ops (read_op keys) entries_per_batch n b.

(** The body of the chunk loop of [benchmark_delete]. *)
Definition delete_chunk (order : Order) (entries_per_batch n : Z) (b : Bench)
  : result Bench :=
  let '(keys, r) := gen_key (fresh_array n) n order (rand_ b) in
  let b := set_rand r b in
  timed_ops (delete_op keys) entries_per_batch n b.

Definition benchmark_write (write_sync : bool) (order : Order)
  (num_entries value_size entries_per_batch : Z) (b : Bench) : result Bench :=
  let b := if bool_decide (num_entries <> num_ b)
           then set_message ("(" +:+ pretty num_entries +:+ " ops)") b
           else b in
  let b := emit (EExec (sync_stmt write_sync)) b in
  let b := emit (EPrepare replace_str) b in
  let b := emit (EPrepare begin_trans_str) b in
  let b := emit (EPrepare end_trans_str) b in
  b ← run_chunks (write_chunk order value_size entries_per_batch)
         (chunks num_entries) b;
  let b := emit (EFinalize replace_str) b in
  let b := emit (EFinalize begin_trans_str) b in
  Done (emit (EFinalize end_trans_str) b).

Definition benchmark_read (order : Order) (entries_per_batch : Z) (b : Bench)
  : result Bench :=
  let b := emit (EPrepare begin_trans_str) b in
  let b := emit (EPrepare end_trans_str) b in
  let b := emit (EPrepare read_str) b in
  b ← run_chunks (read_chunk order entries_per_batch) (chunks (reads_ b)) b;
  let b := emit (EFinalize read_str) b in
  let b := emit (EFinalize begin_trans_str) b in
  Done (emit (EFinalize end_trans_str) b).

Definition benchmark_delete (write_sync : bool) (order : Order)
  (entries_per_batch : Z) (b : Bench) : result Bench :=
  let b := emit (EExec (sync_stmt write_sync)) b in
  let b := emit (EPrepare begin_trans_str) b in
  let b := emit (EPrepare end_trans_str) b in
  let b := emit (EPrepare delete_str) b in
  b ← run_chunks (delete_chunk order entries_per_batch) (chunks (num_ b)) b;
  let b := emit (EFinalize delete_str) b in
  let b := emit (EFinalize begin_trans_str) b in
  Done (emit (EFinalize end_trans_str) b).

(** Modelled from the spec: [if_create_database] of [util.c], which is not
    among the sources.  Section 4.4, step 2: the answer is yes for a write
    workload that is not of the overwrite family, the first time one comes
    up in the run. *)
Definition if_create_database (name : string) (b : Bench) : bool * Bench :=
  if bool_decide (name ∈ ["fillseq"; "fillseqsync"; "fillseqbatch";
                          "fillrandom"; "fillrandsync"; "fillrandbatch";
                          "fillrand100K"; "fillseq100K"])
     && negb (created_ b)
  then (true, set_created true b)
  else (false, b).

(** The chain of [strcmp] tests of [benchmark_run]; the [bool] is [known]. *)
Definition run_workload (name : string) (b : Bench) : result (bool * Bench) :=
  let write_sync := false in
  if String.eqb name "fillseq" then
    b ← benchmark_write write_sync SEQUENTIAL (num_ b) (FLAGS_value_size F) 1 b;
    Done (true, wal_checkpoint b)
  else if String.eqb name "fillseqbatch" then
    b ← benchmark_write write_sync SEQUENTIAL (num_ b) (FLAGS_value_size F)
          1000 b;
    Done (true, wal_checkpoint b)
  else if String.eqb name "fillrandom" then
    b ← benchmark_write write_sync RANDOM (num_ b) (FLAGS_value_size F) 1 b;
    Done (true, wal_checkpoint b)
  else if String.eqb name "fillrandbatch" then
    b ← benchmark_write write_sync RANDOM (num_ b) (FLAGS_value_size F)
          1000 b;
    Done (true, wal_checkpoint b)
  else if String.eqb name "overwrite" then
    b ← benchmark_write write_sync RANDOM (num_ b) (FLAGS_value_size F) 1 b;
    Done (true, wal_checkpoint b)
  else if String.eqb name "overwritesync" then
    let write_sync := true in
    b ← benchmark_write write_sync RANDOM (num_ b) (FLAGS_value_size F) 1 b;
    Done (true, wal_checkpoint b)
  else if String.eqb name "overwritebatch" then
    b ← benchmark_write write_sync RANDOM (num_ b) (FLAGS_value_size F)
          1000 b;
    Done (true, wal_checkpoint b)
  else if String.eqb name "fillrandsync" then
    let write_sync := true in
    b ← benchmark_write write_sync RANDOM (num_ b) (FLAGS_value_size F) 1 b;
    Done (true, wal_checkpoint b)
  else if String.eqb name "fillseqsync" then
    let write_sync := true in
    b ← benchmark_write write_sync SEQUENTIAL (num_ b) (FLAGS_value_size F)
          1 b;
    Done (true, wal_checkpoint b)
  else if String.eqb name "fillrand100K" then
    b ← benchmark_write write_sync RANDOM (num_ b ÷ 1000) (100 * 1000) 1 b;
    Done (true, wal_checkpoint b)
  else if String.eqb name "fillseq100K" then
    b ← benchmark_write write_sync SEQUENTIAL (num_ b ÷ 1000) (100 * 1000)
          1 b;
    Done (true, wal_checkpoint b)
  else if String.eqb name "readseq" then
    b ← benchmark_read SEQUENTIAL 1 b;
    Done (true, b)
  else if String.eqb name "readrandom" then
    b ← benchmark_read RANDOM 1 b;
    Done (true, b)
  else if String.eqb name "readrand100K" then
    let n := reads_ b in
    let b := set_reads (reads_ b ÷ 1000) b in
    b ← benchmark_read RANDOM 1 b;
    Done (true, set_reads n b)
  else if String.eqb name "delete" then
    b ← benchmark_delete write_sync RANDOM 1 b;
    Done (true, wal_checkpoint b)
  else if String.eqb name "deletesync" then
    let write_sync := true in
    b ← benchmark_delete write_sync RANDOM 1 b;
    Done (true, wal_checkpoint b)
  else
    Done (false,
          if negb (String.eqb name "") then emit (EWarn name) b else b).

(** One turn of the [while] loop of [benchmark_run], for one name. *)
Definition run_name (name : string) (b : Bench) : result Bench :=
  let '(create, b) := if_create_database name b in
  let b := if create then emit (EExec create_stmt) b else b in
  let b := set_bytes 0 b in
  let b := start b in
  match run_workload name b with
  | Done (known, b) => Done (if known then stop name b else b)
  | Halt h b => Halt h b
  end.

(** The names the [while] loop cuts out of [FLAGS_benchmarks], one at each
    comma and one after the last. *)
Fixpoint split_names (s : string) : list string :=
  match s with
  | EmptyString => [EmptyString]
  | String c rest =>
      if Ascii.eqb c ","%char then EmptyString :: split_names rest
      else match split_names rest with
           | name :: names => String c name :: names
           | [] => [String c EmptyString]
           end
  end.

Fixpoint run_names (names : list string) (b : Bench) : result Bench :=
  match names with
  | [] => Done b
  | name :: names' => b' ← run_name name b; run_names names' b'
  end.

(** [benchmark_run], after [print_header] and [benchmark_open]. *)
Definition benchmark_run (b : Bench) : result Bench :=
  run_names (split_names (FLAGS_benchmarks F)) b.

(** [benchmark_init]; the sweep of old database files is left out.  The
    variables it does not assign start as C starts globals. *)
Definition benchmark_init : Bench := {|
  num_ := FLAGS_num F;
  reads_ := if FLAGS_reads F <? 0 then FLAGS_num F else FLAGS_reads F;
  op_total_time_ := 0;
  bytes_ := 0;
  message_ := "";
  gen_ := rand_gen_init (pool_bytes W);
  rand_ := rand_init (time0 W);
  done_ := 0;
  next_report_ := 0;
  created_ := false;
  ticks_ := 0;
  log_ := []
|}.

End Driver.

(** [main]: flags, then [benchmark_init] and [benchmark_run]. *)
Definition main (argv : list arg) (W : World) : result Bench :=
  let F := main_flags argv in
  benchmark_run F W (benchmark_init F W).

(** ** [benchmark_open]

    [FLAGS_db] and [FLAGS_key] are the two flags of [main.c] that hold text:
    the first is never null once [main] has put its default in, the second
    is null unless [--key=] was given. *)
Record Paths := {
  FLAGS_db : string;
  FLAGS_key : option string
}.

(** The calls of [benchmark_open] into the engine. *)
Inductive open_event :=
| OOpen (file_name : string)         (* sqlite3_open *)
| OKey (key : string) (len : Z)      (* sqlite3_key *)
| OExec (sql : string).              (* sqlite3_exec *)

(** Why [benchmark_open] does not return: a call has not answered with
    success and the process leaves with [exit(1)], or [strlen] was handed
    the null pointer of a key that was not given. *)
Inductive open_stop := ExitOne | NullKey.

(** [benchmark_open] on its way, with the calls made so far, or stopped. *)
Inductive opening :=
| Going (log : list open_event)
| NotOpen (why : open_stop) (log : list open_event).

(** One call and the check of its status. *)
Definition open_call (ok : open_event -> bool) (e : open_event) (o : opening)
  : opening :=
  match o with
  | Going log => if ok e then Going (log ++ [e])
                 else NotOpen ExitOne (log ++ [e])
  | NotOpen why log => NotOpen why log
  end.

(** [snprintf] into a buffer of 100 bytes: the first 99 characters. *)
Definition snprintf100 (s : string) : string := String.substring 0 99 s.

(** [benchmark_open]; [ok] is the answer of the engine to each call. *)
Definition benchmark_open (F : Flags) (P : Paths) (ok : open_event -> bool)
  : opening :=
  let file_name :=
    if FLAGS_use_existing_db F then snprintf100 (FLAGS_db P)
    else snprintf100 (FLAGS_db P +:+ "dbbench_sqlite3.db") in
  let o := open_call ok (OOpen file_name) (Going []) in
  let o :=
    if FLAGS_use_sqlcipher F then
      match FLAGS_key P with
      | Some k => open_call ok (OKey k (Z.of_nat (String.length k))) o
      | None => match o with
                | Going log => NotOpen NullKey log
                | NotOpen why log => NotOpen why log
                end
      end
    else o in
  let o :=
    open_call ok (OExec (snprintf100 ("PRAGMA cache_size = "
                                      +:+ pretty (FLAGS_num_pages F)))) o in
  let o :=
    if bool_decide (FLAGS_page_size F <> 1024) then
      open_call ok (OExec (snprintf100 ("PRAGMA page_size = "
                                        +:+ pretty (FLAGS_page_size F)))) o
    else o in
  let o :=
    if FLAGS_WAL_enabled F then
      let o := open_call ok (OExec "PRAGMA journal_mode = WAL") o in
      open_call ok (OExec "PRAGMA wal_autocheckpoint = 4096") o
    else o in
  open_call ok (OExec "PRAGMA locking_mode = EXCLUSIVE") o.

(** ** Notions the statements below are written with *)

(** The calls [benchmark_open] has made, whether it returns or not. *)
Definition open_log (o : opening) : list open_event :=
  match o with
  | Going log => log
  | NotOpen _ log => log
  end.

(** [benchmark_open] has made the calls [planned] so far, all answered
    with success, or has left at the first of them that was not. *)
Definition opened (ok : open_event -> bool) (planned : list open_event)
  (o : opening) : Prop :=
  match o with
  | Going log => log = planned /\ Forall (fun e => ok e = true) log
  | NotOpen ExitOne log =>
      exists good e rest,
        log = good ++ [e] /\ planned = log ++ rest /\
        Forall (fun e => ok e = true) good /\ ok e = false
  | NotOpen NullKey _ => False
  end.

(** The first [k] outputs of the PRNG from state [r]. *)
Fixpoint draws (k : nat) (r : Random) : list Z :=
  match k with
  | O => []
  | S k' => let '(x, r') := rand_next r in x :: draws k' r'
  end.

(** The state of the PRNG after [k] draws. *)
Fixpoint after_draws (k : nat) (r : Random) : Random :=
  match k with
  | O => r
  | S k' => after_draws k' (rand_next r).2
  end.

(** The calls into the engine in a log, the lines on [stderr] left out. *)
Definition db_ops (log : list event) : list event := List.filter is_db_op log.

(** The key an engine call binds, if it binds one. *)
Definition key_view (e : event) : option Z :=
  match e with
  | EReplace _ k _ _ | ERead _ k | EDelete _ k => Some k
  | _ => None
  end.

(** The keys of a run, in the order they are bound. *)
Definition key_sequence (log : list event) : list Z := omap key_view log.

(** The index [i + j] at which an engine call reads the arrays of its chunk. *)
Definition op_index (e : event) : option Z :=
  match e with
  | EReplace i _ _ _ | ERead i _ | EDelete i _ => Some i
  | _ => None
  end.

Definition op_indices (log : list event) : list Z := omap op_index log.



(** The engine calls of one chunk: its operations between the brackets. *)
Definition bracket (txn : bool) (body : list event) : list event :=
  (if txn then [EBegin] else []) ++ body ++ (if txn then [EEnd] else []).

(** [b'] comes after [b] in a run: the log has grown by events whose engine
    calls are [ops]. *)
Definition steps (b b' : Bench) (ops : list event) : Prop :=
  exists evs, log_ b' = log_ b ++ evs /\ db_ops evs = ops.

(** The fields no operation on an entry assigns. *)
Definition op_fields (b : Bench) :=
  (num_ b, reads_ b, op_total_time_ b, message_ b, gen_ b, rand_ b,
   created_ b, ticks_ b).

(** The entry at an index inside an array. *)
Definition array_at (a : list Z) (i : Z) : Z := default 0 (array_get a i).

(** The engine calls of the chunks of the three workloads, at indices
    inside the arrays. *)
Definition write_calls (keys values : list Z) (value_size : Z) (idxs : list Z)
  : list event :=
  (fun i => EReplace i (array_at keys i) (array_at values i) value_size)
    <$> idxs.
Definition read_calls (keys : list Z) (idxs : list Z) : list event :=
  (fun i => ERead i (array_at keys i)) <$> idxs.
Definition delete_calls (keys : list Z) (idxs : list Z) : list event :=
  (fun i => EDelete i (array_at keys i)) <$> idxs.

(** The fields a chunk leaves as they were. *)
Definition kept (b b' : Bench) : Prop :=
  num_ b' = num_ b /\ reads_ b' = reads_ b /\ message_ b' = message_ b /\
  created_ b' = created_ b.

(** The engine calls of one chunk of [n] keys that returns: for some key
    and value batches of [n] entries, the operations at the indices of the
    batch loops, all inside the batches, between the brackets. *)
Definition write_chunk_calls (F : Flags) (value_size entries_per_batch n : Z)
  (ops : list event) : Prop :=
  exists keys values idxs,
    batch_indices n entries_per_batch = Some idxs /\
    Forall (fun i => 0 <= i < n) idxs /\
    length keys = Z.to_nat n /\ length values = Z.to_nat n /\
    ops = bracket (FLAGS_transaction F) (write_calls keys values value_size idxs).
Definition read_chunk_calls (F : Flags) (entries_per_batch n : Z)
  (ops : list event) : Prop :=
  exists keys idxs,
    batch_indices n entries_per_batch = Some idxs /\
    Forall (fun i => 0 <= i < n) idxs /\
    length keys = Z.to_nat n /\
    ops = bracket (FLAGS_transaction F) (read_calls keys idxs).
Definition delete_chunk_calls (F : Flags) (entries_per_batch n : Z)
  (ops : list event) : Prop :=
  exists keys idxs,
    batch_indices n entries_per_batch = Some idxs /\
    Forall (fun i => 0 <= i < n) idxs /\
    length keys = Z.to_nat n /\
    ops = bracket (FLAGS_transaction F) (delete_calls keys idxs).

(** The names [benchmark_run] has a branch for. *)
Definition known_names : list string :=
  ["fillseq"; "fillseqbatch"; "fillrandom"; "fillrandbatch"; "overwrite";
   "overwritesync"; "overwritebatch"; "fillrandsync"; "fillseqsync";
   "fillrand100K"; "fillseq100K"; "readseq"; "readrandom"; "readrand100K";
   "delete"; "deletesync"].

(** The counts a workload leaves as they were. *)
Definition counts_kept (b b' : Bench) : Prop :=
  num_ b' = num_ b /\ reads_ b' = reads_ b.

(** A world to run examples in. *)
Definition example_world : World := {|
  time0 := 1000;
  now_micros := fun k => 10 * Z.of_nat k;
  rate_text := fun _ _ => "   1.0 MB/s";
  pool_bytes := replicate 64 Byte.x00
|}.

(** Two states of two runs agree on what decides the keys still to come and
    on the keys bound so far. *)
Definition same_keys (b1 b2 : Bench) : Prop :=
  num_ b1 = num_ b2 /\ reads_ b1 = reads_ b2 /\ rand_ b1 = rand_ b2 /\
  key_sequence (log_ b1) = key_sequence (log_ b2).

(** The example world, started a thousand seconds later. *)
Definition example_world_later : World := {|
  time0 := 2000;
  now_micros := fun k => 10 * Z.of_nat k;
  rate_text := fun _ _ => "   1.0 MB/s";
  pool_bytes := replicate 64 Byte.x00
|}.

(** The names of a list, with a comma between any two. *)
Fixpoint join_names (names : list string) : string :=
  match names with
  | [] => EmptyString
  | [name] => name
  | name :: names' => name +:+ "," +:+ join_names names'
  end.

(** A name without a comma. *)
Fixpoint comma_free (s : string) : bool :=
  match s with
  | EmptyString => true
  | String c rest => negb (Ascii.eqb c ","%char) && comma_free rest
  end.

(** The values of the flags [--num], [--reads] and [--value_size] in a
    command line, in the order they are given. *)
Definition num_args (argv : list arg) : list Z :=
  omap (fun a => match a with ArgNum n => Some n | _ => None end) argv.
Definition reads_args (argv : list arg) : list Z :=
  omap (fun a => match a with ArgReads n => Some n | _ => None end) argv.
Definition value_size_args (argv : list arg) : list Z :=
  omap (fun a => match a with ArgValueSize n => Some n | _ => None end) argv.

(** Whether [--no_transaction] is on a command line. *)
Definition no_transaction_given (argv : list arg) : bool :=
  existsb (fun a => match a with ArgNoTransaction => true | _ => false end)
          argv.

(** ** The workloads as a table

    What each branch of [benchmark_run] hands to [benchmark_write],
    [benchmark_read] or [benchmark_delete], row by row in the order of the
    [strcmp] tests. *)
Inductive kind := KWrite | KRead | KDelete.

Record workload := {
  w_kind : kind;
  w_sync : bool;          (* write_sync *)
  w_order : Order;
  w_scaled : bool;        (* the count is divided by 1000 *)
  w_large : bool;         (* values of 100 * 1000 bytes *)
  w_batch : Z             (* entries_per_batch *)
}.

Definition workload_table : list (string * workload) :=
  [("fillseq", Build_workload KWrite false SEQUENTIAL false false 1);
   ("fillseqbatch", Build_workload KWrite false SEQUENTIAL false false 1000);
   ("fillrandom", Build_workload KWrite false RANDOM false false 1);
   ("fillrandbatch", Build_workload KWrite false RANDOM false false 1000);
   ("overwrite", Build_workload KWrite false RANDOM false false 1);
   ("overwritesync", Build_workload KWrite true RANDOM false false 1);
   ("overwritebatch", Build_workload KWrite false RANDOM false false 1000);
   ("fillrandsync", Build_workload KWrite true RANDOM false false 1);
   ("fillseqsync", Build_workload KWrite true SEQUENTIAL false false 1);
   ("fillrand100K", Build_workload KWrite false RANDOM true true 1);
   ("fillseq100K", Build_workload KWrite false SEQUENTIAL true true 1);
   ("readseq", Build_workload KRead false SEQUENTIAL false false 1);
   ("readrandom", Build_workload KRead false RANDOM false false 1);
   ("readrand100K", Build_workload KRead false RANDOM true false 1);
   ("delete", Build_workload KDelete false RANDOM false false 1);
   ("deletesync", Build_workload KDelete true RANDOM false false 1)].

Fixpoint lookup_row (name : string) (table : list (string * workload))
  : option workload :=
  match table with
  | [] => None
  | (key, w) :: table' =>
      if String.eqb name key then Some w else lookup_row name table'
  end.

Definition lookup_workload (name : string) : option workload :=
  lookup_row name workload_table.

(** The number of entries a row asks for, in state [b]. *)
Definition workload_count (w : workload) (b : Bench) : Z :=
  match w_kind w with
  | KWrite => if w_scaled w then num_ b ÷ 1000 else num_ b
  | KRead => if w_scaled w then reads_ b ÷ 1000 else reads_ b
  | KDelete => num_ b
  end.

Definition workload_value_size (F : Flags) (w : workload) : Z :=
  if w_large w then 100 * 1000 else FLAGS_value_size F.

(** A row, run. *)
Definition run_described (F : Flags) (W : World) (w : workload) (b : Bench)
  : result (bool * Bench) :=
  match w_kind w with
  | KWrite =>
      b' ← benchmark_write F W (w_sync w) (w_order w) (workload_count w b)
             (workload_value_size F w) (w_batch w) b;
      Done (true, wal_checkpoint F b')
  | KRead =>
      if w_scaled w then
        let n := reads_ b in
        b' ← benchmark_read F W (w_order w) (w_batch w)
               (set_reads (reads_ b ÷ 1000) b);
        Done (true, set_reads n b')
      else
        b' ← benchmark_read F W (w_order w) (w_batch w) b;
        Done (true, b')
  | KDelete =>
      b' ← benchmark_delete F W (w_sync w) (w_order w) (w_batch w) b;
      Done (true, wal_checkpoint F b')
  end.

(** The engine call of a row at an index inside the batches of a chunk. *)
Definition workload_call (k : kind) (keys values : list Z) (value_size : Z)
  (i : Z) : event :=
  match k with
  | KWrite => EReplace i (array_at keys i) (array_at values i) value_size
  | KRead => ERead i (array_at keys i)
  | KDelete => EDelete i (array_at keys i)
  end.

(** The bytes a row records for each operation, and what that makes of
    [bytes_]. *)
Definition workload_cost (k : kind) (value_size : Z) : Z :=
  match k with
  | KWrite => value_size + sizeof_int
  | KRead | KDelete => 0
  end.

Definition workload_pay (k : kind) (value_size : Z) (bytes : Z) : Z :=
  match k with
  | KWrite => int64 (bytes + (value_size + sizeof_int))
  | KRead | KDelete => bytes
  end.

(** The engine calls of a row before its chunk and after it. *)
Definition workload_prelude (w : workload) : list event :=
  match w_kind w with
  | KWrite => [EExec (sync_stmt (w_sync w)); EPrepare replace_str;
               EPrepare begin_trans_str; EPrepare end_trans_str]
  | KRead => [EPrepare begin_trans_str; EPrepare end_trans_str;
              EPrepare read_str]
  | KDelete => [EExec (sync_stmt (w_sync w)); EPrepare begin_trans_str;
                EPrepare end_trans_str; EPrepare delete_str]
  end.

Definition workload_finale (F : Flags) (w : workload) : list event :=
  match w_kind w with
  | KWrite => [EFinalize replace_str; EFinalize begin_trans_str;
               EFinalize end_trans_str]
              ++ (if FLAGS_WAL_enabled F then [ECheckpoint] else [])
  | KRead => [EFinalize read_str; EFinalize begin_trans_str;
              EFinalize end_trans_str]
  | KDelete => [EFinalize delete_str; EFinalize begin_trans_str;
                EFinalize end_trans_str]
               ++ (if FLAGS_WAL_enabled F then [ECheckpoint] else [])
  end.

(** The inner loop body of each kind of workload, and its chunk body. *)
Definition op_of (k : kind) (keys values : list Z) (value_size : Z)
  : Bench -> Z -> result Bench :=
  match k with
  | KWrite => write_op keys values value_size
  | KRead => read_op keys
  | KDelete => delete_op keys
  end.

Definition chunk_of (F : Flags) (W : World) (k : kind) (order : Order)
  (value_size entries_per_batch n : Z) (b : Bench) : result Bench :=
  match k with
  | KWrite => write_chunk F W order value_size entries_per_batch n b
  | KRead => read_chunk F W order entries_per_batch n b
  | KDelete => delete_chunk F W order entries_per_batch n b
  end.

(** What the three inner loop bodies do to the state once the entries are
    read: the bytes, the call, the count. *)
Definition generic_op (call : Z -> event) (pay : Z -> Z) (b : Bench) (i : Z)
  : Bench :=
  finish_single_op (emit (call i) (set_bytes (pay (bytes_ b)) b)).

(** The time one chunk adds when the clock has been read [t] times. *)
Definition chunk_time (W : World) (t : nat) : Z :=
  round53 (round53 (uint64 (now_micros W (S t)))
           - round53 (uint64 (now_micros W t))).

(** The progress counters between two operations: the count is below the
    threshold, the threshold is a multiple of 100 and at most 100000 ahead. *)
Definition report_inv (b : Bench) : Prop :=
  0 <= done_ b < next_report_ b /\ (100 | next_report_ b) /\
  next_report_ b <= done_ b + 100000.

(** The counters are in order and leave room for [n] operations: no [int]
    wraps around on the way. *)
Definition counters_room (n : Z) (b : Bench) : Prop :=
  report_inv b /\ done_ b + n + 200000 < 2 ^ 31.

(** [bytes_] leaves room for [n] operations of [cost] bytes each: the
    [int64_t] does not wrap around on the way. *)
Definition bytes_room (cost n : Z) (b : Bench) : Prop :=
  Z.abs (bytes_ b) + n * Z.abs cost < 2 ^ 63.

(** A progress line reports a positive multiple of 100. *)
Definition progress_ok (e : event) : Prop :=
  match e with
  | EProgress d => 0 < d /\ (100 | d)
  | _ => True
  end.

(** The transactions of a log are in order: no begin inside a transaction,
    no end outside one, no pragma, prepare, finalize or checkpoint inside
    one and, when [txn] is set, no operation on an entry outside one.  The
    result is whether the log ends inside a transaction. *)
Fixpoint txn_check (txn inside : bool) (log : list event) : option bool :=
  match log with
  | [] => Some inside
  | EBegin :: log' => if inside then None else txn_check txn true log'
  | EEnd :: log' => if inside then txn_check txn false log' else None
  | (EReplace _ _ _ _ | ERead _ _ | EDelete _ _) :: log' =>
      if txn && negb inside then None else txn_check txn inside log'
  | (EExec _ | EPrepare _ | EFinalize _ | ECheckpoint) :: log' =>
      if inside then None else txn_check txn inside log'
  | _ :: log' => txn_check txn inside log'
  end.

Definition is_checkpoint (e : event) : bool :=
  match e with ECheckpoint => true | _ => false end.

(** The two lines that are not about one operation: the warning and the
    summary. *)
Definition is_notice (e : event) : bool :=
  match e with
  | EWarn _ | ESummary _ _ _ => true
  | _ => false
  end.

(** From [b] to [b'] the log grows by [evs], without a warning or a
    summary, and, where the counters have room, [count] operations are
    counted, the progress lines are in order and, where [bytes_] has room,
    each operation is paid for with [cost] bytes. *)
Definition run_to (b b' : Bench) (evs : list event) (count : nat) (cost : Z)
  : Prop :=
  log_ b' = log_ b ++ evs /\
  Forall (fun e => is_notice e = false) evs /\
  (counters_room (Z.of_nat count) b ->
   done_ b' = done_ b + Z.of_nat count /\
   (bytes_room cost (Z.of_nat count) b ->
    bytes_ b' = bytes_ b + Z.of_nat count * cost) /\
   report_inv b' /\ Forall progress_ok evs).

(** From [b] to [b'] the log grows by [evs] and nothing else changes but,
    possibly, the message. *)
Definition emits (b b' : Bench) (evs : list event) : Prop :=
  log_ b' = log_ b ++ evs /\
  num_ b' = num_ b /\ reads_ b' = reads_ b /\
  op_total_time_ b' = op_total_time_ b /\ bytes_ b' = bytes_ b /\
  gen_ b' = gen_ b /\ rand_ b' = rand_ b /\ done_ b' = done_ b /\
  next_report_ b' = next_report_ b /\ created_ b' = created_ b /\
  ticks_ b' = ticks_ b.

(** The batch size divides the chunk of a workload of [count] entries, or
    there is no chunk: the batch loops stay inside the batches. *)
Definition fits (entries_per_batch count : Z) : Prop :=
  count <= 0 \/ (entries_per_batch | Z.min count MAXNUMPERTIME).

#[global] Instance fits_dec (entries_per_batch count : Z) :
  Decision (fits entries_per_batch count).
Proof. unfold fits. apply _. Defined.

(** The workload of a name stays inside its batches in state [b]: the name
    has no row, or the batch size of its row divides its chunk. *)
Definition name_fits (b : Bench) (name : string) : Prop :=
  match lookup_workload name with
  | Some w => fits (w_batch w) (workload_count w b)
  | None => True
  end.

#[global] Instance name_fits_dec (b : Bench) (name : string) :
  Decision (name_fits b name).
Proof. unfold name_fits. destruct (lookup_workload name); apply _. Defined.

(** The names of a list before the first whose workload does not stay
    inside its batches. *)
Fixpoint completed (b : Bench) (names : list string) : list string :=
  match names with
  | [] => []
  | name :: names' =>
      if decide (name_fits b name) then name :: completed b names' else []
  end.

(** What a workload of [count] entries with a positive batch size does
    between [b] and the state [r] ends in: the engine calls [pre] around at
    most one chunk of [n] entries, the smaller of the count and the bound.
    The chunk makes one call for each of its entries, in order, after the
    begin; the PRNG moves by the keys of the chunk; where the counters have
    room each call is counted and, where [bytes_] has, paid for.  If the batch size divides [n]
    the end of the transaction follows, the clock has been read twice, the
    time of the chunk is added, the calls [post] are made and the workload
    returns; if not, the batch loops go on to read entry [n] of arrays of
    [n] entries, and the workload does not return. *)
Definition outcome (F : Flags) (W : World) (k : kind) (order : Order)
  (value_size entries_per_batch count : Z) (pre post : list event)
  (b : Bench) (r : result Bench) (evs : list event) : Prop :=
  let b' := reached r in
  log_ b' = log_ b ++ evs /\
  num_ b' = num_ b /\ reads_ b' = reads_ b /\ created_ b' = created_ b /\
  Forall (fun e => is_notice e = false) evs /\
  if decide (0 < count) then
    let n := Z.min count MAXNUMPERTIME in
    let keys := (gen_key (fresh_array n) n order (rand_ b)).1 in
    exists values,
      length values = Z.to_nat n /\
      rand_ b' = (gen_key (fresh_array n) n order (rand_ b)).2 /\
      (counters_room n b ->
       done_ b' = done_ b + n /\
       (bytes_room (workload_cost k value_size) n b ->
        bytes_ b' = bytes_ b + n * workload_cost k value_size) /\
       Forall progress_ok evs) /\
      if decide (entries_per_batch | n) then
        r = Done b' /\
        db_ops evs
          = pre ++ bracket (FLAGS_transaction F)
                     (workload_call k keys values value_size <$> seqZ 0 n)
                ++ post /\
        ticks_ b' = S (S (ticks_ b)) /\
        op_total_time_ b'
          = round53 (op_total_time_ b + chunk_time W (ticks_ b))
      else
        r = Halt OutOfBounds b' /\
        db_ops evs
          = pre ++ (if FLAGS_transaction F then [EBegin] else [])
                ++ (workload_call k keys values value_size <$> seqZ 0 n) /\
        ticks_ b' = S (ticks_ b) /\
        op_total_time_ b' = op_total_time_ b
  else
    r = Done b' /\ db_ops evs = pre ++ post /\
    done_ b' = done_ b /\ bytes_ b' = bytes_ b /\ rand_ b' = rand_ b /\
    ticks_ b' = ticks_ b /\ op_total_time_ b' = op_total_time_ b /\
    Forall progress_ok evs.

(** [b0] is [b] with a workload started: the log has grown by [evs], the
    counters are fresh and the rest is as it was. *)
Definition started (b b0 : Bench) (evs : list event) : Prop :=
  log_ b0 = log_ b ++ evs /\
  num_ b0 = num_ b /\ reads_ b0 = reads_ b /\ rand_ b0 = rand_ b /\
  gen_ b0 = gen_ b /\ ticks_ b0 = ticks_ b /\
  done_ b0 = 0 /\ next_report_ b0 = 100 /\ bytes_ b0 = 0 /\
  op_total_time_ b0 = 0 /\ message_ b0 = "".

(** The line a name ends with: the summary of its workload, with at least
    one operation counted, or the warning. *)
Definition notice_of (name : string) (e : event) : Prop :=
  match lookup_workload name with
  | Some _ => exists total done, e = ESummary name total done /\ 1 <= done
  | None => e = EWarn name
  end.

(** The names whose workload ends with a checkpoint of the log. *)
Definition checkpointed (name : string) : bool :=
  match lookup_workload name with
  | Some w => match w_kind w with KRead => false | _ => true end
  | None => false
  end.



(** * Properties *)

(** ** The loops *)

(** One turn of the chunk loop. *)
Lemma chunk_loop_step n :
  chunk_loop n
  = if decide (0 < n) then n :: chunk_loop (n - MAXNUMPERTIME) else [].
Proof.
  rewrite chunk_loop_equation_1.
  destruct (Z_lt_dec 0 n); simpl; case_decide; try lia; reflexivity.
Qed.

(** One turn of the outer batch loop. *)
Lemma batch_loop_step n e i :
  batch_loop n e i =
  if decide (i < n) then
    if decide (0 < e)
    then app (inner_loop i e) <$> batch_loop n e (i + e)
    else None
  else Some [].
Proof.
  rewrite batch_loop_equation_1.
  destruct (Z_lt_dec i n); simpl; case_decide; try lia; try reflexivity.
  destruct (Z_lt_dec 0 e); simpl; case_decide; try lia; reflexivity.
Qed.

(** Whatever the count, the chunk loop has at most one turn, of the count
    or of the bound if the count is above it. *)
Lemma chunks_at_most_one num :
  chunks num = if decide (0 < num) then [Z.min num MAXNUMPERTIME] else [].
Proof.
  unfold chunks. destruct (Z.ltb_spec MAXNUMPERTIME num) as [H|H].
  - rewrite chunk_loop_step. rewrite decide_True by (unfold MAXNUMPERTIME; lia).
    rewrite chunk_loop_step. rewrite decide_False by lia.
    rewrite decide_True by (unfold MAXNUMPERTIME in *; lia).
    f_equal. lia.
  - rewrite chunk_loop_step. case_decide; [|reflexivity].
    rewrite chunk_loop_step. rewrite decide_False by lia.
    f_equal. lia.
Qed.


(** With a positive batch size the batch loops end. *)
Lemma batch_loop_total e : 0 < e -> forall n i, is_Some (batch_loop n e i).
Proof.
  intros He n i. remember (Z.to_nat (n - i)) as m eqn:Hm. revert i Hm.
  induction (lt_wf m) as [m _ IH]. intros i Hm.
  rewrite batch_loop_step. case_decide; [|eauto].
  rewrite decide_True by done.
  destruct (IH (Z.to_nat (n - (i + e))) ltac:(lia) (i + e) eq_refl) as [l ->].
  simpl. eauto.
Qed.


(** The chunk loop of a workload of 1,200,000 entries, and of any workload
    above the bound, has a single turn. *)
Lemma chunks_above_bound num :
  MAXNUMPERTIME < num -> chunks num = [MAXNUMPERTIME].
Proof.
  intros H. rewrite chunks_at_most_one.
  rewrite decide_True by (unfold MAXNUMPERTIME in *; lia).
  f_equal. lia.
Qed.

(** With stride 1 the batch loops use each index of the chunk once. *)
Lemma batch_loop_stride_1 (n : Z) : forall i,
  i <= n -> batch_loop n 1 i = Some (seqZ i (n - i)).
Proof.
  intros i. remember (Z.to_nat (n - i)) as m eqn:Hm. revert i Hm.
  induction (lt_wf m) as [m _ IH]. intros i Hm Hin.
  rewrite batch_loop_step. case_decide as Hlt.
  - rewrite decide_True by lia.
    rewrite (IH (Z.to_nat (n - (i + 1))) ltac:(lia) (i + 1) eq_refl ltac:(lia)).
    rewrite (seqZ_cons i (n - i)) by lia.
    unfold inner_loop. rewrite (seqZ_cons 0 1) by lia.
    rewrite (seqZ_nil _ (Z.pred 1)) by lia.
    cbn [fmap list_fmap app option_fmap option_map].
    rewrite Z.add_0_r. do 3 f_equal; lia.
  - rewrite seqZ_nil by lia. reflexivity.
Qed.

(** ** Key batches *)

Lemma take_S_insert {A} (l : list A) (m : nat) (v : A) :
  (m < length l)%nat -> take (S m) (<[m := v]> l) = take m l ++ [v].
Proof.
  intros H. erewrite take_S_r by (by apply list_lookup_insert_eq).
  by rewrite take_insert_ge by lia.
Qed.

Lemma gen_key_seq_loop (k : nat) : forall (m : nat) (keys : list Z),
  length keys = (m + k)%nat ->
  foldl (fun ks i => <[Z.to_nat i := i]> ks) keys (seqZ (Z.of_nat m) (Z.of_nat k))
  = take m keys ++ seqZ (Z.of_nat m) (Z.of_nat k).
Proof.
  induction k as [|k IH]; intros m keys Hlen.
  - rewrite seqZ_nil by lia. simpl. rewrite take_ge by lia. by rewrite app_nil_r.
  - rewrite seqZ_cons by lia. simpl.
    replace (Z.succ (Z.of_nat m)) with (Z.of_nat (S m)) by lia.
    replace (Z.pred (Z.of_nat (S k))) with (Z.of_nat k) by lia.
    rewrite IH by (rewrite length_insert; lia).
    rewrite Nat2Z.id, take_S_insert by lia.
    by rewrite <- app_assoc.
Qed.

Lemma gen_key_rand_loop (num : Z) (k : nat) : forall (m : nat) (keys : list Z) r,
  length keys = (m + k)%nat ->
  (foldl (fun '(ks, r) i =>
               let '(x, r') := rand_next r in
               (<[Z.to_nat i := int32 (uint32 x mod uint32 num)]> ks, r'))
            (keys, r) (seqZ (Z.of_nat m) (Z.of_nat k))).1
  = take m keys ++ ((fun x => int32 (uint32 x mod uint32 num)) <$> draws k r).
Proof.
  induction k as [|k IH]; intros m keys r Hlen.
  - rewrite seqZ_nil by lia. simpl. rewrite take_ge by lia. by rewrite app_nil_r.
  - rewrite seqZ_cons by lia. simpl.
    replace (Z.succ (Z.of_nat m)) with (Z.of_nat (S m)) by lia.
    replace (Z.pred (Z.of_nat (S k))) with (Z.of_nat k) by lia.
    destruct (rand_next r) as [x r'] eqn:Hx.
    rewrite IH by (rewrite length_insert; lia).
    rewrite Nat2Z.id, take_S_insert by lia.
    by rewrite <- app_assoc.
Qed.

Lemma draws_range k : forall r, Forall (fun x => 0 <= x < 2 ^ 31 - 1) (draws k r).
Proof.
  induction k as [|k IH]; intros r; simpl; [constructor|].
  constructor; [|apply IH]. apply Z.mod_pos_bound. lia.
Qed.

Lemma length_draws k r : length (draws k r) = k.
Proof. revert r. induction k; intros r; simpl; [done|]. by rewrite IHk. Qed.

(** Any [uint32_t] draw and any positive [int] count: the stored key is the
    draw modulo the count. *)
Lemma key_of_draw (x count : Z) :
  0 <= x < 2 ^ 32 -> 0 < count < 2 ^ 31 ->
  int32 (uint32 x mod uint32 count) = x mod count.
Proof.
  intros Hx Hc. unfold int32, uint32.
  rewrite (Z.mod_small x) by lia. rewrite (Z.mod_small count) by lia.
  pose proof (Z.mod_pos_bound x count ltac:(lia)).
  rewrite Z.mod_small by lia. lia.
Qed.


(** C3: for a count that an [int] can hold and an array of that many slots,
    sequential order leaves the keys 0, 1, ..., count-1 in this order; random
    order leaves count keys, the i-th being the i-th output of the PRNG modulo
    count, each in [0, count); and a key can come up twice. *)
Theorem gen_key_contents (keys : list Z) (count : Z) (r : Random) :
  0 <= count < 2 ^ 31 -> length keys = Z.to_nat count ->
  (gen_key keys count SEQUENTIAL r).1 = seqZ 0 count /\
  (gen_key keys count RANDOM r).1
    = (fun x => x mod count) <$> draws (Z.to_nat count) r /\
  length (gen_key keys count RANDOM r).1 = Z.to_nat count /\
  Forall (fun k => 0 <= k < count) (gen_key keys count RANDOM r).1 /\
  ~ NoDup (gen_key (fresh_array 5) 5 RANDOM (rand_init 1000)).1.
Proof.
  intros Hc Hlen.
  assert ((gen_key keys count RANDOM r).1
          = (fun x => x mod count) <$> draws (Z.to_nat count) r) as Hrand.
  { unfold gen_key.
    pose proof (gen_key_rand_loop count (Z.to_nat count) 0 keys r Hlen) as H.
    rewrite Z2Nat.id in H by lia. change (Z.of_nat 0) with 0 in H.
    rewrite take_0, app_nil_l in H. rewrite H.
    destruct (decide (count = 0)) as [->|Hne]; [reflexivity|].
    apply Forall_fmap_ext_1. eapply Forall_impl; [apply draws_range|].
    intros x Hx. simpl in *. apply key_of_draw; lia. }
  split; [|split; [exact Hrand|split; [|split]]].
  - unfold gen_key. simpl.
    pose proof (gen_key_seq_loop (Z.to_nat count) 0 keys Hlen) as H.
    rewrite Z2Nat.id in H by lia. exact H.
  - rewrite Hrand, length_fmap. apply length_draws.
  - rewrite Hrand. destruct (decide (count = 0)) as [->|Hne]; [constructor|].
    apply Forall_fmap, Forall_forall. intros x _. simpl.
    apply Z.mod_pos_bound. lia.
  - intros H. apply (bool_decide_pack _) in H. vm_compute in H. exact H.
Qed.

(** Five keys from the seed 1000. *)
Lemma gen_key_contents_witness :
  (gen_key (fresh_array 5) 5 SEQUENTIAL (rand_init 1000)).1 = seqZ 0 5 /\
  (gen_key (fresh_array 5) 5 RANDOM (rand_init 1000)).1
    = (fun x => x mod 5) <$> draws (Z.to_nat 5) (rand_init 1000) /\
  length (gen_key (fresh_array 5) 5 RANDOM (rand_init 1000)).1 = Z.to_nat 5 /\
  Forall (fun k => 0 <= k < 5) (gen_key (fresh_array 5) 5 RANDOM (rand_init 1000)).1 /\
  ~ NoDup (gen_key (fresh_array 5) 5 RANDOM (rand_init 1000)).1.
Proof.
  apply (gen_key_contents (fresh_array 5) 5 (rand_init 1000)); [lia|reflexivity].
Defined.


(** ** The value generator *)

(** C8: for a well-formed generator and a length below the size of the pool,
    [rand_gen_generate] hands out a view that starts at the cursor, or at
    offset 0 when cursor plus length would pass the end of the pool; the view
    is [len] bytes long and is a contiguous piece of the pool; the cursor
    ends [len] after the start of the view, still inside the pool. *)
Theorem rand_gen_generate_in_pool (g : RandomGenerator) (len : Z) :
  gen_ok g -> 0 <= len < data_size_ g ->
  let off := (rand_gen_generate g len).1 in
  let g' := (rand_gen_generate g len).2 in
  off = (if data_size_ g <? pos_ g + len then 0 else pos_ g) /\
  0 <= off /\ off + len <= data_size_ g /\
  length (pool_view g off len) = Z.to_nat len /\
  (exists before after, data_ g = before ++ pool_view g off len ++ after /\
                        length before = Z.to_nat off) /\
  pos_ g' = off + len /\ data_ g' = data_ g /\ gen_ok g'.
Proof.
  intros [Hsize Hpos] Hlen. simpl.
  set (off := if data_size_ g <? pos_ g + len then 0 else pos_ g).
  assert (0 <= off /\ off + len <= data_size_ g) as [Hoff Hend].
  { unfold off. destruct (Z.ltb_spec (data_size_ g) (pos_ g + len)); lia. }
  split; [reflexivity|]. split; [exact Hoff|]. split; [exact Hend|].
  assert (length (pool_view g off len) = Z.to_nat len) as Hview.
  { unfold pool_view. rewrite length_take, length_drop. lia. }
  split; [exact Hview|]. split.
  - exists (take (Z.to_nat off) (data_ g)),
           (drop (Z.to_nat len) (drop (Z.to_nat off) (data_ g))).
    unfold pool_view. rewrite take_drop, take_drop. split; [reflexivity|].
    rewrite length_take. lia.
  - split; [reflexivity|]. split; [reflexivity|].
    unfold gen_ok. simpl. fold off. lia.
Qed.

(** A request of 40 bytes with the cursor at 30 of 64: the view starts at 0. *)
Lemma rand_gen_generate_in_pool_witness :
  let g := {| data_ := replicate 64 Byte.x00; data_size_ := 64; pos_ := 30 |} in
  let off := (rand_gen_generate g 40).1 in
  let g' := (rand_gen_generate g 40).2 in
  off = (if data_size_ g <? pos_ g + 40 then 0 else pos_ g) /\
  0 <= off /\ off + 40 <= data_size_ g /\
  length (pool_view g off 40) = Z.to_nat 40 /\
  (exists before after, data_ g = before ++ pool_view g off 40 ++ after /\
                        length before = Z.to_nat off) /\
  pos_ g' = off + 40 /\ data_ g' = data_ g /\ gen_ok g'.
Proof.
  apply (rand_gen_generate_in_pool
           {| data_ := replicate 64 Byte.x00; data_size_ := 64; pos_ := 30 |} 40).
  - unfold gen_ok. simpl. lia.
  - simpl. lia.
Defined.

(** ** Initialisation *)

(** C6, as claimed, fails: [--num=-5] is taken as it is, and the read count,
    negative by default, resolves to it. *)
Lemma init_counts_negative_counterexample :
  let b := benchmark_init (main_flags [ArgNum (-5)]) example_world in
  num_ b = -5 /\ reads_ b = -5 /\ ~ (0 <= num_ b /\ 0 <= reads_ b).
Proof. cbn. split; [reflexivity|]. split; [reflexivity|]. lia. Qed.

(** C6, amended: after [benchmark_init] the entry count is the value of
    [--num], whatever it is, a negative one included; the read count is the
    value of [--reads] unless that is negative, in which case it is the
    entry count; both are non-negative whenever the value of [--num] is, and
    the entry count is negative whenever that value is. *)
Theorem init_counts_resolved (F : Flags) (W : World) :
  let b := benchmark_init F W in
  num_ b = FLAGS_num F /\
  (FLAGS_reads F < 0 /\ reads_ b = num_ b \/
   0 <= FLAGS_reads F /\ reads_ b = FLAGS_reads F) /\
  (FLAGS_num F < 0 /\ num_ b < 0 \/
   0 <= FLAGS_num F /\ 0 <= num_ b /\ 0 <= reads_ b).
Proof.
  cbn. split; [reflexivity|].
  destruct (Z.ltb_spec (FLAGS_reads F) 0) as [Hneg|Hpos].
  - split; [left; split; [exact Hneg|reflexivity]|].
    destruct (Z.lt_ge_cases (FLAGS_num F) 0); [left|right]; lia.
  - split; [right; split; [exact Hpos|reflexivity]|].
    destruct (Z.lt_ge_cases (FLAGS_num F) 0); [left|right]; lia.
Qed.

(** ** The message [stop] leaves *)

(** What [stop] leaves in [message_] once bytes were recorded: the rate and a
    blank when the message was empty, the rate alone when it was not. *)
Lemma stop_message (W : World) (name : string) (b : Bench) :
  0 < bytes_ b ->
  message_ (stop W name b) =
  if String.eqb (message_ b) ""
  then rate_text W (bytes_ b) (op_total_time_ b) +:+ " " +:+ message_ b
  else rate_text W (bytes_ b) (op_total_time_ b).
Proof.
  intros Hb. unfold stop.
  destruct (done_ b <? 1); simpl;
    (destruct (Z.ltb_spec 0 (bytes_ b)); [|lia]);
    destruct (String.eqb (message_ b) ""); reflexivity.
Qed.

(** ** Machine numbers *)

Lemma int32_small (z : Z) : - 2 ^ 31 <= z < 2 ^ 31 -> int32 z = z.
Proof. intros H. unfold int32. rewrite Z.mod_small by lia. lia. Qed.

Lemma int64_small (z : Z) : - 2 ^ 63 <= z < 2 ^ 63 -> int64 z = z.
Proof. intros H. unfold int64. rewrite Z.mod_small by lia. lia. Qed.

Lemma round53_small (z : Z) : Z.abs z < 2 ^ 53 -> round53 z = z.
Proof.
  intros H. unfold round53.
  by destruct (Z.ltb_spec (Z.abs z) (2 ^ 53)); [|lia].
Qed.

Lemma bind_done (r : result Bench) : (b ← r; Done b) = r.
Proof. by destruct r. Qed.

(** ** Logs and what a step of the driver leaves alone *)

Lemma db_ops_app (l1 l2 : list event) : db_ops (l1 ++ l2) = db_ops l1 ++ db_ops l2.
Proof. apply List.filter_app. Qed.

Lemma db_ops_all (l : list event) :
  Forall (fun e => is_db_op e = true) l -> db_ops l = l.
Proof.
  induction 1 as [|e l He _ IH]; [reflexivity|].
  unfold db_ops in *. cbn. rewrite He. by rewrite IH.
Qed.

Lemma db_op_progress_ok (l : list event) :
  Forall (fun e => is_db_op e = true) l -> Forall progress_ok l.
Proof. intros H. eapply Forall_impl; [exact H|]. by intros []. Qed.

Lemma db_op_no_notice (l : list event) :
  Forall (fun e => is_db_op e = true) l ->
  Forall (fun e => is_notice e = false) l.
Proof. intros H. eapply Forall_impl; [exact H|]. by intros []. Qed.

Lemma kept_trans (b1 b2 b3 : Bench) : kept b1 b2 -> kept b2 b3 -> kept b1 b3.
Proof. unfold kept. intros (?&?&?&?) (?&?&?&?). repeat split; congruence. Qed.

Lemma emits_refl (b : Bench) : emits b b [].
Proof. unfold emits. by rewrite app_nil_r. Qed.

Lemma emits_emit (e : event) (b : Bench) : emits b (emit e b) [e].
Proof. by unfold emits. Qed.

(** ** Progress lines *)

(** [finish_single_op] assigns the two counters and prints at most the
    progress line. *)
Lemma finish_single_op_fields (b : Bench) :
  op_fields (finish_single_op b) = op_fields b /\
  bytes_ (finish_single_op b) = bytes_ b /\
  exists line,
    log_ (finish_single_op b) = log_ b ++ line /\ db_ops line = [] /\
    Forall (fun e => is_notice e = false) line.
Proof.
  unfold finish_single_op. cbn.
  destruct (next_report_ b <=? int32 (done_ b + 1)); cbn.
  - split; [reflexivity|]. split; [reflexivity|].
    eexists [_]. split; [reflexivity|]. split; [reflexivity|].
    by repeat constructor.
  - split; [reflexivity|]. split; [reflexivity|].
    exists []. by rewrite app_nil_r.
Qed.

(** With the counters in order and a threshold that an [int] can raise,
    the count goes up by one, the counters stay in order and a line is
    printed exactly when the count reaches the threshold. *)
Lemma finish_single_op_facts (b : Bench) :
  report_inv b -> next_report_ b + 100000 < 2 ^ 31 ->
  report_inv (finish_single_op b) /\
  done_ (finish_single_op b) = done_ b + 1 /\
  next_report_ b <= next_report_ (finish_single_op b) /\
  log_ (finish_single_op b)
    = log_ b ++ (if decide (done_ b + 1 = next_report_ b)
                  then [EProgress (next_report_ b)] else []).
Proof.
  intros (Hdone & [q Hq] & Hgap) Hroom. unfold finish_single_op, report_inv.
  cbn. rewrite (int32_small (done_ b + 1)) by lia.
  destruct (Z.leb_spec (next_report_ b) (done_ b + 1)) as [Hle|Hlt].
  - assert (done_ b + 1 = next_report_ b) as Heq by lia.
    rewrite decide_True by done. cbn. rewrite Heq.
    repeat match goal with
    | |- context [?x <? ?y] => destruct (Z.ltb_spec x y)
    end;
    rewrite int32_small by lia;
    (split; [split; [lia|split; [|lia]]
            |split; [reflexivity|split; [lia|reflexivity]]]);
    [exists (q + 1)|exists (q + 5)|exists (q + 10)|exists (q + 50)
     |exists (q + 100)|exists (q + 500)|exists (q + 1000)]; lia.
  - rewrite decide_False by lia. cbn. rewrite app_nil_r.
    split; [split; [lia|split; [by exists q|lia]]|].
    split; [reflexivity|]. split; [lia|done].
Qed.

(** ** Accounting *)

Lemma counters_room_next (count : nat) (b : Bench) :
  counters_room (Z.of_nat (S count)) b -> next_report_ b + 100000 < 2 ^ 31.
Proof. intros ((Hdone & _ & Hgap) & Hint). lia. Qed.

Lemma bytes_room_next (cost : Z) (count : nat) (b : Bench) :
  bytes_room cost (Z.of_nat (S count)) b ->
  - 2 ^ 63 <= bytes_ b + cost < 2 ^ 63.
Proof.
  unfold bytes_room. intros Hbytes.
  assert (0 <= Z.of_nat count * Z.abs cost) by (apply Z.mul_nonneg_nonneg; lia).
  replace (Z.of_nat (S count)) with (Z.of_nat count + 1) in * by lia.
  rewrite Z.mul_add_distr_r in Hbytes. lia.
Qed.

Lemma run_to_trans (b1 b2 b3 : Bench) (e1 e2 : list event) (c1 c2 : nat)
  (cost : Z) :
  run_to b1 b2 e1 c1 cost -> run_to b2 b3 e2 c2 cost ->
  run_to b1 b3 (e1 ++ e2) (c1 + c2) cost.
Proof.
  intros (Hl1 & Hq1 & Hi1) (Hl2 & Hq2 & Hi2).
  split; [by rewrite Hl2, Hl1, app_assoc|].
  split; [by apply Forall_app|].
  intros (Hinv & Hint).
  rewrite Nat2Z.inj_add in Hint.
  destruct Hi1 as (Hd1 & Hb1 & Hinv2 & Hp1).
  { split; [exact Hinv|]. lia. }
  destruct Hi2 as (Hd2 & Hb2 & Hinv3 & Hp2).
  { split; [exact Hinv2|]. rewrite Hd1. lia. }
  rewrite Nat2Z.inj_add. split; [lia|].
  split; [|split; [exact Hinv3|by apply Forall_app]].
  unfold bytes_room in *. intros Hbytes.
  rewrite Z.mul_add_distr_r in Hbytes.
  assert (0 <= Z.of_nat c1 * Z.abs cost) by (apply Z.mul_nonneg_nonneg; lia).
  assert (0 <= Z.of_nat c2 * Z.abs cost) by (apply Z.mul_nonneg_nonneg; lia).
  assert (Z.abs (Z.of_nat c1 * cost) = Z.of_nat c1 * Z.abs cost) as Habs
    by (rewrite Z.abs_mul; f_equal; lia).
  pose proof (Z.abs_triangle (bytes_ b1) (Z.of_nat c1 * cost)) as Htri.
  rewrite Hb2, Hb1 by (rewrite ?Hb1; lia). lia.
Qed.

Section GenericOperations.

Variable call : Z -> event.
Variable pay : Z -> Z.
Variable cost : Z.
Hypothesis call_db_op : forall i, is_db_op (call i) = true.
Hypothesis pay_cost : forall x,
  - 2 ^ 63 <= x + cost < 2 ^ 63 -> pay x = x + cost.

(** One operation on an entry. *)
Lemma generic_op_full (b : Bench) (i : Z) :
  exists evs,
    run_to b (generic_op call pay b i) evs 1 cost /\
    db_ops evs = [call i] /\
    op_fields (generic_op call pay b i) = op_fields b.
Proof.
  unfold generic_op.
  set (b1 := emit (call i) (set_bytes (pay (bytes_ b)) b)).
  destruct (finish_single_op_fields b1) as (Hf & Hb & line & Hl & Hops & Hq).
  assert (is_notice (call i) = false /\ progress_ok (call i)) as [Hqc Hok]
    by (pose proof (call_db_op i); by destruct (call i)).
  exists ([call i] ++ line). split; [|split].
  - split; [|split].
    + rewrite Hl. unfold b1. cbn. by rewrite <- app_assoc.
    + by constructor.
    + intros Hroom. pose proof (counters_room_next 0 b Hroom) as Hnr.
      destruct Hroom as (Hinv & _).
      destruct (finish_single_op_facts b1 Hinv Hnr) as (Hinv' & Hd & _ & Hl').
      split; [exact Hd|]. split.
      { intros Hby%bytes_room_next. rewrite Hb. unfold b1. cbn.
        rewrite pay_cost by exact Hby. lia. }
      split; [exact Hinv'|].
      constructor; [exact Hok|].
      rewrite Hl in Hl'. apply app_inv_head in Hl'. rewrite Hl'.
      destruct Hinv as (Hdone & Hdiv & _). change (done_ b1) with (done_ b).
      change (next_report_ b1) with (next_report_ b).
      destruct (decide (done_ b + 1 = next_report_ b)); [|constructor].
      constructor; [|constructor]. split; [lia|done].
  - rewrite db_ops_app, Hops, app_nil_r. unfold db_ops. cbn.
    by rewrite call_db_op.
  - rewrite Hf. reflexivity.
Qed.

(** The operations at a list of indices. *)
Lemma foldl_generic_op (idxs : list Z) : forall b,
  exists evs,
    run_to b (foldl (generic_op call pay) b idxs) evs (length idxs) cost /\
    db_ops evs = call <$> idxs /\
    op_fields (foldl (generic_op call pay) b idxs) = op_fields b.
Proof.
  induction idxs as [|i idxs IH]; intros b.
  - exists []. split; [|done]. split; [by rewrite app_nil_r|].
    split; [constructor|]. intros (Hinv & _). cbn.
    split; [lia|]. split; [lia|]. split; [exact Hinv|constructor].
  - destruct (generic_op_full b i) as (e1 & Hr1 & Ho1 & Hf1).
    destruct (IH (generic_op call pay b i)) as (e2 & Hr2 & Ho2 & Hf2).
    exists (e1 ++ e2). cbn [foldl]. split; [|split].
    + exact (run_to_trans _ _ _ _ _ 1 (length idxs) cost Hr1 Hr2).
    + by rewrite db_ops_app, Ho1, Ho2.
    + congruence.
Qed.

End GenericOperations.

(** ** The batch loops, in full *)

Lemma batch_loop_shape (n e : Z) : 0 < e -> forall i,
  i < n ->
  batch_loop n e i = Some (seqZ i (e * ((n - i + e - 1) / e))).
Proof.
  intros He i. remember (Z.to_nat (n - i)) as m eqn:Hm. revert i Hm.
  induction (lt_wf m) as [m _ IH]. intros i Hm Hin.
  rewrite batch_loop_step, decide_True, decide_True by lia.
  unfold inner_loop. rewrite fmap_add_seqZ, Z.add_0_r.
  destruct (decide (i + e < n)) as [Hlt|Hge].
  - rewrite (IH (Z.to_nat (n - (i + e))) ltac:(lia) (i + e) eq_refl Hlt).
    cbn. f_equal.
    replace (n - i + e - 1) with ((n - (i + e) + e - 1) + 1 * e) by lia.
    rewrite Z.div_add by lia.
    set (q := (n - (i + e) + e - 1) / e).
    assert (0 <= q) by (apply Z.div_pos; lia).
    replace (e * (q + 1)) with (e + e * q) by lia.
    rewrite seqZ_app by nia. reflexivity.
  - rewrite batch_loop_step, decide_False by lia. cbn. rewrite app_nil_r.
    f_equal. f_equal.
    assert ((n - i + e - 1) / e = 1) as ->; [|lia].
    symmetry. apply Z.div_unique with (r := n - i - 1). lia. lia.
Qed.

(** A batch size that divides the chunk: the indices are those of the
    chunk. *)
Lemma batch_indices_divides (n e : Z) :
  0 < n -> 0 < e -> (e | n) -> batch_indices n e = Some (seqZ 0 n).
Proof.
  intros Hn He [q Hq]. unfold batch_indices.
  rewrite (batch_loop_shape n e He 0 Hn), Z.sub_0_r. do 2 f_equal.
  replace (n + e - 1) with (e - 1 + q * e) by lia.
  rewrite Z.div_add by lia. rewrite Z.div_small by lia. lia.
Qed.

(** A batch size that does not: the indices go on past the chunk. *)
Lemma batch_indices_overrun (n e : Z) :
  0 < n -> 0 < e -> ~ (e | n) ->
  exists rest, batch_indices n e = Some (seqZ 0 n ++ n :: rest).
Proof.
  intros Hn He Hnot. unfold batch_indices.
  rewrite (batch_loop_shape n e He 0 Hn), Z.sub_0_r.
  set (m := e * ((n + e - 1) / e)).
  assert (n < m) as Hm.
  { pose proof (Z.div_mod (n + e - 1) e ltac:(lia)) as Hdm.
    pose proof (Z.mod_pos_bound (n + e - 1) e He) as Hr.
    assert (n <= m) by (unfold m; lia).
    destruct (decide (n = m)) as [Heq|Hne]; [|lia].
    exfalso. apply Hnot. exists ((n + e - 1) / e). unfold m in Heq. lia. }
  exists (seqZ (n + 1) (m - n - 1)). f_equal.
  replace m with (n + (m - n)) at 1 by lia.
  rewrite seqZ_app by lia. f_equal.
  rewrite (seqZ_cons (0 + n)) by lia. cbn [Z.add].
  replace (Z.succ n) with (n + 1) by lia.
  replace (Z.pred (m - n)) with (m - n - 1) by lia. reflexivity.
Qed.

(** ** Reads inside and outside an array *)

Lemma array_get_in (a : list Z) (i : Z) :
  0 <= i < Z.of_nat (length a) -> array_get a i = Some (array_at a i).
Proof.
  intros Hi. unfold array_at, array_get.
  destruct (Z.ltb_spec i 0); [lia|].
  assert (Z.to_nat i < length a)%nat as Hlt by lia.
  destruct (lookup_lt_is_Some_2 a (Z.to_nat i) Hlt) as [x Hx].
  by rewrite Hx.
Qed.

Lemma array_get_out (a : list Z) (i : Z) :
  Z.of_nat (length a) <= i -> array_get a i = None.
Proof.
  intros Hi. unfold array_get. destruct (Z.ltb_spec i 0); [reflexivity|].
  apply lookup_ge_None_2. lia.
Qed.

Lemma set_bytes_same (b : Bench) : set_bytes (bytes_ b) b = b.
Proof. by destruct b. Qed.

Lemma workload_call_db_op (k : kind) (keys values : list Z) (value_size i : Z) :
  is_db_op (workload_call k keys values value_size i) = true.
Proof. by destruct k. Qed.

Lemma workload_pay_cost (k : kind) (value_size x : Z) :
  - 2 ^ 63 <= x + workload_cost k value_size < 2 ^ 63 ->
  workload_pay k value_size x = x + workload_cost k value_size.
Proof.
  destruct k; cbn; intros H; [by rewrite int64_small|lia|lia].
Qed.

Section Chunk.

Variable k : kind.
Variable keys values : list Z.
Variable value_size n : Z.
Hypothesis keys_n : length keys = Z.to_nat n.
Hypothesis values_n : length values = Z.to_nat n.

(** The inner loop body at an index inside the batches. *)
Lemma op_of_in (b : Bench) (i : Z) :
  0 <= i < n ->
  op_of k keys values value_size b i
  = Done (generic_op (workload_call k keys values value_size)
            (workload_pay k value_size) b i).
Proof.
  intros Hi. unfold generic_op.
  destruct k; unfold op_of, write_op, read_op, delete_op;
    rewrite (array_get_in keys i) by lia; cbn.
  - by rewrite (array_get_in values i) by lia.
  - by rewrite set_bytes_same.
  - by rewrite set_bytes_same.
Qed.

(** The inner loop body at an index outside them. *)
Lemma op_of_out (b : Bench) (i : Z) :
  0 <= n <= i -> op_of k keys values value_size b i = Halt OutOfBounds b.
Proof.
  intros Hi.
  destruct k; unfold op_of, write_op, read_op, delete_op;
    by rewrite (array_get_out keys i) by lia.
Qed.

Lemma run_ops_in (idxs : list Z) : forall b,
  Forall (fun i => 0 <= i < n) idxs ->
  run_ops (op_of k keys values value_size) idxs b
  = Done (foldl (generic_op (workload_call k keys values value_size)
                   (workload_pay k value_size)) b idxs).
Proof.
  induction idxs as [|i idxs IH]; intros b Hin; [reflexivity|].
  apply Forall_cons in Hin as [Hi Hin]. cbn [run_ops foldl].
  rewrite op_of_in by exact Hi. cbn [mbind result_bind]. by apply IH.
Qed.

Lemma run_ops_out (idxs rest : list Z) (i : Z) : forall b,
  Forall (fun i => 0 <= i < n) idxs -> 0 <= n <= i ->
  run_ops (op_of k keys values value_size) (idxs ++ i :: rest) b
  = Halt OutOfBounds
      (foldl (generic_op (workload_call k keys values value_size)
                (workload_pay k value_size)) b idxs).
Proof.
  induction idxs as [|j idxs IH]; intros b Hin Hi.
  - cbn [app run_ops foldl]. by rewrite op_of_out.
  - apply Forall_cons in Hin as [Hj Hin]. cbn [app run_ops foldl].
    rewrite op_of_in by exact Hj. cbn [mbind result_bind]. by apply IH.
Qed.

Variable F : Flags.
Variable W : World.

(** The timed part of a chunk of [n] entries: the operations on the
    entries of the chunk, in order, and then either the end of the chunk or
    a read outside the batches. *)
Lemma timed_ops_full (entries_per_batch : Z) (b : Bench) :
  0 < n -> 0 < entries_per_batch ->
  exists b' evs,
    run_to b b' evs (Z.to_nat n) (workload_cost k value_size) /\
    kept b b' /\ gen_ b' = gen_ b /\ rand_ b' = rand_ b /\
    if decide (entries_per_batch | n) then
      timed_ops F W (op_of k keys values value_size) entries_per_batch n b
      = Done b' /\
      db_ops evs
      = bracket (FLAGS_transaction F)
          (workload_call k keys values value_size <$> seqZ 0 n) /\
      ticks_ b' = S (S (ticks_ b)) /\
      op_total_time_ b' = round53 (op_total_time_ b + chunk_time W (ticks_ b))
    else
      timed_ops F W (op_of k keys values value_size) entries_per_batch n b
      = Halt OutOfBounds b' /\
      db_ops evs
      = (if FLAGS_transaction F then [EBegin] else [])
        ++ (workload_call k keys values value_size <$> seqZ 0 n) /\
      ticks_ b' = S (ticks_ b) /\
      op_total_time_ b' = op_total_time_ b.
Proof.
  intros Hn He. unfold timed_ops, read_clock.
  set (b1 := set_ticks (S (ticks_ b)) b).
  set (b2 := begin_transaction F b1).
  set (call := workload_call k keys values value_size).
  set (pay := workload_pay k value_size).
  set (cost := workload_cost k value_size).
  destruct (foldl_generic_op call pay cost
              (workload_call_db_op k keys values value_size)
              (workload_pay_cost k value_size) (seqZ 0 n) b2)
    as (e2 & (Hl2 & Hq2 & Hi2) & Ho2 & Hf2).
  set (b3 := foldl (generic_op call pay) b2 (seqZ 0 n)) in *.
  set (pre := if FLAGS_transaction F then [EBegin] else []).
  set (post := if FLAGS_transaction F then [EEnd] else []).
  assert (log_ b2 = log_ b ++ pre /\ done_ b2 = done_ b /\
          bytes_ b2 = bytes_ b /\ next_report_ b2 = next_report_ b /\
          op_fields b2 = op_fields b1) as (Hl1 & Hd1 & Hb1 & Hn1 & Hf1).
  { unfold b2, b1, begin_transaction, pre.
    destruct (FLAGS_transaction F); cbn; by rewrite ?app_nil_r. }
  assert (Forall (fun e => is_notice e = false) pre /\
          Forall progress_ok pre /\ db_ops pre = pre /\
          Forall (fun e => is_notice e = false) post /\
          Forall progress_ok post /\ db_ops post = post)
    as (Hqpre & Hppre & Hopre & Hqpost & Hppost & Hopost)
    by (unfold pre, post; destruct (FLAGS_transaction F);
        repeat split; by repeat constructor).
  assert (Forall (fun i => 0 <= i < n) (seqZ 0 n)) as Hin.
  { apply Forall_forall. intros i Hi. apply elem_of_seqZ in Hi. lia. }
  assert (op_fields b3 = op_fields b1) as Hf by congruence.
  unfold op_fields in Hf. injection Hf as Hnum Hr Ht Hm Hg Hrd Hc Htk.
  rewrite length_seqZ in Hi2.
  assert (counters_room (Z.of_nat (Z.to_nat n)) b ->
          counters_room (Z.of_nat (Z.to_nat n)) b2) as Hroom.
  { unfold counters_room, report_inv. by rewrite Hd1, Hn1. }
  assert (bytes_room cost (Z.of_nat (Z.to_nat n)) b ->
          bytes_room cost (Z.of_nat (Z.to_nat n)) b2) as Hbroom.
  { unfold bytes_room. by rewrite Hb1. }
  destruct (decide (entries_per_batch | n)) as [Hdiv|Hnot].
  - rewrite (batch_indices_divides n entries_per_batch Hn He Hdiv).
    rewrite (run_ops_in (seqZ 0 n) b2 Hin). cbn [mbind result_bind].
    fold call pay b3.
    set (b4 := end_transaction F b3).
    assert (log_ b4 = log_ b3 ++ post /\ done_ b4 = done_ b3 /\
            bytes_ b4 = bytes_ b3 /\ next_report_ b4 = next_report_ b3 /\
            op_fields b4 = op_fields b3) as (Hl3 & Hd3 & Hb3 & Hn3 & Hf3).
    { unfold b4, end_transaction, post.
      destruct (FLAGS_transaction F); cbn; by rewrite ?app_nil_r. }
    unfold op_fields in Hf3. injection Hf3 as Hnum3 Hr3 Ht3 Hm3 Hg3 Hrd3 Hc3 Htk3.
    eexists _, (pre ++ e2 ++ post).
    split; [|split; [|split; [|split; [|split; [reflexivity|split; [|split]]]]]].
    + split; [|split].
      * cbn -[b4]. rewrite Hl3, Hl2, Hl1. by rewrite <- !app_assoc.
      * apply Forall_app. split; [exact Hqpre|]. by apply Forall_app.
      * intros Hroom0. destruct (Hi2 (Hroom Hroom0)) as (Hd & Hb & Hinv & Hp).
        cbn -[b4]. split; [lia|].
        split; [intros Hby; rewrite Hb3, (Hb (Hbroom Hby)); lia|]. split.
        { unfold report_inv in *. cbn -[b4]. by rewrite Hd3, Hn3. }
        apply Forall_app. split; [exact Hppre|]. by apply Forall_app.
    + unfold kept. cbn -[b4]. by rewrite Hnum3, Hr3, Hm3, Hc3, Hnum, Hr, Hm, Hc.
    + cbn -[b4]. by rewrite Hg3, Hg.
    + cbn -[b4]. by rewrite Hrd3, Hrd.
    + rewrite !db_ops_app, Ho2, Hopre, Hopost. reflexivity.
    + cbn -[b4]. by rewrite Htk3, Htk.
    + cbn -[b4]. rewrite Htk3, Htk, Ht3, Ht. reflexivity.
  - destruct (batch_indices_overrun n entries_per_batch Hn He Hnot)
      as [rest ->].
    rewrite (run_ops_out (seqZ 0 n) rest n b2 Hin) by lia.
    fold call pay b3.
    eexists _, (pre ++ e2).
    split; [|split; [|split; [|split; [|split; [reflexivity|split; [|split]]]]]].
    + split; [|split].
      * rewrite Hl2, Hl1. by rewrite <- !app_assoc.
      * by apply Forall_app.
      * intros Hroom0. destruct (Hi2 (Hroom Hroom0)) as (Hd & Hb & Hinv & Hp).
        split; [lia|].
        split; [intros Hby; rewrite (Hb (Hbroom Hby)); lia|].
        split; [exact Hinv|]. by apply Forall_app.
    + unfold kept. by rewrite Hnum, Hr, Hm, Hc.
    + by rewrite Hg.
    + by rewrite Hrd.
    + rewrite !db_ops_app, Ho2, Hopre. reflexivity.
    + by rewrite Htk.
    + by rewrite Ht.
Qed.

End Chunk.

(** ** The batches of a chunk *)

Lemma foldl_invariant {A B} (P : A -> Prop) (f : A -> B -> A) (l : list B) :
  (forall a x, P a -> P (f a x)) -> forall a, P a -> P (foldl f a l).
Proof.
  intros Hf. induction l as [|x l IH]; intros a Ha; simpl; [done|].
  apply IH, Hf, Ha.
Qed.

Lemma length_gen_key (keys : list Z) (num : Z) (order : Order) (r : Random) :
  length (gen_key keys num order r).1 = length keys.
Proof.
  destruct order; simpl.
  - apply (foldl_invariant (fun ks => length ks = length keys)); [|done].
    intros ks i Hks. by rewrite length_insert.
  - apply (foldl_invariant (fun p : list Z * Random => length p.1 = length keys));
      [|done].
    intros [ks r0] i Hks. destruct (rand_next r0). simpl in *.
    by rewrite length_insert.
Qed.

Lemma length_gen_value (values : list Z) (num value_size : Z) (g : RandomGenerator) :
  length (gen_value values num value_size g).1 = length values.
Proof.
  apply (foldl_invariant (fun p : list Z * RandomGenerator =>
                            length p.1 = length values)); [|done].
  intros [vs g0] i Hvs. simpl in *. by rewrite length_insert.
Qed.

(** ** Chunks and workloads *)

Section Workloads.

Variable F : Flags.
Variable W : World.

(** One chunk of any kind, for a positive batch size. *)
Lemma chunk_of_full (k : kind) (order : Order)
  (value_size entries_per_batch n : Z) (b : Bench) :
  0 < n -> 0 < entries_per_batch ->
  exists b' values evs,
    length values = Z.to_nat n /\
    run_to b b' evs (Z.to_nat n) (workload_cost k value_size) /\
    kept b b' /\
    rand_ b' = (gen_key (fresh_array n) n order (rand_ b)).2 /\
    if decide (entries_per_batch | n) then
      chunk_of F W k order value_size entries_per_batch n b = Done b' /\
      db_ops evs
      = bracket (FLAGS_transaction F)
          (workload_call k (gen_key (fresh_array n) n order (rand_ b)).1
             values value_size <$> seqZ 0 n) /\
      ticks_ b' = S (S (ticks_ b)) /\
      op_total_time_ b' = round53 (op_total_time_ b + chunk_time W (ticks_ b))
    else
      chunk_of F W k order value_size entries_per_batch n b
      = Halt OutOfBounds b' /\
      db_ops evs
      = (if FLAGS_transaction F then [EBegin] else [])
        ++ (workload_call k (gen_key (fresh_array n) n order (rand_ b)).1
              values value_size <$> seqZ 0 n) /\
      ticks_ b' = S (ticks_ b) /\
      op_total_time_ b' = op_total_time_ b.
Proof.
  intros Hn He.
  assert (length (gen_key (fresh_array n) n order (rand_ b)).1 = Z.to_nat n)
    as Hklen by (rewrite length_gen_key; apply length_replicate).
  assert (length (gen_value (fresh_array n) n value_size (gen_ b)).1
          = Z.to_nat n)
    as Hvlen by (rewrite length_gen_value; apply length_replicate).
  destruct (gen_key (fresh_array n) n order (rand_ b)) as [keys r] eqn:Hkeys.
  destruct (gen_value (fresh_array n) n value_size (gen_ b))
    as [values g] eqn:Hvalues.
  cbn [fst snd] in *.
  set (b0 := match k with
             | KWrite => set_gen g (set_rand r b)
             | _ => set_rand r b
             end).
  assert (chunk_of F W k order value_size entries_per_batch n b
          = timed_ops F W (op_of k keys values value_size)
              entries_per_batch n b0) as ->.
  { unfold chunk_of, write_chunk, read_chunk, delete_chunk, b0.
    destruct k; rewrite Hkeys; cbn [rand_ gen_ set_rand]; rewrite ?Hvalues;
      reflexivity. }
  destruct (timed_ops_full k keys values value_size n Hklen Hvlen F W
              entries_per_batch b0 Hn He)
    as (b' & evs & (Hl & Hq & Hi) & Hk & _ & Hr & Hrest).
  assert (log_ b0 = log_ b /\ done_ b0 = done_ b /\ bytes_ b0 = bytes_ b /\
          next_report_ b0 = next_report_ b /\ kept b b0 /\ rand_ b0 = r /\
          ticks_ b0 = ticks_ b /\ op_total_time_ b0 = op_total_time_ b)
    as (E1 & E2 & E3 & E4 & E5 & E6 & E7 & E8)
    by (unfold b0, kept; destruct k; cbn; done).
  exists b', values, evs. split; [exact Hvlen|].
  split; [|split; [by apply (kept_trans _ b0)|split; [by rewrite Hr|]]].
  { split; [by rewrite Hl, E1|]. split; [exact Hq|].
    intros Hroom. rewrite <- E2, <- E3.
    destruct Hi as (Hd & Hb & Hrest0).
    { unfold counters_room, report_inv in *. by rewrite E2, E4. }
    split; [exact Hd|]. split; [|exact Hrest0].
    intros Hby. apply Hb. unfold bytes_room in *. by rewrite E3. }
  rewrite <- E7, <- E8. exact Hrest.
Qed.

(** The chunk loop of a workload of [count] entries. *)
Lemma run_chunks_outcome (k : kind) (order : Order)
  (value_size entries_per_batch count : Z) (b : Bench) :
  0 < entries_per_batch ->
  exists evs,
    outcome F W k order value_size entries_per_batch count [] [] b
      (run_chunks (chunk_of F W k order value_size entries_per_batch)
         (chunks count) b) evs /\
    message_ (reached
                (run_chunks (chunk_of F W k order value_size entries_per_batch)
                   (chunks count) b)) = message_ b.
Proof.
  intros He. rewrite chunks_at_most_one. unfold outcome.
  destruct (decide (0 < count)) as [Hpos|Hneg].
  - set (n := Z.min count MAXNUMPERTIME).
    assert (0 < n) as Hn by (unfold n, MAXNUMPERTIME; lia).
    cbn [run_chunks]. rewrite bind_done.
    destruct (chunk_of_full k order value_size entries_per_batch n b Hn He)
      as (b' & values & evs & Hlen & (Hl & Hq & Hi) & (Hnum & Hr & Hm & Hc)
          & Hrand & Hrest).
    exists evs.
    assert (reached (chunk_of F W k order value_size entries_per_batch n b)
            = b') as Hreach.
    { destruct (decide (entries_per_batch | n)); by destruct Hrest as [-> _]. }
    rewrite Hreach. split; [|exact Hm].
    split; [exact Hl|]. split; [exact Hnum|]. split; [exact Hr|].
    split; [exact Hc|]. split; [exact Hq|].
    exists values. split; [exact Hlen|]. split; [exact Hrand|].
    split.
    { intros Hroom. rewrite <- (Z2Nat.id n) by lia.
      rewrite <- (Z2Nat.id n) in Hroom by lia.
      destruct (Hi Hroom) as (Hd & Hb & _ & Hp). done. }
    rewrite app_nil_r. cbn [app]. exact Hrest.
  - exists []. cbn [run_chunks reached]. rewrite app_nil_r.
    repeat split; constructor.
Qed.

(** Engine calls before a workload, and after it if it returns, that leave
    the counters. *)
Lemma outcome_wrap (k : kind) (order : Order)
  (value_size entries_per_batch count : Z) (pre0 post0 pre post : list event)
  (fin : Bench -> Bench) (b0 b1 : Bench) (r : result Bench)
  (evs : list event) :
  emits b0 b1 pre -> Forall (fun e => is_db_op e = true) pre ->
  outcome F W k order value_size entries_per_batch count pre0 post0 b1 r evs ->
  (forall b, emits b (fin b) post) ->
  Forall (fun e => is_db_op e = true) post ->
  outcome F W k order value_size entries_per_batch count
    (pre ++ pre0) (post0 ++ post) b0 (b ← r; Done (fin b))
    (pre ++ evs ++ match ending r with None => post | Some _ => [] end).
Proof.
  intros (Hl1 & Hn1 & Hr1 & Ht1 & Hb1 & Hg1 & Hrd1 & Hd1 & Hnr1 & Hc1 & Htk1)
    Hpre Hout Hfin Hpost.
  assert (forall n, counters_room n b0 -> counters_room n b1) as Hroom.
  { intros n. unfold counters_room, report_inv. by rewrite Hd1, Hnr1. }
  assert (forall c n, bytes_room c n b0 -> bytes_room c n b1) as Hbroom.
  { intros c n. unfold bytes_room. by rewrite Hb1. }
  unfold outcome in *. rewrite <- Hrd1, <- Htk1, <- Ht1, <- Hd1, <- Hb1.
  destruct r as [b2|h b2]; cbn [mbind result_bind reached ending] in *;
    destruct Hout as (Hl & Hn & Hr & Hc & Hq & Hrest).
  - destruct (Hfin b2) as (Hl3 & Hn3 & Hr3 & Ht3 & Hb3 & Hg3 & Hrd3 & Hd3
                           & Hnr3 & Hc3 & Htk3).
    split; [by rewrite Hl3, Hl, Hl1, <- !app_assoc|].
    split; [congruence|]. split; [congruence|]. split; [congruence|].
    split.
    { apply Forall_app. split; [by apply db_op_no_notice|].
      apply Forall_app. split; [done|by apply db_op_no_notice]. }
    destruct (decide (0 < count)) as [Hpos|Hneg].
    + destruct Hrest as (values & Hlen & Hrand & Hcount & Hrest).
      exists values. split; [exact Hlen|]. split; [congruence|].
      split.
      { intros Hroom0. destruct (Hcount (Hroom _ Hroom0)) as (Hd & Hb & Hp).
        split; [congruence|].
        split; [intros Hby; rewrite Hb3; by apply Hb, Hbroom|].
        apply Forall_app. split; [by apply db_op_progress_ok|].
        apply Forall_app. split; [done|by apply db_op_progress_ok]. }
      destruct (decide (entries_per_batch | Z.min count MAXNUMPERTIME));
        destruct Hrest as (Heq & Hops & Htk & Htime); [|discriminate].
      split; [reflexivity|].
      split.
      { rewrite !db_ops_app, (db_ops_all pre Hpre), (db_ops_all post Hpost).
        rewrite Hops. by rewrite <- !app_assoc. }
      split; congruence.
    + destruct Hrest as (_ & Hops & Hd & Hb & Hrand & Htk & Htime & Hp).
      split; [reflexivity|].
      split.
      { rewrite !db_ops_app, (db_ops_all pre Hpre), (db_ops_all post Hpost).
        rewrite Hops. by rewrite <- !app_assoc. }
      do 5 (split; [congruence|]).
      apply Forall_app. split; [by apply db_op_progress_ok|].
      apply Forall_app. split; [done|by apply db_op_progress_ok].
  - rewrite app_nil_r.
    split; [by rewrite Hl, Hl1, <- !app_assoc|].
    split; [congruence|]. split; [congruence|]. split; [congruence|].
    split; [apply Forall_app; split; [by apply db_op_no_notice|done]|].
    destruct (decide (0 < count)) as [Hpos|Hneg];
      [|destruct Hrest as (Heq & _); discriminate].
    destruct Hrest as (values & Hlen & Hrand & Hcount & Hrest).
    exists values. split; [exact Hlen|]. split; [congruence|].
    split.
    { intros Hroom0. destruct (Hcount (Hroom _ Hroom0)) as (Hd & Hb & Hp).
      split; [congruence|].
      split; [intros Hby; by apply Hb, Hbroom|].
      apply Forall_app. split; [by apply db_op_progress_ok|done]. }
    destruct (decide (entries_per_batch | Z.min count MAXNUMPERTIME));
      destruct Hrest as (Heq & Hops & Htk & Htime); [discriminate|].
    split; [exact Heq|].
    split.
    { rewrite !db_ops_app, (db_ops_all pre Hpre), Hops.
      by rewrite <- !app_assoc. }
    split; congruence.
Qed.

Lemma outcome_around (k : kind) (order : Order)
  (value_size entries_per_batch count : Z) (pre post : list event)
  (fin : Bench -> Bench) (b0 b1 : Bench) (r : result Bench)
  (evs : list event) :
  emits b0 b1 pre -> Forall (fun e => is_db_op e = true) pre ->
  outcome F W k order value_size entries_per_batch count [] [] b1 r evs ->
  (forall b, emits b (fin b) post) ->
  Forall (fun e => is_db_op e = true) post ->
  outcome F W k order value_size entries_per_batch count pre post b0
    (b ← r; Done (fin b))
    (pre ++ evs ++ match ending r with None => post | Some _ => [] end).
Proof.
  intros H1 H2 H3 H4 H5.
  pose proof (outcome_wrap k order value_size entries_per_batch count
                [] [] pre post fin b0 b1 r evs H1 H2 H3 H4 H5) as Hw.
  by rewrite app_nil_r in Hw.
Qed.

Lemma reached_fin (fin : Bench -> Bench) (r : result Bench) :
  (forall b, message_ (fin b) = message_ b) ->
  message_ (reached (b ← r; Done (fin b))) = message_ (reached r).
Proof. intros H. destruct r; cbn; [apply H|reflexivity]. Qed.

Lemma benchmark_write_outcome (write_sync : bool) (order : Order)
  (num_entries value_size entries_per_batch : Z) (b : Bench) :
  0 < entries_per_batch ->
  exists evs,
    outcome F W KWrite order value_size entries_per_batch num_entries
      [EExec (sync_stmt write_sync); EPrepare replace_str;
       EPrepare begin_trans_str; EPrepare end_trans_str]
      [EFinalize replace_str; EFinalize begin_trans_str;
       EFinalize end_trans_str] b
      (benchmark_write F W write_sync order num_entries value_size
         entries_per_batch b) evs /\
    message_ (reached (benchmark_write F W write_sync order num_entries
                         value_size entries_per_batch b))
    = if bool_decide (num_entries <> num_ b)
      then "(" +:+ pretty num_entries +:+ " ops)"
      else message_ b.
Proof.
  intros He. unfold benchmark_write.
  set (b0 := if bool_decide (num_entries <> num_ b) then _ else b).
  set (b1 := emit (EPrepare end_trans_str) _).
  destruct (run_chunks_outcome KWrite order value_size entries_per_batch
              num_entries b1 He) as (evs & Hout & Hm).
  change (chunk_of F W KWrite order value_size entries_per_batch)
    with (write_chunk F W order value_size entries_per_batch) in Hout, Hm.
  set (r := run_chunks _ _ b1) in *.
  eexists. split.
  - eapply (outcome_around _ _ _ _ _ _ _
              (fun b => emit (EFinalize end_trans_str)
                          (emit (EFinalize begin_trans_str)
                             (emit (EFinalize replace_str) b))) b b1 r evs);
      [| |exact Hout| |].
    + unfold emits, b1, b0. destruct (bool_decide _); cbn;
        by rewrite <- !app_assoc.
    + by repeat constructor.
    + intros b2. unfold emits. cbn. by rewrite <- !app_assoc.
    + by repeat constructor.
  - rewrite (reached_fin _ r) by done. rewrite Hm. unfold b1, b0.
    by destruct (bool_decide _).
Qed.

Lemma benchmark_read_outcome (order : Order)
  (value_size entries_per_batch : Z) (b : Bench) :
  0 < entries_per_batch ->
  exists evs,
    outcome F W KRead order value_size entries_per_batch (reads_ b)
      [EPrepare begin_trans_str; EPrepare end_trans_str; EPrepare read_str]
      [EFinalize read_str; EFinalize begin_trans_str;
       EFinalize end_trans_str] b
      (benchmark_read F W order entries_per_batch b) evs /\
    message_ (reached (benchmark_read F W order entries_per_batch b))
    = message_ b.
Proof.
  intros He. unfold benchmark_read.
  set (b1 := emit (EPrepare read_str) _).
  destruct (run_chunks_outcome KRead order value_size entries_per_batch
              (reads_ b) b1 He) as (evs & Hout & Hm).
  change (chunk_of F W KRead order value_size entries_per_batch)
    with (read_chunk F W order entries_per_batch) in Hout, Hm.
  change (reads_ b1) with (reads_ b).
  set (r := run_chunks _ _ b1) in *.
  eexists. split.
  - eapply (outcome_around _ _ _ _ _ _ _
              (fun b => emit (EFinalize end_trans_str)
                          (emit (EFinalize begin_trans_str)
                             (emit (EFinalize read_str) b))) b b1 r evs);
      [| |exact Hout| |].
    + unfold emits, b1. cbn. by rewrite <- !app_assoc.
    + by repeat constructor.
    + intros b2. unfold emits. cbn. by rewrite <- !app_assoc.
    + by repeat constructor.
  - rewrite (reached_fin _ r) by done. rewrite Hm. reflexivity.
Qed.

Lemma benchmark_delete_outcome (write_sync : bool) (order : Order)
  (value_size entries_per_batch : Z) (b : Bench) :
  0 < entries_per_batch ->
  exists evs,
    outcome F W KDelete order value_size entries_per_batch (num_ b)
      [EExec (sync_stmt write_sync); EPrepare begin_trans_str;
       EPrepare end_trans_str; EPrepare delete_str]
      [EFinalize delete_str; EFinalize begin_trans_str;
       EFinalize end_trans_str] b
      (benchmark_delete F W write_sync order entries_per_batch b) evs /\
    message_ (reached (benchmark_delete F W write_sync order
                         entries_per_batch b))
    = message_ b.
Proof.
  intros He. unfold benchmark_delete.
  set (b1 := emit (EPrepare delete_str) _).
  destruct (run_chunks_outcome KDelete order value_size entries_per_batch
              (num_ b) b1 He) as (evs & Hout & Hm).
  change (chunk_of F W KDelete order value_size entries_per_batch)
    with (delete_chunk F W order entries_per_batch) in Hout, Hm.
  change (num_ b1) with (num_ b).
  set (r := run_chunks _ _ b1) in *.
  eexists. split.
  - eapply (outcome_around _ _ _ _ _ _ _
              (fun b => emit (EFinalize end_trans_str)
                          (emit (EFinalize begin_trans_str)
                             (emit (EFinalize delete_str) b))) b b1 r evs);
      [| |exact Hout| |].
    + unfold emits, b1. cbn. by rewrite <- !app_assoc.
    + by repeat constructor.
    + intros b2. unfold emits. cbn. by rewrite <- !app_assoc.
    + by repeat constructor.
  - rewrite (reached_fin _ r) by done. rewrite Hm. reflexivity.
Qed.

End Workloads.

(** ** The table of workloads *)

Lemma run_workload_known (F : Flags) (W : World) (name : string)
  (w : workload) (b : Bench) :
  lookup_workload name = Some w ->
  run_workload F W name b = run_described F W w b.
Proof.
  unfold run_workload, lookup_workload, workload_table. cbn [lookup_row].
  repeat (match goal with
          | |- context [String.eqb name ?s] => destruct (String.eqb name s)
          end; [by intros [= <-]|]).
  discriminate.
Qed.

Lemma run_workload_unknown (F : Flags) (W : World) (name : string)
  (b : Bench) :
  lookup_workload name = None ->
  run_workload F W name b
  = Done (false, if negb (String.eqb name "") then emit (EWarn name) b else b).
Proof.
  unfold run_workload, lookup_workload, workload_table. cbn [lookup_row].
  repeat (match goal with
          | |- context [String.eqb name ?s] => destruct (String.eqb name s)
          end; [discriminate|]).
  reflexivity.
Qed.

(** The rows of the table: a positive batch size, and one entry per batch
    but for write workloads. *)
Lemma lookup_row_batch (name : string) (w : workload) :
  lookup_workload name = Some w ->
  0 < w_batch w /\ (w_batch w = 1 \/ w_kind w = KWrite /\ w_scaled w = false).
Proof.
  unfold lookup_workload, workload_table. cbn [lookup_row].
  repeat (match goal with
          | |- context [String.eqb name ?s] => destruct (String.eqb name s)
          end; [intros [= <-]; cbn; split; [lia|auto]|]).
  discriminate.
Qed.

Lemma lookup_workload_empty : lookup_workload "" = None.
Proof. reflexivity. Qed.

Lemma if_create_database_unknown (name : string) (b : Bench) :
  lookup_workload name = None -> if_create_database name b = (false, b).
Proof.
  intros Hw. unfold if_create_database.
  rewrite bool_decide_false; [reflexivity|]. intros Hin.
  repeat (apply elem_of_cons in Hin as [->|Hin]; [by vm_compute in Hw|]).
  by apply elem_of_nil in Hin.
Qed.

Section Rows.

Variable F : Flags.
Variable W : World.

Lemma emits_wal_checkpoint (b : Bench) :
  emits b (wal_checkpoint F b)
    (if FLAGS_WAL_enabled F then [ECheckpoint] else []).
Proof.
  unfold wal_checkpoint. destruct (FLAGS_WAL_enabled F);
    [apply emits_emit|apply emits_refl].
Qed.

(** A workload that ends with the checkpoint. *)
Lemma outcome_checkpoint (k : kind) (order : Order)
  (value_size entries_per_batch count : Z) (pre post : list event)
  (b : Bench) (r : result Bench) (evs : list event) :
  outcome F W k order value_size entries_per_batch count pre post b r evs ->
  outcome F W k order value_size entries_per_batch count pre
    (post ++ (if FLAGS_WAL_enabled F then [ECheckpoint] else []))
    b (b' ← r; Done (wal_checkpoint F b'))
    (evs ++ match ending r with
            | None => if FLAGS_WAL_enabled F then [ECheckpoint] else []
            | Some _ => []
            end).
Proof.
  intros Hout.
  apply (outcome_wrap F W k order value_size entries_per_batch count
           pre post [] _ (wal_checkpoint F) b b r evs).
  - apply emits_refl.
  - constructor.
  - exact Hout.
  - apply emits_wal_checkpoint.
  - destruct (FLAGS_WAL_enabled F); by repeat constructor.
Qed.

(** A workload whose batch size divides its chunk returns. *)
Lemma outcome_done (k : kind) (order : Order)
  (value_size entries_per_batch count : Z) (pre post : list event)
  (b : Bench) (r : result Bench) (evs : list event) :
  outcome F W k order value_size entries_per_batch count pre post b r evs ->
  fits entries_per_batch count -> r = Done (reached r).
Proof.
  intros (_ & _ & _ & _ & _ & Hrest) Hfits.
  destruct (decide (0 < count)) as [Hpos|Hneg]; [|by destruct Hrest].
  destruct Hrest as (values & _ & _ & _ & Hrest).
  destruct Hfits as [Hle|Hdiv]; [lia|].
  rewrite decide_True in Hrest by exact Hdiv. by destruct Hrest.
Qed.

(** readrand100K: the read count is scaled for the workload and put back. *)
Lemma outcome_set_reads (k : kind) (order : Order)
  (value_size entries_per_batch count q : Z) (pre post : list event)
  (b b' : Bench) (evs : list event) :
  outcome F W k order value_size entries_per_batch count pre post
    (set_reads q b) (Done b') evs ->
  outcome F W k order value_size entries_per_batch count pre post
    b (Done (set_reads (reads_ b) b')) evs.
Proof.
  unfold outcome. cbn. intros (Hl & Hn & Hr & Hc & Hq & Hrest).
  split; [exact Hl|]. split; [exact Hn|]. split; [reflexivity|].
  split; [exact Hc|]. split; [exact Hq|].
  destruct (decide (0 < count)).
  - destruct Hrest as (values & Hlen & Hrand & Hcount & Hrest).
    exists values. split; [exact Hlen|]. split; [exact Hrand|].
    split; [exact Hcount|].
    destruct (decide (entries_per_batch | Z.min count MAXNUMPERTIME));
      destruct Hrest as (Heq & Hrest); [|discriminate].
    split; [reflexivity|exact Hrest].
  - destruct Hrest as (_ & Hrest). split; [reflexivity|exact Hrest].
Qed.

Lemma fits_one (count : Z) : fits 1 count.
Proof. right. apply Z.divide_1_l. Qed.

(** A row of the table, run. *)
Lemma run_described_outcome (name : string) (w : workload) (b : Bench) :
  lookup_workload name = Some w ->
  exists r evs,
    run_described F W w b = (b' ← r; Done (true, b')) /\
    outcome F W (w_kind w) (w_order w) (workload_value_size F w) (w_batch w)
      (workload_count w b) (workload_prelude w) (workload_finale F w)
      b r evs /\
    message_ (reached r)
    = match w_kind w with
      | KWrite =>
          if bool_decide (workload_count w b <> num_ b)
          then "(" +:+ pretty (workload_count w b) +:+ " ops)"
          else message_ b
      | _ => message_ b
      end.
Proof.
  intros Hw. destruct (lookup_row_batch name w Hw) as [He Hone].
  unfold run_described, workload_prelude, workload_finale, workload_count.
  destruct (w_kind w).
  - destruct (benchmark_write_outcome F W (w_sync w) (w_order w)
                (if w_scaled w then num_ b ÷ 1000 else num_ b)
                (workload_value_size F w) (w_batch w) b He)
      as (evs & Hout & Hm).
    set (r := benchmark_write _ _ _ _ _ _ _ _) in *.
    exists (b' ← r; Done (wal_checkpoint F b')). eexists.
    split; [by destruct r|].
    split; [apply outcome_checkpoint, Hout|].
    rewrite <- Hm. destruct r; cbn; [|reflexivity].
    unfold wal_checkpoint. by destruct (FLAGS_WAL_enabled F).
  - destruct Hone as [Hone|[? _]]; [|discriminate]. rewrite Hone in *.
    destruct (w_scaled w).
    + destruct (benchmark_read_outcome F W (w_order w)
                  (workload_value_size F w) 1
                  (set_reads (reads_ b ÷ 1000) b) He)
        as (evs & Hout & Hm).
      pose proof (outcome_done _ _ _ _ _ _ _ _ _ _ Hout (fits_one _)) as Hdone.
      set (r := benchmark_read _ _ _ _ _) in *. rewrite Hdone in Hout.
      exists (Done (set_reads (reads_ b) (reached r))), evs.
      split; [by rewrite Hdone|].
      split; [by apply outcome_set_reads with (q := reads_ b ÷ 1000)|].
      cbn. exact Hm.
    + destruct (benchmark_read_outcome F W (w_order w)
                  (workload_value_size F w) 1 b He)
        as (evs & Hout & Hm).
      set (r := benchmark_read _ _ _ _ _) in *.
      exists r, evs. split; [by destruct r|]. split; [exact Hout|exact Hm].
  - destruct (benchmark_delete_outcome F W (w_sync w) (w_order w)
                (workload_value_size F w) (w_batch w) b He)
      as (evs & Hout & Hm).
    set (r := benchmark_delete _ _ _ _ _ _) in *.
    exists (b' ← r; Done (wal_checkpoint F b')). eexists.
    split; [by destruct r|].
    split; [apply outcome_checkpoint, Hout|].
    rewrite <- Hm. destruct r; cbn; [|reflexivity].
    unfold wal_checkpoint. by destruct (FLAGS_WAL_enabled F).
Qed.

End Rows.

(** ** One name of the list *)

Lemma stop_effect (W : World) (name : string) (b : Bench) :
  log_ (stop W name b)
    = log_ b ++ [ESummary name (op_total_time_ b) (Z.max 1 (done_ b))] /\
  done_ (stop W name b) = Z.max 1 (done_ b) /\
  bytes_ (stop W name b) = bytes_ b /\
  op_total_time_ (stop W name b) = op_total_time_ b /\
  (bytes_ b <= 0 -> message_ (stop W name b) = message_ b) /\
  num_ (stop W name b) = num_ b /\ reads_ (stop W name b) = reads_ b /\
  rand_ (stop W name b) = rand_ b /\ created_ (stop W name b) = created_ b.
Proof.
  unfold stop.
  destruct (Z.ltb_spec (done_ b) 1) as [Hd|Hd]; cbn;
    (destruct (Z.ltb_spec 0 (bytes_ b)) as [Hb|Hb];
     [destruct (String.eqb (message_ b) "")|]); cbn;
    repeat split; try lia; try reflexivity;
    do 3 f_equal; lia.
Qed.

Section Names.

Variable F : Flags.
Variable W : World.

Lemma run_name_step (name : string) (b : Bench) :
  exists b0,
    started b b0 (if (if_create_database name b).1
                  then [EExec create_stmt] else []) /\
    created_ b0 = (if_create_database name b).1 || created_ b /\
    run_name F W name b
    = match run_workload F W name b0 with
      | Done (known, b') => Done (if known then stop W name b' else b')
      | Halt h b' => Halt h b'
      end.
Proof.
  unfold run_name, if_create_database.
  destruct (bool_decide _ && negb (created_ b)); cbn;
    eexists; (split; [|split; [|reflexivity]]); unfold started; cbn;
    by rewrite ?app_nil_r.
Qed.

(** A name of the table: the workload starts with fresh counters, runs and,
    if it returns, is summed up by [stop]. *)
Lemma run_name_known (name : string) (w : workload) (b : Bench) :
  lookup_workload name = Some w ->
  exists b0 r evs,
    started b b0 (if (if_create_database name b).1
                  then [EExec create_stmt] else []) /\
    outcome F W (w_kind w) (w_order w) (workload_value_size F w) (w_batch w)
      (workload_count w b) (workload_prelude w) (workload_finale F w)
      b0 r evs /\
    message_ (reached r)
    = match w_kind w with
      | KWrite =>
          if bool_decide (workload_count w b <> num_ b)
          then "(" +:+ pretty (workload_count w b) +:+ " ops)"
          else ""
      | _ => ""
      end /\
    run_name F W name b = (b' ← r; Done (stop W name b')).
Proof.
  intros Hw. destruct (run_name_step name b) as (b0 & Hs & _ & Hrun).
  destruct (run_described_outcome F W name w b0 Hw)
    as (r & evs & Hd & Hout & Hm).
  pose proof Hs as (_ & Hn & Hr & _ & _ & _ & _ & _ & _ & _ & Hm0).
  assert (workload_count w b0 = workload_count w b) as Hc
    by (unfold workload_count; by rewrite Hn, Hr).
  rewrite Hc in Hout, Hm. rewrite Hn, Hm0 in Hm.
  exists b0, r, evs. split; [exact Hs|]. split; [exact Hout|].
  split; [exact Hm|].
  rewrite Hrun, (run_workload_known F W name w b0 Hw), Hd. by destruct r.
Qed.

(** Any other name: nothing but the warning, and not even that for the
    empty name. *)
Lemma run_name_unknown (name : string) (b : Bench) :
  lookup_workload name = None ->
  exists b',
    run_name F W name b = Done b' /\
    log_ b' = log_ b ++ (if decide (name = "") then [] else [EWarn name]) /\
    num_ b' = num_ b /\ reads_ b' = reads_ b /\ rand_ b' = rand_ b /\
    gen_ b' = gen_ b /\ ticks_ b' = ticks_ b /\ created_ b' = created_ b.
Proof.
  intros Hw. destruct (run_name_step name b) as (b0 & Hs & Hc & Hrun).
  rewrite (if_create_database_unknown name b Hw) in Hs, Hc. cbn in Hs, Hc.
  destruct Hs as (Hl & Hn & Hr & Hrd & Hg & Ht & _).
  rewrite app_nil_r in Hl.
  rewrite Hrun, (run_workload_unknown F W name b0 Hw).
  eexists. split; [reflexivity|].
  destruct (String.eqb_spec name "") as [->|Hne]; cbn.
  - rewrite decide_True by done. rewrite app_nil_r. done.
  - rewrite decide_False by done. rewrite Hl. done.
Qed.

End Names.

(** ** Workloads that return *)

Lemma array_at_seqZ (a : list Z) (n : Z) :
  length a = Z.to_nat n -> array_at a <$> seqZ 0 n = a.
Proof.
  intros Hlen. apply list_eq. intros i. rewrite list_lookup_fmap.
  destruct (decide (i < length a)%nat) as [Hlt|Hge].
  - rewrite lookup_seqZ_lt by lia. rewrite Z.add_0_l.
    change (Some (array_at a (Z.of_nat i)) = a !! i).
    destruct (lookup_lt_is_Some_2 a i Hlt) as [x Hx].
    unfold array_at, array_get. rewrite Nat2Z.id.
    destruct (Z.ltb_spec (Z.of_nat i) 0); [lia|]. by rewrite Hx.
  - rewrite lookup_seqZ_ge by lia. cbn. symmetry. apply lookup_ge_None. lia.
Qed.

(** A workload whose batch size divides its chunk: the engine calls of the
    chunk are those of the batch loops, all inside the batches. *)
Lemma outcome_returns (F : Flags) (W : World) (k : kind) (order : Order)
  (value_size entries_per_batch count : Z) (pre post : list event)
  (b : Bench) (r : result Bench) (evs : list event) :
  0 < entries_per_batch ->
  outcome F W k order value_size entries_per_batch count pre post b r evs ->
  fits entries_per_batch count ->
  exists opss,
    r = Done (reached r) /\
    steps b (reached r) (pre ++ concat opss ++ post) /\
    Forall2 (match k with
             | KWrite => write_chunk_calls F value_size entries_per_batch
             | KRead => read_chunk_calls F entries_per_batch
             | KDelete => delete_chunk_calls F entries_per_batch
             end) (chunks count) opss.
Proof.
  intros He Hout Hfits.
  pose proof (outcome_done _ _ _ _ _ _ _ _ _ _ _ _ Hout Hfits) as Hdone.
  destruct Hout as (Hl & _ & _ & _ & _ & Hrest).
  rewrite chunks_at_most_one.
  destruct (decide (0 < count)) as [Hpos|Hneg].
  - set (n := Z.min count MAXNUMPERTIME) in *.
    assert (0 < n) as Hn by (unfold n, MAXNUMPERTIME; lia).
    destruct Hrest as (values & Hlen & _ & _ & Hrest).
    destruct Hfits as [Hle|Hdiv]; [lia|]. fold n in Hdiv.
    rewrite decide_True in Hrest by exact Hdiv.
    destruct Hrest as (_ & Hops & _).
    set (keys := (gen_key (fresh_array n) n order (rand_ b)).1) in *.
    assert (length keys = Z.to_nat n) as Hklen
      by (unfold keys; rewrite length_gen_key; apply length_replicate).
    assert (Forall (fun i => 0 <= i < n) (seqZ 0 n)) as Hin.
    { apply Forall_forall. intros i Hi. apply elem_of_seqZ in Hi. lia. }
    pose proof (batch_indices_divides n entries_per_batch Hn He Hdiv) as Hidxs.
    eexists [_]. split; [exact Hdone|]. split.
    { exists evs. split; [exact Hl|]. rewrite Hops. cbn [concat].
      by rewrite app_nil_r. }
    constructor; [|constructor].
    destruct k.
    + by exists keys, values, (seqZ 0 n).
    + by exists keys, (seqZ 0 n).
    + by exists keys, (seqZ 0 n).
  - destruct Hrest as (_ & Hops & _).
    exists []. split; [exact Hdone|]. split; [|constructor].
    exists evs. split; [exact Hl|]. by rewrite Hops.
Qed.

(** What [stop] adds to a workload: the summary, if the workload returns. *)
Lemma stop_after (W : World) (name : string) (r : result Bench) :
  let r' := b' ← r; Done (stop W name b') in
  ending r' = ending r /\
  num_ (reached r') = num_ (reached r) /\
  reads_ (reached r') = reads_ (reached r) /\
  rand_ (reached r') = rand_ (reached r) /\
  created_ (reached r') = created_ (reached r) /\
  log_ (reached r')
  = log_ (reached r)
    ++ match ending r with
       | None => [ESummary name (op_total_time_ (reached r))
                    (Z.max 1 (done_ (reached r)))]
       | Some _ => []
       end.
Proof.
  destruct r as [b|h b]; cbn [mbind result_bind reached ending].
  - destruct (stop_effect W name b)
      as (Hl & _ & _ & _ & _ & Hn & Hr & Hrd & Hc). done.
  - by rewrite app_nil_r.
Qed.

(** ** The counts of a run *)

Section Counts.

Variable F : Flags.
Variable W : World.

Lemma run_name_counts (name : string) (b : Bench) :
  counts_kept b (reached (run_name F W name b)).
Proof.
  destruct (lookup_workload name) as [w|] eqn:Hw.
  - destruct (run_name_known F W name w b Hw)
      as (b0 & r & evs & Hs & Hout & _ & ->).
    destruct (stop_after W name r) as (_ & Hn & Hr & _).
    destruct Hs as (_ & Hn0 & Hr0 & _).
    destruct Hout as (_ & Hn1 & Hr1 & _).
    split; congruence.
  - destruct (run_name_unknown F W name b Hw) as (b' & -> & _ & Hn & Hr & _).
    by split.
Qed.

Lemma run_names_counts (names : list string) : forall b,
  counts_kept b (reached (run_names F W names b)).
Proof.
  induction names as [|name names IH]; intros b; [by split|].
  cbn [run_names]. pose proof (run_name_counts name b) as [Hn Hr].
  destruct (run_name F W name b) as [b1|h b1];
    cbn [mbind result_bind reached] in *; [|by split].
  destruct (IH b1) as [Hn' Hr']. split; congruence.
Qed.

End Counts.

(** ** The read count of [readrand100K] *)

(** C4: [readrand100K] runs [benchmark_read] with the read count divided by
    1000, so that its chunks are those of that quotient, and puts the read
    count back afterwards: the workload returns with the read count it was
    started with, the names after it are run from that state, and whatever
    state they reach has that read count too.  With 100,000 reads
    configured the workload has one chunk of 100 reads, at the indices 0 to
    99. *)
Theorem readrand100K_read_count (F : Flags) (W : World) (names : list string)
  (b : Bench) :
  (exists mid opss,
     benchmark_read F W RANDOM 1 (set_reads (reads_ b ÷ 1000) b) = Done mid /\
     steps (set_reads (reads_ b ÷ 1000) b) mid
       ([EPrepare begin_trans_str; EPrepare end_trans_str; EPrepare read_str]
        ++ concat opss
        ++ [EFinalize read_str; EFinalize begin_trans_str;
            EFinalize end_trans_str]) /\
     Forall2 (read_chunk_calls F 1) (chunks (reads_ b ÷ 1000)) opss /\
     run_workload F W "readrand100K" b = Done (true, set_reads (reads_ b) mid) /\
     reads_ (set_reads (reads_ b) mid) = reads_ b) /\
  (exists b', run_name F W "readrand100K" b = Done b' /\ reads_ b' = reads_ b /\
              run_names F W ("readrand100K" :: names) b
              = run_names F W names b' /\
              reads_ (reached (run_names F W names b')) = reads_ b) /\
  reads_ (reached (run_names F W ("readrand100K" :: names) b)) = reads_ b /\
  (chunks (100000 ÷ 1000) = [100] /\ batch_indices 100 1 = Some (seqZ 0 100)).
Proof.
  assert (exists mid opss,
     benchmark_read F W RANDOM 1 (set_reads (reads_ b ÷ 1000) b) = Done mid /\
     steps (set_reads (reads_ b ÷ 1000) b) mid
       ([EPrepare begin_trans_str; EPrepare end_trans_str; EPrepare read_str]
        ++ concat opss
        ++ [EFinalize read_str; EFinalize begin_trans_str;
            EFinalize end_trans_str]) /\
     Forall2 (read_chunk_calls F 1) (chunks (reads_ b ÷ 1000)) opss) as Hread.
  { destruct (benchmark_read_outcome F W RANDOM 0 1
                (set_reads (reads_ b ÷ 1000) b) ltac:(lia)) as (evs & Hout & _).
    destruct (outcome_returns _ _ _ _ _ _ _ _ _ _ _ _ Z.lt_0_1 Hout
                (fits_one _)) as (opss & Hdone & Hs & HQ).
    by exists (reached (benchmark_read F W RANDOM 1
                          (set_reads (reads_ b ÷ 1000) b))), opss. }
  split; [|split; [|split; [|split; reflexivity]]].
  - destruct Hread as (mid & opss & Hrun & Hs & HQ).
    exists mid, opss. split; [exact Hrun|]. split; [exact Hs|].
    split; [exact HQ|]. split; [|reflexivity].
    unfold run_workload. cbn -[benchmark_read Z.quot]. rewrite Hrun. reflexivity.
  - pose proof (run_name_counts F W "readrand100K" b) as [_ Hr].
    destruct (run_name_known F W "readrand100K" _ b eq_refl)
      as (b0 & r & evs & _ & Hout & _ & Hrun).
    rewrite (outcome_done _ _ _ _ _ _ _ _ _ _ _ _ Hout (fits_one _)) in Hrun.
    cbn [mbind result_bind] in Hrun. rewrite Hrun in Hr. cbn [reached] in Hr.
    eexists. split; [exact Hrun|]. split; [exact Hr|].
    split; [cbn [run_names]; by rewrite Hrun|].
    rewrite <- Hr. apply run_names_counts.
  - apply run_names_counts.
Qed.

(** ** Unknown names *)

Lemma eqb_unknown (name known : string) :
  known ∈ known_names -> name ∉ known_names -> String.eqb name known = false.
Proof. intros Hin Hnot. apply String.eqb_neq. intros ->. by apply Hnot. Qed.

(** C5: for a name that is not empty and has no branch in [benchmark_run],
    the turn of the loop adds the warning with the name to the log and
    nothing else: no call into the engine, no summary; operation count and
    time stay at zero; and the loop goes on with the names that follow. *)
Theorem unknown_benchmark_skipped (F : Flags) (W : World) (name : string)
  (names : list string) (b : Bench) :
  name ∉ known_names -> name <> "" ->
  run_workload F W name b = Done (false, emit (EWarn name) b) /\
  exists b', run_name F W name b = Done b' /\
    log_ b' = log_ b ++ [EWarn name] /\
    db_ops (log_ b') = db_ops (log_ b) /\
    List.filter is_summary (log_ b') = List.filter is_summary (log_ b) /\
    done_ b' = 0 /\ op_total_time_ b' = 0 /\
    run_names F W (name :: names) b = run_names F W names b'.
Proof.
  intros Hnot Hne.
  assert (forall b0, run_workload F W name b0
                     = Done (false, emit (EWarn name) b0)) as Hskip.
  { intros b0. unfold run_workload.
    rewrite !(eqb_unknown name) by (done || by apply (bool_decide_unpack _)).
    apply String.eqb_neq in Hne. rewrite Hne. reflexivity. }
  split; [apply Hskip|].
  assert (run_name F W name b
          = Done (emit (EWarn name) (start (set_bytes 0 b)))) as Hrun.
  { unfold run_name, if_create_database.
    rewrite bool_decide_false.
    2: { intros Hin. apply Hnot. unfold known_names.
         repeat (apply elem_of_cons in Hin as [->|Hin];
                 [by apply (bool_decide_unpack _)|]).
         by apply elem_of_nil in Hin. }
    cbn [andb]. rewrite Hskip. reflexivity. }
  eexists. split; [exact Hrun|].
  split; [reflexivity|]. split.
  { cbn [log_ emit start set_bytes set_message set_done set_next_report
           set_op_total_time]. rewrite db_ops_app. cbn. apply app_nil_r. }
  split.
  { cbn [log_ emit start set_bytes set_message set_done set_next_report
           set_op_total_time]. rewrite List.filter_app. cbn. apply app_nil_r. }
  split; [reflexivity|]. split; [reflexivity|].
  cbn [run_names]. rewrite Hrun. reflexivity.
Qed.

(** The name of the spec's example. *)
Lemma unknown_benchmark_skipped_witness :
  run_workload init example_world "bogus" (benchmark_init init example_world)
    = Done (false, emit (EWarn "bogus") (benchmark_init init example_world)) /\
  exists b',
    run_name init example_world "bogus" (benchmark_init init example_world)
      = Done b' /\
    log_ b' = log_ (benchmark_init init example_world) ++ [EWarn "bogus"] /\
    db_ops (log_ b') = db_ops (log_ (benchmark_init init example_world)) /\
    List.filter is_summary (log_ b')
      = List.filter is_summary (log_ (benchmark_init init example_world)) /\
    done_ b' = 0 /\ op_total_time_ b' = 0 /\
    run_names init example_world ["bogus"; "readseq"]
      (benchmark_init init example_world)
      = run_names init example_world ["readseq"] b'.
Proof.
  apply (unknown_benchmark_skipped init example_world "bogus" ["readseq"]
           (benchmark_init init example_world)).
  - apply (bool_decide_unpack _). vm_compute. exact I.
  - discriminate.
Defined.

(** ** Transactions of the batch workloads *)





(** ** The message a write workload hands to [stop] *)

(** C7: [fillseq100K] with [--num=3000] writes three entries, which sets the
    message "(3 ops)" and records 300,012 bytes.  The claim has [stop] put
    the rate in front of that message; [stop] tests the message the wrong way
    round and keeps the rate alone, in every world. *)
Theorem fillseq100K_message_lost (W : World) :
  let F := main_flags [ArgNum 3000] in
  exists b1,
    run_workload F W "fillseq100K" (start (benchmark_init F W))
      = Done (true, b1) /\
    message_ b1 = "(3 ops)" /\ bytes_ b1 = 300012 /\
    message_ (stop W "fillseq100K" b1)
      = rate_text W 300012 (op_total_time_ b1).
Proof.
  intros F. set (b0 := start (benchmark_init F W)).
  destruct (run_described_outcome F W "fillseq100K" _ b0 eq_refl)
    as (r & evs & Hd & Hout & Hm).
  rewrite (run_workload_known F W "fillseq100K" _ b0 eq_refl), Hd.
  rewrite (outcome_done _ _ _ _ _ _ _ _ _ _ _ _ Hout (fits_one _)) in *.
  cbn [mbind result_bind reached] in *.
  destruct Hout as (_ & _ & _ & _ & _ & Hrest).
  change (workload_count _ b0) with 3 in Hrest.
  rewrite decide_True in Hrest by lia.
  destruct Hrest as (values & _ & _ & Hcount & _).
  destruct Hcount as (_ & Hb & _).
  { split; [|cbn; lia]. split; [cbn; lia|].
    split; [by exists 1|cbn; lia]. }
  assert (bytes_ (reached r) = 300012) as Hb'
    by (rewrite Hb; [reflexivity|unfold bytes_room; vm_compute; reflexivity]).
  assert (message_ (reached r) = "(3 ops)") as Hm'
    by (rewrite Hm; reflexivity).
  exists (reached r). split; [reflexivity|].
  split; [exact Hm'|]. split; [exact Hb'|].
  rewrite stop_message by (rewrite Hb'; lia).
  rewrite Hm', Hb'. reflexivity.
Qed.

(** ** The indices a chunk uses *)

Lemma op_indices_db_ops (l : list event) : op_indices (db_ops l) = op_indices l.
Proof.
  unfold op_indices, db_ops. induction l as [|e l IH]; [reflexivity|].
  destruct e; cbn; rewrite ?IH; reflexivity.
Qed.

Lemma op_indices_app (l1 l2 : list event) :
  op_indices (l1 ++ l2) = op_indices l1 ++ op_indices l2.
Proof. apply omap_app. Qed.

Lemma op_indices_calls (call : Z -> event) (idxs : list Z) :
  (forall i, op_index (call i) = Some i) ->
  op_indices (call <$> idxs) = idxs.
Proof.
  intros Hcall. induction idxs as [|i idxs IH]; [reflexivity|].
  cbn. rewrite Hcall. cbn. f_equal. exact IH.
Qed.

Lemma op_indices_bracket (txn : bool) (call : Z -> event) (idxs : list Z) :
  (forall i, op_index (call i) = Some i) ->
  op_indices (bracket txn (call <$> idxs)) = idxs.
Proof.
  intros Hcall. unfold bracket.
  rewrite !op_indices_app, (op_indices_calls call idxs Hcall).
  destruct txn; cbn; by rewrite ?app_nil_r.
Qed.

Lemma op_index_workload_call (k : kind) (keys values : list Z)
  (value_size i : Z) :
  op_index (workload_call k keys values value_size i) = Some i.
Proof. by destruct k. Qed.

(** C1: a workload of 1,200,000 entries is claimed to run as three chunks of
    500,000, 500,000 and 200,000 keys.  The chunk loop of [benchmark_write],
    [benchmark_read] and [benchmark_delete] starts [n] at 500,000 and takes
    500,000 off after each turn, so it runs one chunk of 500,000 keys and
    stops: [benchmark_write] asked for 1,200,000 entries, one per batch,
    executes REPLACE at the indices 0 to 499,999 of that one chunk and then
    finalizes; 700,000 entries are never written. *)
Theorem chunks_1200000_single_chunk :
  chunks 1200000 = [500000] /\
  chunks 1200000 <> [500000; 500000; 200000] /\
  foldr Z.add 0 (chunks 1200000) = 500000 /\
  forall F W write_sync order value_size b, exists b' ops,
    benchmark_write F W write_sync order 1200000 value_size 1 b = Done b' /\
    steps b b'
      ([EExec (sync_stmt write_sync); EPrepare replace_str;
        EPrepare begin_trans_str; EPrepare end_trans_str]
       ++ ops
       ++ [EFinalize replace_str; EFinalize begin_trans_str;
           EFinalize end_trans_str]) /\
    op_indices ops = seqZ 0 500000.
Proof.
  assert (chunks 1200000 = [500000]) as Hchunks
    by (rewrite chunks_above_bound by (unfold MAXNUMPERTIME; lia); reflexivity).
  split; [exact Hchunks|]. rewrite Hchunks.
  split; [discriminate|]. split; [reflexivity|].
  intros F W write_sync order value_size b.
  destruct (benchmark_write_outcome F W write_sync order 1200000 value_size 1 b
              ltac:(lia)) as (evs & Hout & _).
  destruct (outcome_returns _ _ _ _ _ _ _ _ _ _ _ _ Z.lt_0_1 Hout
              (fits_one _)) as (opss & Hrun & Hs & HQ).
  rewrite Hchunks in HQ.
  apply Forall2_cons_inv_l in HQ as (ops & rest & HQ & Hrest & ->).
  apply Forall2_nil_inv_l in Hrest as ->.
  eexists _, ops. split; [exact Hrun|].
  cbn [concat] in Hs. rewrite app_nil_r in Hs. split; [exact Hs|].
  destruct HQ as (keys & values & idxs & Hidxs & _ & _ & _ & ->).
  unfold batch_indices in Hidxs.
  rewrite batch_loop_stride_1 in Hidxs by lia.
  rewrite Z.sub_0_r in Hidxs. injection Hidxs as <-.
  unfold write_calls. by apply op_indices_bracket.
Qed.

(** The indices of a chunk and the arrays of the chunk. *)
Lemma batch_indices_arrays (n entries_per_batch : Z) (idxs : list Z)
  (a : list Z) :
  0 < n -> 0 < entries_per_batch ->
  batch_indices n entries_per_batch = Some idxs ->
  length a = Z.to_nat n ->
  (Forall (fun k => 0 <= k < n) idxs <-> (entries_per_batch | n)) /\
  (Forall (fun k => is_Some (array_get a k)) idxs
   <-> (entries_per_batch | n)) /\
  (~ (entries_per_batch | n) ->
   exists rest, idxs = seqZ 0 n ++ n :: rest /\ array_get a n = None).
Proof.
  intros Hn He Hidxs Hlen.
  assert (Forall (fun k => 0 <= k < n) (seqZ 0 n)) as Hin.
  { apply Forall_forall. intros i Hi. apply elem_of_seqZ in Hi. lia. }
  destruct (decide (entries_per_batch | n)) as [Hdiv|Hnot].
  - rewrite (batch_indices_divides n entries_per_batch Hn He Hdiv) in Hidxs.
    injection Hidxs as <-.
    split; [done|]. split; [|done]. split; [done|]. intros _.
    eapply Forall_impl; [exact Hin|]. intros k Hk. simpl in Hk.
    rewrite (array_get_in a k) by lia. by eexists.
  - destruct (batch_indices_overrun n entries_per_batch Hn He Hnot)
      as [rest Hover].
    rewrite Hover in Hidxs. injection Hidxs as <-.
    pose proof (array_get_out a n ltac:(lia)) as Hout.
    split; [|split].
    + split; [|done]. intros Hall. apply Forall_app in Hall as [_ Hall].
      apply Forall_cons in Hall as [Hbad _]. lia.
    + split; [|done]. intros Hall. apply Forall_app in Hall as [_ Hall].
      apply Forall_cons in Hall as [Hbad _]. rewrite Hout in Hbad.
      by destruct Hbad.
    + intros _. by exists rest.
Qed.

(** The engine calls of a chunk are at the indices of the batch loops, as
    far as these stay inside the batches. *)
Lemma chunk_of_indices (F : Flags) (W : World) (k : kind) (order : Order)
  (value_size entries_per_batch n : Z) (b : Bench) (idxs : list Z) :
  0 < n -> 0 < entries_per_batch ->
  batch_indices n entries_per_batch = Some idxs ->
  if decide (entries_per_batch | n) then
    exists b',
      chunk_of F W k order value_size entries_per_batch n b = Done b' /\
      op_indices (log_ b') = op_indices (log_ b) ++ idxs
  else
    exists b',
      chunk_of F W k order value_size entries_per_batch n b
      = Halt OutOfBounds b' /\
      op_indices (log_ b') = op_indices (log_ b) ++ seqZ 0 n.
Proof.
  intros Hn He Hidxs.
  destruct (chunk_of_full F W k order value_size entries_per_batch n b Hn He)
    as (b' & values & evs & _ & (Hl & _) & _ & _ & Hrest).
  destruct (decide (entries_per_batch | n)) as [Hdiv|Hnot];
    destruct Hrest as (Hrun & Hops & _);
    exists b'; (split; [exact Hrun|]);
    rewrite Hl, op_indices_app, <- (op_indices_db_ops evs), Hops; f_equal.
  - rewrite (batch_indices_divides n entries_per_batch Hn He Hdiv) in Hidxs.
    injection Hidxs as <-.
    apply op_indices_bracket. intros i. apply op_index_workload_call.
  - rewrite op_indices_app, op_indices_calls
      by (intros i; apply op_index_workload_call).
    by destruct (FLAGS_transaction F).
Qed.

(** C9: in a chunk of [n] keys run with a positive batch size, both small
    enough for the loop counters to stay in the range of [int], the batch
    loops end, and the indices [i + j] they use all lie in [0, n) exactly
    when the batch size divides [n]: exactly then every read of an array of
    [n] entries at these indices is a read of an entry.  When it does not
    (batch size 1000 and [n] not a multiple of 1000, say) some index is [n]
    or more: after the indices 0 to [n - 1] comes the index [n], where an
    array of [n] entries has no entry.  The chunks of the write, read and
    delete workloads make their engine calls at these indices: at all of
    them, and then return, when the batch size divides [n]; at 0 to [n - 1]
    and then read outside the key batch, and do not return, when it does
    not. *)
Theorem batch_indices_in_bounds_iff_divides (n entries_per_batch : Z) :
  0 < n -> 0 < entries_per_batch -> n + entries_per_batch < 2 ^ 31 ->
  exists idxs, batch_indices n entries_per_batch = Some idxs /\
    (Forall (fun k => 0 <= k < n) idxs <-> (entries_per_batch | n)) /\
    (~ (entries_per_batch | n) -> Exists (fun k => n <= k) idxs) /\
    (forall a : list Z, length a = Z.to_nat n ->
        (Forall (fun k => is_Some (array_get a k)) idxs
         <-> (entries_per_batch | n)) /\
        (~ (entries_per_batch | n) ->
         exists rest, idxs = seqZ 0 n ++ n :: rest /\ array_get a n = None)) /\
    (forall F W order value_size b,
        if decide (entries_per_batch | n) then
          exists b',
            write_chunk F W order value_size entries_per_batch n b = Done b' /\
            op_indices (log_ b') = op_indices (log_ b) ++ idxs
        else
          exists b',
            write_chunk F W order value_size entries_per_batch n b
            = Halt OutOfBounds b' /\
            op_indices (log_ b') = op_indices (log_ b) ++ seqZ 0 n) /\
    (forall F W order b,
        if decide (entries_per_batch | n) then
          exists b',
            read_chunk F W order entries_per_batch n b = Done b' /\
            op_indices (log_ b') = op_indices (log_ b) ++ idxs
        else
          exists b',
            read_chunk F W order entries_per_batch n b
            = Halt OutOfBounds b' /\
            op_indices (log_ b') = op_indices (log_ b) ++ seqZ 0 n) /\
    (forall F W order b,
        if decide (entries_per_batch | n) then
          exists b',
            delete_chunk F W order entries_per_batch n b = Done b' /\
            op_indices (log_ b') = op_indices (log_ b) ++ idxs
        else
          exists b',
            delete_chunk F W order entries_per_batch n b
            = Halt OutOfBounds b' /\
            op_indices (log_ b') = op_indices (log_ b) ++ seqZ 0 n).
Proof.
  intros Hn He _.
  destruct (batch_loop_total entries_per_batch He n 0) as [idxs Hidxs].
  change (batch_indices n entries_per_batch = Some idxs) in Hidxs.
  exists idxs. split; [exact Hidxs|].
  destruct (batch_indices_arrays n entries_per_batch idxs (fresh_array n)
              Hn He Hidxs (length_replicate _ _)) as (Hall & _ & Hover).
  split; [exact Hall|]. split.
  { intros Hnot. destruct (Hover Hnot) as (rest & -> & _).
    apply Exists_app. right. by constructor. }
  split.
  { intros a Hlen.
    destruct (batch_indices_arrays n entries_per_batch idxs a
                Hn He Hidxs Hlen) as (_ & Hsome & Hnone).
    by split. }
  split; [|split].
  - intros F W order value_size b.
    exact (chunk_of_indices F W KWrite order value_size entries_per_batch n b
             idxs Hn He Hidxs).
  - intros F W order b.
    exact (chunk_of_indices F W KRead order 0 entries_per_batch n b
             idxs Hn He Hidxs).
  - intros F W order b.
    exact (chunk_of_indices F W KDelete order 0 entries_per_batch n b
             idxs Hn He Hidxs).
Qed.

(** The chunk of three keys of a batch workload: indices 0 to 999. *)
Lemma batch_indices_in_bounds_iff_divides_witness :
  exists idxs, batch_indices 3 1000 = Some idxs /\
    (Forall (fun k => 0 <= k < 3) idxs <-> (1000 | 3)) /\
    (~ (1000 | 3) -> Exists (fun k => 3 <= k) idxs) /\
    (forall a : list Z, length a = Z.to_nat 3 ->
        (Forall (fun k => is_Some (array_get a k)) idxs <-> (1000 | 3)) /\
        (~ (1000 | 3) ->
         exists rest, idxs = seqZ 0 3 ++ 3 :: rest /\ array_get a 3 = None)) /\
    (forall F W order value_size b,
        if decide (1000 | 3) then
          exists b',
            write_chunk F W order value_size 1000 3 b = Done b' /\
            op_indices (log_ b') = op_indices (log_ b) ++ idxs
        else
          exists b',
            write_chunk F W order value_size 1000 3 b
            = Halt OutOfBounds b' /\
            op_indices (log_ b') = op_indices (log_ b) ++ seqZ 0 3) /\
    (forall F W order b,
        if decide (1000 | 3) then
          exists b',
            read_chunk F W order 1000 3 b = Done b' /\
            op_indices (log_ b') = op_indices (log_ b) ++ idxs
        else
          exists b',
            read_chunk F W order 1000 3 b = Halt OutOfBounds b' /\
            op_indices (log_ b') = op_indices (log_ b) ++ seqZ 0 3) /\
    (forall F W order b,
        if decide (1000 | 3) then
          exists b',
            delete_chunk F W order 1000 3 b = Done b' /\
            op_indices (log_ b') = op_indices (log_ b) ++ idxs
        else
          exists b',
            delete_chunk F W order 1000 3 b = Halt OutOfBounds b' /\
            op_indices (log_ b') = op_indices (log_ b) ++ seqZ 0 3).
Proof.
  apply (batch_indices_in_bounds_iff_divides 3 1000); lia.
Defined.

(** ** Key sequences of two runs *)

Lemma key_sequence_app (l1 l2 : list event) :
  key_sequence (l1 ++ l2) = key_sequence l1 ++ key_sequence l2.
Proof. apply omap_app. Qed.

Lemma key_sequence_db_ops (l : list event) :
  key_sequence (db_ops l) = key_sequence l.
Proof.
  unfold key_sequence, db_ops. induction l as [|e l IH]; [reflexivity|].
  destruct e; cbn; rewrite ?IH; reflexivity.
Qed.

Lemma key_sequence_calls (k : kind) (keys values : list Z)
  (value_size n : Z) :
  length keys = Z.to_nat n ->
  key_sequence (workload_call k keys values value_size <$> seqZ 0 n) = keys.
Proof.
  intros Hlen. rewrite <- (array_at_seqZ keys n Hlen) at 2.
  unfold key_sequence. induction (seqZ 0 n) as [|i l IH]; [reflexivity|].
  cbn. rewrite IH. by destruct k.
Qed.

Lemma key_sequence_prelude (w : workload) :
  key_sequence (workload_prelude w) = [].
Proof. unfold workload_prelude. by destruct (w_kind w). Qed.

Lemma key_sequence_finale (F : Flags) (w : workload) :
  key_sequence (workload_finale F w) = [].
Proof.
  unfold workload_finale. by destruct (w_kind w), (FLAGS_WAL_enabled F).
Qed.

(** The keys a workload binds, the state it leaves the PRNG in and whether
    it returns follow from its count, its order, its batch size and the
    state of the PRNG before it. *)
Lemma outcome_keys (F : Flags) (W : World) (k : kind) (order : Order)
  (value_size entries_per_batch count : Z) (pre post : list event)
  (b : Bench) (r : result Bench) (evs : list event) :
  key_sequence pre = [] -> key_sequence post = [] ->
  outcome F W k order value_size entries_per_batch count pre post b r evs ->
  let n := Z.min count MAXNUMPERTIME in
  key_sequence evs
  = (if decide (0 < count)
     then (gen_key (fresh_array n) n order (rand_ b)).1 else []) /\
  rand_ (reached r)
  = (if decide (0 < count)
     then (gen_key (fresh_array n) n order (rand_ b)).2 else rand_ b) /\
  ending r
  = (if decide (0 < count)
     then if decide (entries_per_batch | n) then None else Some OutOfBounds
     else None).
Proof.
  intros Hpre Hpost (_ & _ & _ & _ & _ & Hrest) n.
  rewrite <- (key_sequence_db_ops evs).
  destruct (decide (0 < count)) as [Hpos|Hneg].
  - fold n in Hrest. destruct Hrest as (values & _ & Hrand & _ & Hrest).
    assert (length (gen_key (fresh_array n) n order (rand_ b)).1 = Z.to_nat n)
      as Hklen by (rewrite length_gen_key; apply length_replicate).
    destruct (decide (entries_per_batch | n));
      destruct Hrest as (-> & -> & _); cbn [ending reached] in *;
      unfold bracket;
      rewrite !key_sequence_app, Hpre, ?Hpost,
        (key_sequence_calls k _ values value_size n Hklen);
      (split; [by destruct (FLAGS_transaction F); cbn; rewrite ?app_nil_r|]);
      done.
  - destruct Hrest as (-> & -> & _ & _ & Hrand & _).
    rewrite key_sequence_app, Hpre, Hpost. done.
Qed.

Section TwoRuns.

Variable F : Flags.
Variables W1 W2 : World.

Lemma run_name_same_keys (name : string) (b1 b2 : Bench) :
  same_keys b1 b2 ->
  ending (run_name F W1 name b1) = ending (run_name F W2 name b2) /\
  same_keys (reached (run_name F W1 name b1))
            (reached (run_name F W2 name b2)).
Proof.
  intros (Hnum & Hreads & Hrand & Hkeys).
  destruct (lookup_workload name) as [w|] eqn:Hw.
  - destruct (run_name_known F W1 name w b1 Hw)
      as (c1 & r1 & evs1 & Hs1 & Hout1 & _ & ->).
    destruct (run_name_known F W2 name w b2 Hw)
      as (c2 & r2 & evs2 & Hs2 & Hout2 & _ & ->).
    destruct (stop_after W1 name r1) as (He1 & Hn1 & Hr1 & Hrd1 & _ & Hl1).
    destruct (stop_after W2 name r2) as (He2 & Hn2 & Hr2 & Hrd2 & _ & Hl2).
    destruct (outcome_keys _ _ _ _ _ _ _ _ _ _ _ _
                (key_sequence_prelude w) (key_sequence_finale F w) Hout1)
      as (Hk1 & Hg1 & Hend1).
    destruct (outcome_keys _ _ _ _ _ _ _ _ _ _ _ _
                (key_sequence_prelude w) (key_sequence_finale F w) Hout2)
      as (Hk2 & Hg2 & Hend2).
    destruct Hs1 as (Hlc1 & Hnc1 & Hrc1 & Hrdc1 & _).
    destruct Hs2 as (Hlc2 & Hnc2 & Hrc2 & Hrdc2 & _).
    destruct Hout1 as (Hlo1 & Hno1 & Hro1 & _).
    destruct Hout2 as (Hlo2 & Hno2 & Hro2 & _).
    assert (workload_count w b1 = workload_count w b2) as Hcount
      by (unfold workload_count; by rewrite Hnum, Hreads).
    rewrite Hcount, Hrdc1, Hrand, <- Hrdc2 in *.
    rewrite He1, He2. split; [congruence|].
    unfold same_keys. rewrite Hn1, Hn2, Hr1, Hr2, Hrd1, Hrd2, Hl1, Hl2.
    split; [congruence|]. split; [congruence|]. split; [congruence|].
    rewrite Hlo1, Hlo2, Hlc1, Hlc2, !key_sequence_app, Hkeys, Hk1, Hk2.
    f_equal; [f_equal|].
    + f_equal. by destruct (if_create_database name b1).1,
        (if_create_database name b2).1.
    + by destruct (ending r1), (ending r2).
  - destruct (run_name_unknown F W1 name b1 Hw)
      as (c1 & -> & Hl1 & Hn1 & Hr1 & Hrd1 & _).
    destruct (run_name_unknown F W2 name b2 Hw)
      as (c2 & -> & Hl2 & Hn2 & Hr2 & Hrd2 & _).
    split; [reflexivity|]. unfold same_keys. cbn [reached].
    rewrite Hn1, Hn2, Hr1, Hr2, Hrd1, Hrd2, Hl1, Hl2, !key_sequence_app, Hkeys.
    repeat split; congruence.
Qed.

Lemma run_names_same_keys (names : list string) : forall b1 b2,
  same_keys b1 b2 ->
  ending (run_names F W1 names b1) = ending (run_names F W2 names b2) /\
  same_keys (reached (run_names F W1 names b1))
            (reached (run_names F W2 names b2)).
Proof.
  induction names as [|name names IH]; intros b1 b2 Hsame; [by split|].
  cbn [run_names].
  destruct (run_name_same_keys name b1 b2 Hsame) as [Hend Hsame'].
  destruct (run_name F W1 name b1) as [c1|h1 c1],
    (run_name F W2 name b2) as [c2|h2 c2];
    cbn [mbind result_bind reached ending] in *; try discriminate.
  - by apply IH.
  - by split.
Qed.

End TwoRuns.

Lemma benchmark_init_same_keys (F : Flags) (W1 W2 : World) :
  time0 W1 = time0 W2 ->
  same_keys (benchmark_init F W1) (benchmark_init F W2).
Proof. intros Htime. unfold same_keys. cbn. by rewrite Htime. Qed.

(** C10, as claimed, fails: with one entry, [fillrandom] returns and has
    bound the key 0 in a run started at 1000 and in a run started at
    2000. *)
Lemma different_start_same_keys_counterexample :
  let argv := [ArgNum 1; ArgBenchmarks "fillrandom"] in
  time0 example_world <> time0 example_world_later /\
  ending (main argv example_world) = None /\
  ending (main argv example_world_later) = None /\
  key_sequence (log_ (reached (main argv example_world)))
    = key_sequence (log_ (reached (main argv example_world_later))) /\
  key_sequence (log_ (reached (main argv example_world))) = [0].
Proof. split; [discriminate|]. repeat split; vm_compute; reflexivity. Qed.

(** C10, amended: [benchmark_init] seeds the PRNG from the start time, and
    the keys a run binds follow from the configuration and that time alone:
    two runs with the same flags and the same start time, in which the
    engine answers every call with success, end in the same way, both
    returning or both at a read outside a key batch, and have bound the
    same keys in the same order when they do, whatever the clock readings,
    the rate text and the pool are.  Runs started at different
    times can bind different keys, as five entries of [fillrandom] started
    at 1000 and at 2000 do; that they must is not promised. *)
Theorem key_sequences_follow_start_time (F : Flags) (W1 W2 : World) :
  time0 W1 = time0 W2 ->
  rand_ (benchmark_init F W1) = rand_init (time0 W1) /\
  (ending (benchmark_run F W1 (benchmark_init F W1))
   = ending (benchmark_run F W2 (benchmark_init F W2)) /\
   key_sequence (log_ (reached (benchmark_run F W1 (benchmark_init F W1))))
   = key_sequence (log_ (reached (benchmark_run F W2 (benchmark_init F W2))))) /\
  key_sequence
    (log_ (reached (main [ArgNum 5; ArgBenchmarks "fillrandom"] example_world)))
  <> key_sequence
       (log_ (reached (main [ArgNum 5; ArgBenchmarks "fillrandom"]
                         example_world_later))).
Proof.
  intros Htime. split; [reflexivity|]. split.
  - destruct (run_names_same_keys F W1 W2 (split_names (FLAGS_benchmarks F))
                _ _ (benchmark_init_same_keys F W1 W2 Htime))
      as (Hend & _ & _ & _ & Hkeys).
    by split.
  - vm_compute. discriminate.
Qed.

(** Two worlds started at 1000 whose clocks and pools differ. *)
Lemma key_sequences_follow_start_time_witness :
  let F := main_flags [ArgNum 5; ArgBenchmarks "fillrandom,readrandom"] in
  let W1 := example_world in
  let W2 := {| time0 := 1000; now_micros := fun k => 7 * Z.of_nat k;
               rate_text := fun _ _ => " 250.0 MB/s";
               pool_bytes := replicate 128 Byte.x01 |} in
  rand_ (benchmark_init F W1) = rand_init (time0 W1) /\
  (ending (benchmark_run F W1 (benchmark_init F W1))
   = ending (benchmark_run F W2 (benchmark_init F W2)) /\
   key_sequence (log_ (reached (benchmark_run F W1 (benchmark_init F W1))))
   = key_sequence (log_ (reached (benchmark_run F W2 (benchmark_init F W2))))) /\
  key_sequence
    (log_ (reached (main [ArgNum 5; ArgBenchmarks "fillrandom"] example_world)))
  <> key_sequence
       (log_ (reached (main [ArgNum 5; ArgBenchmarks "fillrandom"]
                         example_world_later))).
Proof.
  apply (key_sequences_follow_start_time
           (main_flags [ArgNum 5; ArgBenchmarks "fillrandom,readrandom"])
           example_world
           {| time0 := 1000; now_micros := fun k => 7 * Z.of_nat k;
              rate_text := fun _ _ => " 250.0 MB/s";
              pool_bytes := replicate 128 Byte.x01 |}).
  reflexivity.
Defined.
(** * Further properties *)

(** ** The list of names *)

Lemma split_names_nonempty (s : string) : split_names s <> [].
Proof.
  destruct s as [|c rest]; cbn; [done|].
  destruct (Ascii.eqb c ","); [done|]. by destruct (split_names rest).
Qed.

Lemma join_names_cons (c : ascii) (name : string) (names : list string) :
  join_names (String c name :: names) = String c (join_names (name :: names)).
Proof. by destruct names. Qed.

Lemma join_names_empty_cons (names : list string) :
  names <> [] -> join_names (EmptyString :: names) = String "," (join_names names).
Proof. by destruct names. Qed.

(** X1: the loop of [benchmark_run] cuts the list of benchmarks at its
    commas and nowhere else: it yields at least one name, no name holds a
    comma, and the names put back together with commas are the list. *)
Theorem split_names_join (s : string) :
  join_names (split_names s) = s /\
  Forall (fun name => comma_free name = true) (split_names s) /\
  split_names s <> [].
Proof.
  split; [|split; [|apply split_names_nonempty]].
  - induction s as [|c rest IH]; [reflexivity|].
    cbn [split_names]. destruct (Ascii.eqb c ",") eqn:Hc.
    + apply Ascii.eqb_eq in Hc as ->.
      rewrite join_names_empty_cons by apply split_names_nonempty.
      by rewrite IH.
    + pose proof (split_names_nonempty rest) as Hne.
      destruct (split_names rest) as [|name names]; [done|].
      by rewrite join_names_cons, IH.
  - induction s as [|c rest IH]; [by repeat constructor|].
    cbn [split_names]. destruct (Ascii.eqb c ",") eqn:Hc.
    + by constructor.
    + destruct (split_names rest) as [|name names]; [by repeat constructor; cbn; rewrite Hc|].
      apply Forall_cons in IH as [Hname Hnames].
      constructor; [|done]. cbn. by rewrite Hc, Hname.
Qed.

Lemma split_names_comma_free (name : string) :
  comma_free name = true -> split_names name = [name].
Proof.
  induction name as [|c name IH]; [reflexivity|]. cbn. intros Hname.
  apply andb_true_iff in Hname as [Hc Hname]. apply negb_true_iff in Hc.
  by rewrite Hc, (IH Hname).
Qed.

Lemma split_names_first (name rest : string) :
  comma_free name = true ->
  split_names (name +:+ "," +:+ rest) = name :: split_names rest.
Proof.
  induction name as [|c name IH]; [reflexivity|]. intros Hname. cbn in Hname.
  apply andb_true_iff in Hname as [Hc Hname]. apply negb_true_iff in Hc.
  change (String c name +:+ "," +:+ rest)
    with (String c (name +:+ "," +:+ rest)).
  cbn [split_names]. by rewrite Hc, (IH Hname).
Qed.

(** X2: a list of names without commas, joined with commas and handed to
    the loop, comes back name by name. *)
Theorem split_names_of_join (names : list string) :
  names <> [] -> Forall (fun name => comma_free name = true) names ->
  split_names (join_names names) = names.
Proof.
  intros Hne Hfree. induction names as [|name names IH]; [done|].
  apply Forall_cons in Hfree as [Hname Hnames].
  destruct names as [|name' names].
  - by apply split_names_comma_free.
  - change (join_names (name :: name' :: names))
      with (name +:+ "," +:+ join_names (name' :: names)).
    rewrite split_names_first by done. by rewrite IH.
Qed.

Lemma split_names_of_join_witness :
  split_names (join_names ["fillseq"; ""; "readseq"]) = ["fillseq"; ""; "readseq"].
Proof.
  apply (split_names_of_join ["fillseq"; ""; "readseq"]).
  - discriminate.
  - repeat constructor.
Defined.

(** ** The flags of a command line *)

Lemma last_default_cons (d x : Z) (l : list Z) :
  default d (last (x :: l)) = default x (last l).
Proof. rewrite last_cons. by destruct (last l). Qed.

Lemma set_flags_from (argv : list arg) : forall f,
  FLAGS_num (foldl set_flag f argv)
    = default (FLAGS_num f) (last (num_args argv)) /\
  FLAGS_reads (foldl set_flag f argv)
    = default (FLAGS_reads f) (last (reads_args argv)) /\
  FLAGS_value_size (foldl set_flag f argv)
    = default (FLAGS_value_size f) (last (value_size_args argv)) /\
  FLAGS_transaction (foldl set_flag f argv)
    = FLAGS_transaction f && negb (no_transaction_given argv).
Proof.
  induction argv as [|a argv IH]; intros f.
  - cbn. by rewrite andb_true_r.
  - cbn [foldl]. destruct (IH (set_flag f a)) as (Hn & Hr & Hv & Ht).
    rewrite Hn, Hr, Hv, Ht. clear.
    destruct f, a; cbn; rewrite ?last_default_cons;
      rewrite ?andb_false_r, ?andb_true_r; done.
Qed.

(** X3: the argument loop of [main] lets the last occurrence of a flag win
    and leaves a flag that is not given at the default of [init]; no flag
    turns transactions back on once [--no_transaction] was read. *)
Theorem main_flags_last_wins (argv : list arg) :
  FLAGS_num (main_flags argv) = default 1000000 (last (num_args argv)) /\
  FLAGS_reads (main_flags argv) = default (-1) (last (reads_args argv)) /\
  FLAGS_value_size (main_flags argv)
    = default 128 (last (value_size_args argv)) /\
  FLAGS_transaction (main_flags argv) = negb (no_transaction_given argv).
Proof. exact (set_flags_from argv init). Qed.

(** ** Chunk sizes *)

(** X4: the key and value arrays of a chunk are never empty and never
    longer than the bound; a workload has at most one chunk, and the
    entries it works on are the count cut at the bound, none for a count
    that is not positive. *)
Theorem chunks_bounded (num : Z) :
  Forall (fun n => 0 < n <= MAXNUMPERTIME) (chunks num) /\
  (length (chunks num) <= 1)%nat /\
  foldr Z.add 0 (chunks num) = Z.max 0 (Z.min num MAXNUMPERTIME).
Proof.
  rewrite chunks_at_most_one. case_decide as Hnum.
  - assert (0 < MAXNUMPERTIME) by (unfold MAXNUMPERTIME; lia).
    split; [repeat constructor; lia|]. split; [cbn; lia|]. cbn. lia.
  - assert (0 < MAXNUMPERTIME) by (unfold MAXNUMPERTIME; lia).
    split; [constructor|]. split; [cbn; lia|]. cbn. lia.
Qed.

(** ** More on key batches *)

Lemma foldl_invariant_in {A B} (P : A -> Prop) (f : A -> B -> A) (l : list B) :
  (forall a x, x ∈ l -> P a -> P (f a x)) -> forall a, P a -> P (foldl f a l).
Proof.
  induction l as [|x l IH]; intros Hf a Ha; cbn; [done|].
  apply IH.
  - intros a' y Hy. apply Hf. by right.
  - apply Hf; [by left|done].
Qed.

Lemma gen_key_rand_state (num : Z) (k : nat) : forall (m : Z) (keys : list Z) r,
  (foldl (fun '(ks, r) i =>
               let '(x, r') := rand_next r in
               (<[Z.to_nat i := int32 (uint32 x mod uint32 num)]> ks, r'))
            (keys, r) (seqZ m (Z.of_nat k))).2
  = after_draws k r.
Proof.
  induction k as [|k IH]; intros m keys r.
  - by rewrite seqZ_nil by lia.
  - rewrite seqZ_cons by lia. cbn [foldl].
    replace (Z.pred (Z.of_nat (S k))) with (Z.of_nat k) by lia.
    destruct (rand_next r) as [x r'] eqn:Hx.
    rewrite IH. cbn [after_draws]. by rewrite Hx.
Qed.

(** X5: [gen_key] writes the slots below [num] and no other, so an array
    with more slots keeps the rest, and nothing changes for a count that is
    not positive; it leaves the PRNG alone in sequential order and advances
    it by one draw for each key in random order. *)
Theorem gen_key_frame (keys : list Z) (num : Z) (order : Order) (r : Random) :
  length (gen_key keys num order r).1 = length keys /\
  drop (Z.to_nat num) (gen_key keys num order r).1
    = drop (Z.to_nat num) keys /\
  (gen_key keys num order r).2
    = match order with
      | SEQUENTIAL => r
      | RANDOM => after_draws (Z.to_nat num) r
      end.
Proof.
  split; [apply length_gen_key|]. split.
  - apply list_eq. intros i. rewrite !lookup_drop.
    set (j := (Z.to_nat num + i)%nat).
    assert (num <= Z.of_nat j) as Hj by lia. clearbody j.
    destruct order; cbn [gen_key fst].
    + apply (foldl_invariant_in (fun ks : list Z => ks !! j = keys !! j));
        [|done].
      intros ks x Hx Hks. apply elem_of_seqZ in Hx.
      rewrite list_lookup_insert_ne by lia. exact Hks.
    + apply (foldl_invariant_in
               (fun p : list Z * Random => p.1 !! j = keys !! j)); [|done].
      intros [ks r0] x Hx Hks. apply elem_of_seqZ in Hx.
      destruct (rand_next r0). cbn in *.
      rewrite list_lookup_insert_ne by lia. exact Hks.
  - destruct order; [reflexivity|]. cbn [gen_key].
    destruct (decide (0 <= num)) as [Hnum|Hnum].
    + pose proof (gen_key_rand_state num (Z.to_nat num) 0 keys r) as H.
      by rewrite Z2Nat.id in H by lia.
    + rewrite seqZ_nil by lia. by replace (Z.to_nat num) with O by lia.
Qed.

(** X6: what [gen_key] leaves in an array of [num] slots does not depend on
    what the array held: nothing of the unset variable-length array of a
    chunk reaches the keys. *)
Theorem gen_key_ignores_contents (keys1 keys2 : list Z) (num : Z)
  (order : Order) (r : Random) :
  length keys1 = Z.to_nat num -> length keys2 = Z.to_nat num ->
  gen_key keys1 num order r = gen_key keys2 num order r.
Proof.
  intros H1 H2. destruct (decide (0 <= num)) as [Hnum|Hnum].
  2: { destruct keys1, keys2; try (cbn in *; lia). reflexivity. }
  destruct order.
  - cbn [gen_key]. f_equal.
    pose proof (gen_key_seq_loop (Z.to_nat num) 0 keys1 H1) as E1.
    pose proof (gen_key_seq_loop (Z.to_nat num) 0 keys2 H2) as E2.
    rewrite Z2Nat.id in E1, E2 by lia.
    change (Z.of_nat 0) with 0 in E1, E2. by rewrite E1, E2, !take_0.
  - apply injective_projections.
    + pose proof (gen_key_rand_loop num (Z.to_nat num) 0 keys1 r H1) as E1.
      pose proof (gen_key_rand_loop num (Z.to_nat num) 0 keys2 r H2) as E2.
      rewrite Z2Nat.id in E1, E2 by lia.
      change (Z.of_nat 0) with 0 in E1, E2.
      cbn [gen_key]. by rewrite E1, E2, !take_0.
    + cbn [gen_key].
      pose proof (gen_key_rand_state num (Z.to_nat num) 0 keys1 r) as E1.
      pose proof (gen_key_rand_state num (Z.to_nat num) 0 keys2 r) as E2.
      rewrite Z2Nat.id in E1, E2 by lia. by rewrite E1, E2.
Qed.

Lemma gen_key_ignores_contents_witness :
  gen_key [7; 7; 7] 3 RANDOM (rand_init 1000)
  = gen_key [0; 9; -4] 3 RANDOM (rand_init 1000).
Proof.
  apply (gen_key_ignores_contents [7; 7; 7] [0; 9; -4] 3 RANDOM
           (rand_init 1000)); reflexivity.
Defined.

(** ** Value batches *)

Lemma rand_gen_generate_ok (g : RandomGenerator) (len : Z) :
  gen_ok g -> 0 <= len < data_size_ g ->
  0 <= (rand_gen_generate g len).1 /\
  (rand_gen_generate g len).1 + len <= data_size_ g /\
  gen_ok (rand_gen_generate g len).2 /\
  data_size_ (rand_gen_generate g len).2 = data_size_ g.
Proof.
  intros [Hsize Hpos] Hlen. unfold gen_ok. cbn.
  destruct (Z.ltb_spec (data_size_ g) (pos_ g + len)); repeat split; lia.
Qed.

Lemma gen_value_loop (value_size size : Z) (k : nat) :
  forall (m : nat) (values : list Z) (g : RandomGenerator),
  length values = (m + k)%nat -> gen_ok g -> data_size_ g = size ->
  0 <= value_size < size ->
  Forall (fun p => 0 <= p /\ p + value_size <= size) (take m values) ->
  let res := foldl (fun '(vs, g) i =>
                      let '(p, g') := rand_gen_generate g value_size in
                      (<[Z.to_nat i := p]> vs, g'))
                   (values, g) (seqZ (Z.of_nat m) (Z.of_nat k)) in
  Forall (fun p => 0 <= p /\ p + value_size <= size) res.1 /\
  gen_ok res.2 /\ data_size_ res.2 = size.
Proof.
  induction k as [|k IH]; intros m values g Hlen Hg Hsize Hvs Htake.
  - rewrite seqZ_nil by lia. cbn. rewrite take_ge in Htake by lia. done.
  - rewrite seqZ_cons by lia. cbn [foldl].
    replace (Z.succ (Z.of_nat m)) with (Z.of_nat (S m)) by lia.
    replace (Z.pred (Z.of_nat (S k))) with (Z.of_nat k) by lia.
    destruct (rand_gen_generate_ok g value_size Hg ltac:(lia))
      as (Hp0 & Hp1 & Hg' & Hsize').
    destruct (rand_gen_generate g value_size) as [p g'] eqn:Hgen.
    cbn [fst snd] in *. apply IH.
    + rewrite length_insert. lia.
    + exact Hg'.
    + lia.
    + lia.
    + rewrite Nat2Z.id, take_S_insert by lia.
      apply Forall_app. split; [exact Htake|]. repeat constructor; lia.
Qed.

(** X7: with [rand_gen_generate] as the spec has it, a well-formed
    generator and a value size below the size of the pool, every pointer
    [gen_value] stores for a chunk has [value_size] bytes of the pool behind
    it, whatever the array held before, and the generator stays well
    formed. *)
Theorem gen_value_in_pool (values : list Z) (num value_size : Z)
  (g : RandomGenerator) :
  gen_ok g -> 0 <= value_size < data_size_ g ->
  length values = Z.to_nat num ->
  Forall (fun p => 0 <= p /\ p + value_size <= data_size_ g)
         (gen_value values num value_size g).1 /\
  length (gen_value values num value_size g).1 = Z.to_nat num /\
  gen_ok (gen_value values num value_size g).2.
Proof.
  intros Hg Hvs Hlen.
  split; [|split; [by rewrite length_gen_value|]].
  - destruct (decide (0 <= num)) as [Hnum|Hnum].
    + pose proof (gen_value_loop value_size (data_size_ g) (Z.to_nat num) 0
                    values g Hlen Hg eq_refl Hvs ltac:(constructor)) as H.
      rewrite Z2Nat.id in H by lia. apply H.
    + unfold gen_value. rewrite seqZ_nil by lia. cbn.
      destruct values; [constructor|cbn in Hlen; lia].
  - destruct (decide (0 <= num)) as [Hnum|Hnum].
    + pose proof (gen_value_loop value_size (data_size_ g) (Z.to_nat num) 0
                    values g Hlen Hg eq_refl Hvs ltac:(constructor)) as H.
      rewrite Z2Nat.id in H by lia. apply H.
    + unfold gen_value. rewrite seqZ_nil by lia. exact Hg.
Qed.

Lemma gen_value_in_pool_witness :
  let g := rand_gen_init (replicate 64 Byte.x00) in
  Forall (fun p => 0 <= p /\ p + 24 <= data_size_ g)
         (gen_value (fresh_array 5) 5 24 g).1 /\
  length (gen_value (fresh_array 5) 5 24 g).1 = Z.to_nat 5 /\
  gen_ok (gen_value (fresh_array 5) 5 24 g).2.
Proof.
  apply (gen_value_in_pool (fresh_array 5) 5 24
           (rand_gen_init (replicate 64 Byte.x00))).
  - unfold gen_ok. cbn. lia.
  - cbn. lia.
  - reflexivity.
Defined.


(** ** Opening the database *)

Lemma length_substring_0 (n : nat) : forall s : string,
  (String.length (String.substring 0 n s) <= n)%nat.
Proof.
  induction n as [|n IH]; intros [|c s]; cbn; try lia.
  specialize (IH s). lia.
Qed.

Lemma substring_0_short (n : nat) : forall s : string,
  (String.length s <= n)%nat -> String.substring 0 n s = s.
Proof.
  induction n as [|n IH]; intros [|c s] Hs; cbn in *; try done; try lia.
  by rewrite IH by lia.
Qed.

Lemma substring_0_append (n : nat) : forall s t : string,
  (n <= String.length s)%nat ->
  String.substring 0 n (s +:+ t) = String.substring 0 n s.
Proof.
  induction n as [|n IH]; intros [|c s] t Hs; cbn in Hs; try lia.
  - by destruct t.
  - reflexivity.
  - change (String c s +:+ t) with (String c (s +:+ t)).
    cbn [String.substring]. f_equal. apply IH. lia.
Qed.

Lemma opened_call (ok : open_event -> bool) (planned : list open_event)
  (e : open_event) (o : opening) :
  opened ok planned o -> opened ok (planned ++ [e]) (open_call ok e o).
Proof.
  destruct o as [log|[] log]; cbn; [|idtac|done].
  - intros [-> Hall]. destruct (ok e) eqn:He; cbn.
    + split; [reflexivity|]. apply Forall_app. by split; [|constructor].
    + exists planned, e, []. by rewrite app_nil_r.
  - intros (good & e' & rest & -> & -> & Hall & He').
    exists good, e', (rest ++ [e]). by rewrite <- !app_assoc.
Qed.

(** The calls of [benchmark_open], in order. *)
Lemma benchmark_open_opened (F : Flags) (P : Paths)
  (ok : open_event -> bool) :
  let file := if FLAGS_use_existing_db F then snprintf100 (FLAGS_db P)
              else snprintf100 (FLAGS_db P +:+ "dbbench_sqlite3.db") in
  let pragmas :=
    [snprintf100 ("PRAGMA cache_size = " +:+ pretty (FLAGS_num_pages F))]
    ++ (if bool_decide (FLAGS_page_size F <> 1024)
        then [snprintf100 ("PRAGMA page_size = "
                           +:+ pretty (FLAGS_page_size F))]
        else [])
    ++ (if FLAGS_WAL_enabled F
        then ["PRAGMA journal_mode = WAL"; "PRAGMA wal_autocheckpoint = 4096"]
        else [])
    ++ ["PRAGMA locking_mode = EXCLUSIVE"] in
  let key_calls :=
    if FLAGS_use_sqlcipher F
    then match FLAGS_key P with
         | Some k => [OKey k (Z.of_nat (String.length k))]
         | None => []
         end
    else [] in
  match benchmark_open F P ok with
  | NotOpen NullKey log =>
      FLAGS_use_sqlcipher F = true /\ FLAGS_key P = None /\
      log = [OOpen file] /\ ok (OOpen file) = true
  | o =>
      opened ok (OOpen file :: key_calls ++ (OExec <$> pragmas)) o /\
      (FLAGS_use_sqlcipher F = false \/ is_Some (FLAGS_key P) \/
       ok (OOpen file) = false)
  end.
Proof.
  intros file pragmas key_calls. unfold benchmark_open. fold file.
  set (cache := snprintf100 ("PRAGMA cache_size = " +:+ _)) in *.
  set (page := snprintf100 ("PRAGMA page_size = " +:+ _)) in *.
  assert (opened ok [OOpen file] (open_call ok (OOpen file) (Going [])))
    as Hopen by (apply (opened_call ok [] (OOpen file) (Going [])); by split).
  assert (forall o,
            opened ok ([OOpen file] ++ key_calls) o ->
            opened ok (OOpen file :: key_calls ++ (OExec <$> pragmas))
              (open_call ok (OExec "PRAGMA locking_mode = EXCLUSIVE")
                 (if FLAGS_WAL_enabled F
                  then open_call ok (OExec "PRAGMA wal_autocheckpoint = 4096")
                         (open_call ok (OExec "PRAGMA journal_mode = WAL")
                            (if bool_decide (FLAGS_page_size F <> 1024)
                             then open_call ok (OExec page)
                                    (open_call ok (OExec cache) o)
                             else open_call ok (OExec cache) o))
                  else
                    if bool_decide (FLAGS_page_size F <> 1024)
                    then open_call ok (OExec page)
                           (open_call ok (OExec cache) o)
                    else open_call ok (OExec cache) o))) as Hrest.
  { intros o Ho. unfold pragmas.
    apply (opened_call ok _ (OExec cache)) in Ho.
    destruct (bool_decide (FLAGS_page_size F <> 1024)),
      (FLAGS_WAL_enabled F); cbn [app fmap list_fmap].
    - apply (opened_call ok _ (OExec page)) in Ho.
      apply (opened_call ok _ (OExec "PRAGMA journal_mode = WAL")) in Ho.
      apply (opened_call ok _ (OExec "PRAGMA wal_autocheckpoint = 4096")) in Ho.
      apply (opened_call ok _ (OExec "PRAGMA locking_mode = EXCLUSIVE")) in Ho.
      rewrite <- !app_assoc in Ho. exact Ho.
    - apply (opened_call ok _ (OExec page)) in Ho.
      apply (opened_call ok _ (OExec "PRAGMA locking_mode = EXCLUSIVE")) in Ho.
      rewrite <- !app_assoc in Ho. exact Ho.
    - apply (opened_call ok _ (OExec "PRAGMA journal_mode = WAL")) in Ho.
      apply (opened_call ok _ (OExec "PRAGMA wal_autocheckpoint = 4096")) in Ho.
      apply (opened_call ok _ (OExec "PRAGMA locking_mode = EXCLUSIVE")) in Ho.
      rewrite <- !app_assoc in Ho. exact Ho.
    - apply (opened_call ok _ (OExec "PRAGMA locking_mode = EXCLUSIVE")) in Ho.
      rewrite <- !app_assoc in Ho. exact Ho. }
  destruct (FLAGS_use_sqlcipher F) eqn:Hcipher;
    [destruct (FLAGS_key P) as [k|] eqn:Hkey|].
  - apply (opened_call ok _ (OKey k (Z.of_nat (String.length k)))) in Hopen.
    specialize (Hrest _ Hopen). revert Hrest.
    destruct (open_call ok _
                (if FLAGS_WAL_enabled F then _ else _)) as [log|[] log];
      cbn [opened];
      [intros H; split; [exact H|eauto]..|intros []].
  - clear Hopen Hrest. unfold open_call.
    destruct (ok (OOpen file)) eqn:Hok; cbn [app].
    + destruct (bool_decide (FLAGS_page_size F <> 1024)),
        (FLAGS_WAL_enabled F); cbn; done.
    + destruct (bool_decide (FLAGS_page_size F <> 1024)),
        (FLAGS_WAL_enabled F); cbn;
        (split; [|by eauto]);
        eexists [], (OOpen file), _; (split; [reflexivity|]);
        (split; [reflexivity|]); by split.
  - rewrite app_nil_r in Hrest. specialize (Hrest _ Hopen). revert Hrest.
    destruct (open_call ok _
                (if FLAGS_WAL_enabled F then _ else _)) as [log|[] log];
      cbn [opened];
      [intros H; split; [exact H|eauto]..|intros []].
Qed.

Lemma benchmark_open_first (F : Flags) (P : Paths) (ok : open_event -> bool) :
  exists rest,
    open_log (benchmark_open F P ok)
    = OOpen (snprintf100 (if FLAGS_use_existing_db F then FLAGS_db P
                          else FLAGS_db P +:+ "dbbench_sqlite3.db")) :: rest.
Proof.
  pose proof (benchmark_open_opened F P ok) as H. cbv zeta in H.
  replace (if FLAGS_use_existing_db F then snprintf100 (FLAGS_db P)
           else snprintf100 (FLAGS_db P +:+ "dbbench_sqlite3.db"))
    with (snprintf100 (if FLAGS_use_existing_db F then FLAGS_db P
                       else FLAGS_db P +:+ "dbbench_sqlite3.db")) in H
    by (by destruct (FLAGS_use_existing_db F)).
  destruct (benchmark_open F P ok) as [log|[] log]; cbn [open_log opened] in *.
  - destruct H as [[-> _] _]. eauto.
  - destruct H as [(good & e & rest & -> & Hplan & _) _].
    destruct good as [|g good]; cbn in Hplan; injection Hplan as <- _;
      cbn; eauto.
  - destruct H as (_ & _ & -> & _). eauto.
Qed.

(** X8: whatever the engine answers, [benchmark_open] first opens a file
    whose name is the path flag itself when an existing database is used
    and the path flag followed by [dbbench_sqlite3.db] otherwise, cut to the
    99 characters the buffer holds: a name that fits is kept whole, and a
    path flag of 99 characters or more is opened as its own first 99
    characters in both cases. *)
Theorem benchmark_open_file_name (F : Flags) (P : Paths)
  (ok : open_event -> bool) :
  let full := if FLAGS_use_existing_db F then FLAGS_db P
              else FLAGS_db P +:+ "dbbench_sqlite3.db" in
  exists file rest,
    open_log (benchmark_open F P ok) = OOpen file :: rest /\
    (String.length file <= 99)%nat /\
    file = if decide (String.length full <= 99)%nat then full
           else if decide (99 <= String.length (FLAGS_db P))%nat
                then String.substring 0 99 (FLAGS_db P)
                else String.substring 0 99 full.
Proof.
  intros full. destruct (benchmark_open_first F P ok) as [rest Hlog].
  exists (String.substring 0 99 full), rest. split; [exact Hlog|].
  split; [apply length_substring_0|].
  destruct (decide (String.length full <= 99)%nat) as [Hshort|Hlong].
  - by apply substring_0_short.
  - destruct (decide (99 <= String.length (FLAGS_db P))%nat) as [Hdb|Hdb];
      [|reflexivity].
    unfold full. destruct (FLAGS_use_existing_db F); [done|].
    by apply substring_0_append.
Qed.

(** X9: the calls of [benchmark_open] are, in this order, the open, the key
    with its length, only when SQLCipher is asked for, and the pragmas: the
    cache size first and the locking mode last, with the page size among
    them only when it is not 1024 and the two of the write-ahead log only
    when it is enabled.  [benchmark_open] returns exactly when the engine
    answers all of them with success and a key is there if SQLCipher is
    asked for.  At the first call that is answered otherwise it leaves with
    [exit(1)], and no later call is made.  With SQLCipher asked for and no
    key given it does not get past the open: [strlen] is handed a null
    pointer. *)
Theorem benchmark_open_calls (F : Flags) (P : Paths)
  (ok : open_event -> bool) :
  let file := if FLAGS_use_existing_db F then snprintf100 (FLAGS_db P)
              else snprintf100 (FLAGS_db P +:+ "dbbench_sqlite3.db") in
  let pragmas :=
    [snprintf100 ("PRAGMA cache_size = " +:+ pretty (FLAGS_num_pages F))]
    ++ (if bool_decide (FLAGS_page_size F <> 1024)
        then [snprintf100 ("PRAGMA page_size = "
                           +:+ pretty (FLAGS_page_size F))]
        else [])
    ++ (if FLAGS_WAL_enabled F
        then ["PRAGMA journal_mode = WAL"; "PRAGMA wal_autocheckpoint = 4096"]
        else [])
    ++ ["PRAGMA locking_mode = EXCLUSIVE"] in
  let key_calls :=
    if FLAGS_use_sqlcipher F
    then match FLAGS_key P with
         | Some k => [OKey k (Z.of_nat (String.length k))]
         | None => []
         end
    else [] in
  let calls := OOpen file :: key_calls ++ (OExec <$> pragmas) in
  match benchmark_open F P ok with
  | Going log =>
      log = calls /\ Forall (fun e => ok e = true) calls /\
      (FLAGS_use_sqlcipher F = false \/ is_Some (FLAGS_key P))
  | NotOpen ExitOne log =>
      exists good e rest,
        log = good ++ [e] /\ calls = log ++ rest /\
        Forall (fun e => ok e = true) good /\ ok e = false
  | NotOpen NullKey log =>
      FLAGS_use_sqlcipher F = true /\ FLAGS_key P = None /\
      log = [OOpen file] /\ ok (OOpen file) = true
  end.
Proof.
  intros file pragmas key_calls calls.
  pose proof (benchmark_open_opened F P ok) as H. cbv zeta in H.
  fold file pragmas key_calls calls in H.
  destruct (benchmark_open F P ok) as [log|[] log]; cbn [opened] in H.
  - destruct H as [[-> Hall] Hkey]. split; [reflexivity|].
    split; [exact Hall|].
    destruct Hkey as [Hkey|[Hkey|Hkey]]; [by left|by right|].
    apply Forall_cons in Hall as [Hopen _]. congruence.
  - by destruct H as [H _].
  - exact H.
Qed.

(** ** The table of workloads, as a table *)

(** X10: the chain of [strcmp] tests of [benchmark_run] is a lookup in the
    table of sixteen rows: a name of the table runs its row and is known,
    any other name is not known and is warned about unless it is empty. *)
Theorem run_workload_table (F : Flags) (W : World) (name : string) (b : Bench) :
  run_workload F W name b =
  match lookup_workload name with
  | Some w => run_described F W w b
  | None => Done (false,
                  if negb (String.eqb name "") then emit (EWarn name) b else b)
  end.
Proof.
  destruct (lookup_workload name) as [w|] eqn:Hw.
  - by apply run_workload_known.
  - by apply run_workload_unknown.
Qed.

(** ** Progress lines, one operation at a time *)

(** X11: between two operations the operation count is below the next
    threshold, and the threshold is a multiple of 100 and at most 100000
    ahead of the count.  As long as the threshold can be raised by 100000
    without leaving the range of [int], [finish_single_op] keeps that, adds
    one to the count and never lowers the threshold; it prints a progress
    line exactly when the count reaches the threshold, and the line then
    reports that threshold. *)
Theorem finish_single_op_progress (b : Bench) :
  report_inv b -> next_report_ b + 100000 < 2 ^ 31 ->
  report_inv (finish_single_op b) /\
  done_ (finish_single_op b) = done_ b + 1 /\
  next_report_ b <= next_report_ (finish_single_op b) /\
  log_ (finish_single_op b)
    = log_ b ++ (if decide (done_ b + 1 = next_report_ b)
                  then [EProgress (next_report_ b)] else []).
Proof. apply finish_single_op_facts. Qed.

(** The hundredth operation of a workload. *)
Lemma finish_single_op_progress_witness :
  let b := set_done 99 (start (benchmark_init init example_world)) in
  report_inv (finish_single_op b) /\
  done_ (finish_single_op b) = done_ b + 1 /\
  next_report_ b <= next_report_ (finish_single_op b) /\
  log_ (finish_single_op b)
    = log_ b ++ (if decide (done_ b + 1 = next_report_ b)
                  then [EProgress (next_report_ b)] else []).
Proof.
  apply (finish_single_op_progress
           (set_done 99 (start (benchmark_init init example_world)))).
  - unfold report_inv. cbn. split; [lia|]. split; [by exists 1|lia].
  - cbn. lia.
Defined.

(** ** What a workload leaves behind *)

(** X12: provided the engine answers every call with success, a name of the
    table runs as a known workload, whatever the flags and the state.  Its
    engine calls are those of its row before and after at most one chunk,
    of the count or of [MAXNUMPERTIME] entries if the count is above it; the
    chunk makes one call for each of its entries, in order, after the begin
    of one transaction; where the counters have room every call is counted
    and paid for with the bytes of the row; the PRNG moves by the keys of
    the chunk.  If the batch size of the row divides the chunk, the
    transaction is ended, the clock has been read twice, the difference of
    the readings is added to the time and the workload returns.  If it does
    not, the batch loops go on to read outside the key batch and the
    workload does not return.  With a count that is not positive the
    workload returns and nothing of this moves. *)
Theorem known_workload_outcome (F : Flags) (W : World) (name : string)
  (w : workload) (b : Bench) :
  lookup_workload name = Some w ->
  exists r evs,
    run_workload F W name b = (b' ← r; Done (true, b')) /\
    outcome F W (w_kind w) (w_order w) (workload_value_size F w) (w_batch w)
      (workload_count w b) (workload_prelude w) (workload_finale F w)
      b r evs /\
    ending r = if decide (fits (w_batch w) (workload_count w b))
               then None else Some OutOfBounds.
Proof.
  intros Hw.
  destruct (run_described_outcome F W name w b Hw)
    as (r & evs & Hd & Hout & _).
  exists r, evs. split; [by rewrite (run_workload_known F W name w b Hw)|].
  split; [exact Hout|].
  destruct (outcome_keys _ _ _ _ _ _ _ _ _ _ _ _
              (key_sequence_prelude w) (key_sequence_finale F w) Hout)
    as (_ & _ & ->).
  unfold fits.
  destruct (decide (0 < workload_count w b)) as [Hpos|Hneg].
  - destruct (decide (w_batch w | _)) as [Hdiv|Hnot].
    + rewrite decide_True by (by right). reflexivity.
    + rewrite decide_False by (intros [?|?]; [lia|done]). reflexivity.
  - rewrite decide_True by (left; lia). reflexivity.
Qed.

(** Three entries of [fillrandbatch]: reads outside the batch. *)
Lemma known_workload_outcome_witness :
  let F := main_flags [ArgNum 3] in
  let b := benchmark_init F example_world in
  let w := Build_workload KWrite false RANDOM false false 1000 in
  exists r evs,
    run_workload F example_world "fillrandbatch" b
    = (b' ← r; Done (true, b')) /\
    outcome F example_world (w_kind w) (w_order w) (workload_value_size F w)
      (w_batch w) (workload_count w b) (workload_prelude w)
      (workload_finale F w) b r evs /\
    ending r = if decide (fits (w_batch w) (workload_count w b))
               then None else Some OutOfBounds.
Proof.
  apply (known_workload_outcome (main_flags [ArgNum 3]) example_world
           "fillrandbatch").
  reflexivity.
Defined.

Lemma op_indices_workload (F : Flags) (w : workload) :
  op_indices (workload_prelude w) = [] /\
  op_indices (workload_finale F w) = [].
Proof.
  unfold workload_prelude, workload_finale.
  by destruct (w_kind w), (FLAGS_WAL_enabled F).
Qed.

Lemma started_room (b b0 : Bench) (evs : list event) (n : Z) :
  started b b0 evs -> n <= MAXNUMPERTIME -> counters_room n b0.
Proof.
  intros (_ & _ & _ & _ & _ & _ & Hd & Hn & _) Hle.
  unfold counters_room, report_inv. rewrite Hd, Hn.
  unfold MAXNUMPERTIME in Hle.
  split; [|lia]. split; [lia|]. split; [by exists 1|lia].
Qed.

Section Summaries.

Variable F : Flags.
Variable W : World.

(** A name of the table whose workload stays inside its batches, up to
    [stop]. *)
Lemma run_name_account (name : string) (w : workload) (b : Bench) :
  lookup_workload name = Some w ->
  fits (w_batch w) (workload_count w b) ->
  let n := Z.max 0 (Z.min (workload_count w b) MAXNUMPERTIME) in
  exists b1 evs,
    run_name F W name b = Done (stop W name b1) /\
    batch_indices n (w_batch w) = Some (seqZ 0 n) /\
    log_ b1 = log_ b ++ evs /\
    op_indices evs = seqZ 0 n /\
    Forall (fun e => is_notice e = false) evs /\
    done_ b1 = n /\
    (n * Z.abs (workload_cost (w_kind w) (workload_value_size F w)) < 2 ^ 63 ->
     bytes_ b1 = n * workload_cost (w_kind w) (workload_value_size F w)) /\
    op_total_time_ b1
    = (if decide (0 < workload_count w b)
       then round53 (chunk_time W (ticks_ b)) else 0) /\
    message_ b1
    = match w_kind w with
      | KWrite =>
          if bool_decide (workload_count w b <> num_ b)
          then "(" +:+ pretty (workload_count w b) +:+ " ops)"
          else ""
      | _ => ""
      end.
Proof.
  intros Hw Hfits n.
  destruct (lookup_row_batch name w Hw) as [He _].
  destruct (run_name_known F W name w b Hw)
    as (b0 & r & evs & Hs & Hout & Hm & Hrun).
  pose proof (outcome_done _ _ _ _ _ _ _ _ _ _ _ _ Hout Hfits) as Hdone.
  destruct r as [b1|h b1]; [clear Hdone|discriminate Hdone].
  unfold outcome in Hout. cbn [mbind result_bind reached] in Hrun, Hout, Hm.
  pose proof (started_room b b0 _ (Z.min (workload_count w b) MAXNUMPERTIME)
                Hs (Z.le_min_r _ _)) as Hroom.
  destruct Hs as (Hl0 & _ & _ & _ & _ & Htk0 & Hd0 & _ & Hb0 & Ht0 & _).
  destruct Hout as (Hl & _ & _ & _ & Hq & Hrest).
  destruct (op_indices_workload F w) as [Hpre Hpost].
  set (cre := if (if_create_database name b).1 then [EExec create_stmt]
              else []) in *.
  assert (op_indices cre = [] /\ Forall (fun e => is_notice e = false) cre)
    as [Hcre Hqcre]
    by (unfold cre; destruct (if_create_database name b).1;
        split; by repeat constructor).
  exists b1, (cre ++ evs). split; [exact Hrun|].
  destruct (decide (0 < workload_count w b)) as [Hpos|Hneg].
  - assert (n = Z.min (workload_count w b) MAXNUMPERTIME) as Hn
      by (unfold n, MAXNUMPERTIME; lia).
    rewrite Hn. set (m := Z.min (workload_count w b) MAXNUMPERTIME) in *.
    assert (0 < m) as Hm0 by (unfold m, MAXNUMPERTIME; lia).
    destruct Hfits as [?|Hdiv]; [lia|]. fold m in Hdiv.
    destruct Hrest as (values & _ & _ & Hcount & Hrest).
    rewrite decide_True in Hrest by exact Hdiv.
    destruct Hrest as (_ & Hops & _ & Htime).
    destruct (Hcount Hroom) as (Hd & Hb & _).
    split; [by apply batch_indices_divides|].
    split; [by rewrite Hl, Hl0, <- app_assoc|].
    split.
    { rewrite op_indices_app, Hcre, <- op_indices_db_ops, Hops.
      rewrite !op_indices_app, Hpre, Hpost, app_nil_r. cbn [app].
      apply op_indices_bracket. intros i. apply op_index_workload_call. }
    split; [by apply Forall_app|].
    split; [rewrite Hd, Hd0; lia|].
    split.
    { intros Hby. rewrite Hb, Hb0; [lia|].
      unfold bytes_room. rewrite Hb0. cbn [Z.abs]. lia. }
    split; [by rewrite Htime, Ht0, Htk0, Z.add_0_l|exact Hm].
  - assert (n = 0) as -> by (unfold n, MAXNUMPERTIME; lia).
    destruct Hrest as (_ & Hops & Hd & Hb & _ & _ & Htime & _).
    split.
    { unfold batch_indices. by rewrite batch_loop_step, decide_False by lia. }
    split; [by rewrite Hl, Hl0, <- app_assoc|].
    split.
    { rewrite op_indices_app, Hcre, <- op_indices_db_ops, Hops.
      by rewrite op_indices_app, Hpre, Hpost. }
    split; [by apply Forall_app|].
    split; [by rewrite Hd, Hd0|].
    split; [intros _; by rewrite Hb, Hb0|].
    split; [by rewrite Htime, Ht0|exact Hm].
Qed.

End Summaries.

(** X13: provided the engine answers every call with success, a name of the
    table whose batch size divides its chunk prints one summary, as the last
    line of its turn and after the operations at the indices of the batch
    loops of its chunk, which are the indices 0, 1, ... of the chunk.  The
    operation count in the summary is the number of these indices, and 1
    when there is none; the time is the difference of the two clock readings
    of the chunk, each reading and the difference rounded to a [double], and
    0 when no chunk ran. *)
Theorem run_name_summary (F : Flags) (W : World) (name : string)
  (w : workload) (b : Bench) :
  lookup_workload name = Some w ->
  fits (w_batch w) (workload_count w b) ->
  let n := Z.max 0 (Z.min (workload_count w b) MAXNUMPERTIME) in
  exists b' evs,
    run_name F W name b = Done b' /\
    batch_indices n (w_batch w) = Some (seqZ 0 n) /\
    op_indices evs = seqZ 0 n /\
    Forall (fun e => is_notice e = false) evs /\
    log_ b'
      = log_ b ++ evs
        ++ [ESummary name
              (if decide (0 < workload_count w b)
               then round53 (chunk_time W (ticks_ b)) else 0)
              (Z.max 1 n)].
Proof.
  intros Hw Hfits n.
  destruct (run_name_account F W name w b Hw Hfits)
    as (b1 & evs & Hrun & Hidx & Hlog & Hops & Hq & Hd & _ & Ht & _).
  destruct (stop_effect W name b1) as (Hl & _).
  exists (stop W name b1), evs.
  split; [exact Hrun|]. split; [exact Hidx|]. split; [exact Hops|].
  split; [exact Hq|]. by rewrite Hl, Hlog, Ht, Hd, <- app_assoc.
Qed.

(** Two thousand entries of [fillseqbatch]. *)
Lemma run_name_summary_witness :
  let F := main_flags [ArgNum 2000] in
  let W := example_world in
  let b := benchmark_init F W in
  let w := Build_workload KWrite false SEQUENTIAL false false 1000 in
  let n := Z.max 0 (Z.min (workload_count w b) MAXNUMPERTIME) in
  exists b' evs,
    run_name F W "fillseqbatch" b = Done b' /\
    batch_indices n (w_batch w) = Some (seqZ 0 n) /\
    op_indices evs = seqZ 0 n /\
    Forall (fun e => is_notice e = false) evs /\
    log_ b'
      = log_ b ++ evs
        ++ [ESummary "fillseqbatch"
              (if decide (0 < workload_count w b)
               then round53 (chunk_time W (ticks_ b)) else 0)
              (Z.max 1 n)].
Proof.
  apply (run_name_summary (main_flags [ArgNum 2000]) example_world
           "fillseqbatch").
  - reflexivity.
  - apply (bool_decide_unpack _). vm_compute. exact I.
Defined.

(** X14: provided the engine answers every call with success, after a name
    of the table whose batch size divides its chunk the bytes recorded are
    the value size and [sizeof(int)] for each operation of a write workload,
    the value size flag being an [int]; a read or a delete workload records
    none, so that [stop] adds no rate and the message stays empty. *)
Theorem run_name_bytes (F : Flags) (W : World) (name : string)
  (w : workload) (b : Bench) :
  lookup_workload name = Some w ->
  fits (w_batch w) (workload_count w b) ->
  - 2 ^ 31 <= FLAGS_value_size F < 2 ^ 31 ->
  let n := Z.max 0 (Z.min (workload_count w b) MAXNUMPERTIME) in
  exists b',
    run_name F W name b = Done b' /\
    batch_indices n (w_batch w) = Some (seqZ 0 n) /\
    bytes_ b' = match w_kind w with
                | KWrite => n * (workload_value_size F w + sizeof_int)
                | _ => 0
                end /\
    match w_kind w with
    | KWrite => True
    | _ => message_ b' = ""
    end.
Proof.
  intros Hw Hfits Hint n.
  destruct (run_name_account F W name w b Hw Hfits)
    as (b1 & evs & Hrun & Hidx & _ & _ & _ & _ & Hb & _ & Hm).
  fold n in Hidx, Hb.
  destruct (stop_effect W name b1) as (_ & _ & Hbytes & _ & Hmsg & _).
  exists (stop W name b1).
  split; [exact Hrun|]. split; [exact Hidx|].
  assert (0 <= n <= 500000) as Hn by (unfold n, MAXNUMPERTIME; lia).
  assert (Z.abs (workload_cost (w_kind w) (workload_value_size F w))
          <= 2 ^ 31 + 4) as Hcost.
  { unfold workload_cost, workload_value_size, sizeof_int.
    destruct (w_kind w), (w_large w); lia. }
  assert (n * Z.abs (workload_cost (w_kind w) (workload_value_size F w))
          <= 500000 * (2 ^ 31 + 4)) as Hprod
    by (apply Z.mul_le_mono_nonneg; lia).
  specialize (Hb ltac:(lia)).
  revert Hb Hm. unfold workload_cost.
  destruct (w_kind w); intros Hb Hm; (split; [rewrite Hbytes, Hb; lia|]);
    try exact I; rewrite Hmsg by lia; exact Hm.
Qed.

(** Five entries of [fillrandom], of 128 bytes each. *)
Lemma run_name_bytes_witness :
  let F := main_flags [ArgNum 5] in
  let W := example_world in
  let b := benchmark_init F W in
  let w := Build_workload KWrite false RANDOM false false 1 in
  let n := Z.max 0 (Z.min (workload_count w b) MAXNUMPERTIME) in
  exists b',
    run_name F W "fillrandom" b = Done b' /\
    batch_indices n (w_batch w) = Some (seqZ 0 n) /\
    bytes_ b' = match w_kind w with
                | KWrite => n * (workload_value_size F w + sizeof_int)
                | _ => 0
                end /\
    match w_kind w with
    | KWrite => True
    | _ => message_ b' = ""
    end.
Proof.
  apply (run_name_bytes (main_flags [ArgNum 5]) example_world "fillrandom").
  - reflexivity.
  - apply (bool_decide_unpack _). vm_compute. exact I.
  - cbn. lia.
Defined.
(** ** The whole list of names *)

Lemma txn_check_db_ops (txn : bool) (l : list event) : forall inside,
  txn_check txn inside (db_ops l) = txn_check txn inside l.
Proof.
  induction l as [|e l IH]; intros inside; [reflexivity|].
  destruct e; cbn; rewrite ?IH; try reflexivity;
    destruct inside, txn; cbn; by rewrite ?IH.
Qed.

Lemma txn_check_app (txn : bool) (l1 l2 : list event) : forall inside inside',
  txn_check txn inside l1 = Some inside' ->
  txn_check txn inside (l1 ++ l2) = txn_check txn inside' l2.
Proof.
  induction l1 as [|e l1 IH]; intros inside inside'.
  - cbn. by intros [= ->].
  - destruct e; cbn; try apply IH; destruct inside, txn; cbn;
      try discriminate; apply IH.
Qed.

Lemma txn_check_calls (txn inside : bool) (k : kind) (keys values : list Z)
  (value_size : Z) (idxs : list Z) :
  txn && negb inside = false ->
  txn_check txn inside (workload_call k keys values value_size <$> idxs)
  = Some inside.
Proof.
  intros H. induction idxs as [|i idxs IH]; [reflexivity|].
  destruct k; cbn; by rewrite H.
Qed.

Lemma txn_check_bracket (txn : bool) (k : kind) (keys values : list Z)
  (value_size : Z) (idxs : list Z) :
  txn_check txn false
    (bracket txn (workload_call k keys values value_size <$> idxs))
  = Some false.
Proof.
  unfold bracket. destruct txn; cbn.
  - rewrite (txn_check_app _ _ _ true true); [reflexivity|].
    by apply txn_check_calls.
  - rewrite app_nil_r. by apply txn_check_calls.
Qed.

Lemma txn_check_workload (F : Flags) (txn : bool) (w : workload) :
  txn_check txn false (workload_prelude w) = Some false /\
  txn_check txn false (workload_finale F w) = Some false.
Proof.
  unfold workload_prelude, workload_finale.
  destruct (w_kind w), (FLAGS_WAL_enabled F); done.
Qed.

Lemma filter_notice_none (l : list event) :
  Forall (fun e => is_notice e = false) l -> List.filter is_notice l = [].
Proof.
  induction 1 as [|e l He _ IH]; [reflexivity|]. cbn. by rewrite He.
Qed.

Lemma filter_checkpoint_db_ops (l : list event) :
  List.filter is_checkpoint (db_ops l) = List.filter is_checkpoint l.
Proof.
  induction l as [|e l IH]; [reflexivity|].
  unfold db_ops in *. destruct e; cbn; by rewrite ?IH.
Qed.

Lemma filter_checkpoint_bracket (txn : bool) (k : kind) (keys values : list Z)
  (value_size : Z) (idxs : list Z) :
  List.filter is_checkpoint
    (bracket txn (workload_call k keys values value_size <$> idxs)) = [].
Proof.
  assert (List.filter is_checkpoint
            (workload_call k keys values value_size <$> idxs) = []) as H.
  { induction idxs as [|i idxs IH]; [reflexivity|]. by destruct k. }
  unfold bracket. rewrite !List.filter_app, H. by destruct txn.
Qed.


(** Whether a workload returns. *)
Lemma outcome_ending (F : Flags) (W : World) (k : kind) (order : Order)
  (value_size entries_per_batch count : Z) (pre post : list event)
  (b : Bench) (r : result Bench) (evs : list event) :
  outcome F W k order value_size entries_per_batch count pre post b r evs ->
  ending r = if decide (fits entries_per_batch count) then None
             else Some OutOfBounds.
Proof.
  intros (_ & _ & _ & _ & _ & Hrest). unfold fits.
  destruct (decide (0 < count)) as [Hpos|Hneg].
  - destruct Hrest as (values & _ & _ & _ & Hrest).
    destruct (decide (entries_per_batch | _)) as [Hdiv|Hnot];
      destruct Hrest as (-> & _); cbn [ending].
    + rewrite decide_True by (by right). reflexivity.
    + rewrite decide_False by (intros [?|?]; [lia|done]). reflexivity.
  - destruct Hrest as (-> & _). rewrite decide_True by (left; lia).
    reflexivity.
Qed.

Lemma completed_counts (b b' : Bench) (names : list string) :
  counts_kept b b' -> completed b' names = completed b names.
Proof.
  intros [Hn Hr]. induction names as [|name names IH]; [reflexivity|].
  cbn [completed]. rewrite IH.
  assert (name_fits b' name <-> name_fits b name) as Hiff.
  { unfold name_fits, workload_count. by rewrite Hn, Hr. }
  destruct (decide (name_fits b name)), (decide (name_fits b' name));
    tauto || reflexivity.
Qed.

Section Lists.

Variable F : Flags.
Variable W : World.

(** What one name adds to the log. *)
Lemma run_name_log (name : string) (b : Bench) :
  let r := run_name F W name b in
  let fit := bool_decide (name_fits b name) in
  exists evs,
    log_ (reached r) = log_ b ++ evs /\
    ending r = (if fit then None else Some OutOfBounds) /\
    txn_check (FLAGS_transaction F) false evs
    = Some (if fit then false else FLAGS_transaction F) /\
    Forall progress_ok evs /\
    Forall2 notice_of (if fit && negb (String.eqb name "") then [name] else [])
      (List.filter is_notice evs) /\
    (if fit && FLAGS_WAL_enabled F && checkpointed name
     then List.filter is_checkpoint evs = [ECheckpoint] /\
          last (db_ops evs) = Some ECheckpoint /\
          exists total done, last evs = Some (ESummary name total done)
     else List.filter is_checkpoint evs = []).
Proof.
  intros r fit. unfold r, fit. clear r fit.
  destruct (lookup_workload name) as [w|] eqn:Hw.
  - destruct (lookup_row_batch name w Hw) as [He _].
    destruct (run_name_known F W name w b Hw)
      as (b0 & r & evs & Hs & Hout & _ & ->).
    destruct (stop_after W name r) as (Hend & _ & _ & _ & _ & Hlog).
    pose proof (outcome_ending _ _ _ _ _ _ _ _ _ _ _ _ Hout) as Hr.
    pose proof (started_room b b0 _ (Z.min (workload_count w b) MAXNUMPERTIME)
                  Hs (Z.le_min_r _ _)) as Hroom.
    destruct Hs as (Hl0 & _).
    destruct (txn_check_workload F (FLAGS_transaction F) w) as [Htpre Htpost].
    set (cre := if (if_create_database name b).1 then [EExec create_stmt]
                else []) in *.
    assert (txn_check (FLAGS_transaction F) false cre = Some false /\
            Forall progress_ok cre /\ List.filter is_notice cre = [] /\
            List.filter is_checkpoint cre = [])
      as (Htcre & Hpcre & Hncre & Hccre)
      by (unfold cre; destruct (if_create_database name b).1;
          repeat split; by repeat constructor).
    assert (name <> "") as Hne.
    { intros ->. by rewrite lookup_workload_empty in Hw. }
    apply String.eqb_neq in Hne. rewrite Hne, Hend, Hr, Hlog. cbn [negb].
    assert (name_fits b name <-> fits (w_batch w) (workload_count w b))
      as Hfit by (unfold name_fits; by rewrite Hw).
    assert (checkpointed name
            = match w_kind w with KRead => false | _ => true end) as Hcp
      by (unfold checkpointed; by rewrite Hw).
    destruct Hout as (Hl & _ & _ & _ & Hq & Hrest).
    pose proof (filter_notice_none evs Hq) as Hnone.
    destruct (decide (fits (w_batch w) (workload_count w b))) as [Hfits|Hnot].
    + rewrite bool_decide_true by (by apply Hfit).
      rewrite Hr. cbn [andb].
      set (sum := ESummary name _ _).
      assert (exists mid,
                db_ops evs = workload_prelude w ++ mid ++ workload_finale F w /\
                txn_check (FLAGS_transaction F) false mid = Some false /\
                List.filter is_checkpoint mid = [] /\
                Forall progress_ok evs) as (mid & Hops & Htmid & Hcmid & Hp).
      { destruct (decide (0 < workload_count w b)) as [Hpos|Hneg].
        - destruct Hfits as [?|Hdiv]; [lia|].
          destruct Hrest as (values & _ & _ & Hcount & Hrest).
          rewrite decide_True in Hrest by exact Hdiv.
          destruct Hrest as (_ & Hops & _).
          destruct (Hcount Hroom) as (_ & _ & Hp).
          eexists. split; [exact Hops|].
          split; [apply txn_check_bracket|].
          split; [apply filter_checkpoint_bracket|exact Hp].
        - destruct Hrest as (_ & Hops & _ & _ & _ & _ & _ & Hp).
          exists []. by split. }
      exists (cre ++ evs ++ [sum]).
      split; [by rewrite Hl, Hl0, <- !app_assoc|].
      split; [reflexivity|]. split; [|split; [|split]].
      * rewrite (txn_check_app _ cre _ false false Htcre).
        rewrite (txn_check_app _ evs _ false false); [reflexivity|].
        rewrite <- txn_check_db_ops, Hops.
        rewrite (txn_check_app _ _ _ false false Htpre).
        by rewrite (txn_check_app _ _ _ false false Htmid).
      * apply Forall_app. split; [exact Hpcre|].
        apply Forall_app. split; [exact Hp|]. by repeat constructor.
      * rewrite !List.filter_app, Hncre, Hnone. cbn.
        constructor; [|constructor].
        unfold notice_of. rewrite Hw. eexists _, _. split; [reflexivity|lia].
      * rewrite !List.filter_app, Hccre, <- (filter_checkpoint_db_ops evs), Hops.
        rewrite !List.filter_app, Hcmid.
        replace (List.filter is_checkpoint (workload_prelude w))
          with (@nil event)
          by (unfold workload_prelude; by destruct (w_kind w)).
        cbn [app List.filter is_checkpoint sum]. rewrite app_nil_r.
        rewrite !db_ops_app, Hops.
        replace (db_ops [sum]) with (@nil event) by reflexivity.
        rewrite app_nil_r, Hcp. unfold workload_finale.
        destruct (FLAGS_WAL_enabled F), (w_kind w); cbn [andb];
          try reflexivity;
          (split; [reflexivity|]);
          (split; [rewrite !app_assoc; apply last_snoc|]);
          eexists _, _; rewrite (app_assoc cre evs); apply last_snoc.
    + rewrite bool_decide_false by (by rewrite Hfit).
      rewrite Hr. cbn [andb].
      unfold fits in Hnot.
      rewrite decide_True in Hrest by lia.
      destruct Hrest as (values & _ & _ & Hcount & Hrest).
      rewrite decide_False in Hrest by (intros ?; apply Hnot; by right).
      destruct Hrest as (_ & Hops & _).
      destruct (Hcount Hroom) as (_ & _ & Hp).
      exists (cre ++ evs). rewrite app_nil_r.
      split; [by rewrite Hl, Hl0, <- !app_assoc|].
      split; [reflexivity|]. split; [|split; [|split]].
      * rewrite (txn_check_app _ cre _ false false Htcre).
        rewrite <- txn_check_db_ops, Hops.
        rewrite (txn_check_app _ _ _ false false Htpre).
        destruct (FLAGS_transaction F); cbn [app txn_check];
          by apply txn_check_calls.
      * by apply Forall_app.
      * rewrite !List.filter_app, Hncre, Hnone. constructor.
      * rewrite !List.filter_app, Hccre, <- (filter_checkpoint_db_ops evs), Hops.
        rewrite !List.filter_app.
        replace (List.filter is_checkpoint (workload_prelude w))
          with (@nil event)
          by (unfold workload_prelude; by destruct (w_kind w)).
        pose proof (filter_checkpoint_bracket false (w_kind w)
                      (gen_key
                         (fresh_array
                            (Z.min (workload_count w b) MAXNUMPERTIME))
                         (Z.min (workload_count w b) MAXNUMPERTIME)
                         (w_order w) (rand_ b0)).1
                      values (workload_value_size F w)
                      (seqZ 0 (Z.min (workload_count w b) MAXNUMPERTIME)))
          as Hcalls.
        unfold bracket in Hcalls. cbn [app] in Hcalls.
        rewrite app_nil_r in Hcalls. rewrite Hcalls.
        by destruct (FLAGS_transaction F).
  - destruct (run_name_unknown F W name b Hw) as (b' & -> & Hl & _).
    assert (name_fits b name) as Hfit by (unfold name_fits; by rewrite Hw).
    rewrite bool_decide_true by exact Hfit.
    exists (if decide (name = "") then [] else [EWarn name]).
    split; [exact Hl|]. split; [reflexivity|].
    unfold checkpointed. rewrite Hw, andb_false_r.
    destruct (String.eqb_spec name "") as [->|Hne].
    + rewrite decide_True by done. cbn. repeat split; constructor.
    + rewrite decide_False by done. cbn.
      repeat split; try by repeat constructor.
      constructor; [|constructor]. unfold notice_of. by rewrite Hw.
Qed.

(** What the list of names adds to the log. *)
Lemma run_names_log (names : list string) : forall b,
  let r := run_names F W names b in
  let fit := bool_decide (completed b names = names) in
  exists evs,
    log_ (reached r) = log_ b ++ evs /\
    ending r = (if fit then None else Some OutOfBounds) /\
    txn_check (FLAGS_transaction F) false evs
    = Some (if fit then false else FLAGS_transaction F) /\
    Forall progress_ok evs /\
    Forall2 notice_of (filter (fun name => name <> "") (completed b names))
      (List.filter is_notice evs) /\
    length (List.filter is_checkpoint evs)
    = (if FLAGS_WAL_enabled F
       then length (List.filter checkpointed (completed b names)) else 0)%nat.
Proof.
  induction names as [|name names IH]; intros b; cbv zeta.
  - exists []. cbn. rewrite app_nil_r.
    repeat split; try constructor. by destruct (FLAGS_WAL_enabled F).
  - destruct (run_name_log name b) as (e1 & Hl1 & Hr1 & Ht1 & Hp1 & Hn1 & Hc1).
    pose proof (run_name_counts F W name b) as Hcounts.
    cbn [run_names completed].
    destruct (decide (name_fits b name)) as [Hfit|Hnot].
    + rewrite bool_decide_true in Hr1, Ht1, Hn1, Hc1 by exact Hfit.
      cbn [andb] in *.
      destruct (run_name F W name b) as [b1|h b1]; [|discriminate Hr1].
      cbn [mbind result_bind reached] in *.
      destruct (IH b1) as (e2 & Hl2 & Hr2 & Ht2 & Hp2 & Hn2 & Hc2).
      rewrite (completed_counts b b1 names Hcounts) in Hr2, Ht2, Hn2, Hc2.
      assert (bool_decide (name :: completed b names = name :: names)
              = bool_decide (completed b names = names)) as ->.
      { apply bool_decide_ext. split; [by intros [= ->]|by intros ->]. }
      exists (e1 ++ e2).
      split; [by rewrite Hl2, Hl1, app_assoc|]. split; [exact Hr2|].
      split; [by rewrite (txn_check_app _ _ _ false false Ht1)|].
      split; [by apply Forall_app|]. split.
      * rewrite List.filter_app, filter_cons.
        destruct (String.eqb_spec name "") as [->|Hne]; cbn [negb] in Hn1.
        -- rewrite decide_False by (by intros H; apply H).
           apply Forall2_nil_inv_l in Hn1. by rewrite Hn1.
        -- rewrite decide_True by done.
           change (name :: ?l) with ([name] ++ l). by apply Forall2_app.
      * rewrite List.filter_app, length_app, Hc2. cbn [List.filter].
        destruct (FLAGS_WAL_enabled F), (checkpointed name); cbn [andb] in Hc1;
          [destruct Hc1 as [Hc1 _]| | |]; rewrite Hc1; cbn; lia.
    + rewrite bool_decide_false in Hr1, Ht1, Hn1, Hc1 by exact Hnot.
      cbn [andb] in *.
      destruct (run_name F W name b) as [b1|h b1]; [discriminate Hr1|].
      cbn [mbind result_bind reached ending] in *.
      rewrite bool_decide_false by discriminate.
      exists e1. split; [exact Hl1|]. split; [exact Hr1|].
      split; [exact Ht1|]. split; [exact Hp1|].
      split; [exact Hn1|]. rewrite Hc1. by destruct (FLAGS_WAL_enabled F).
Qed.

End Lists.

Lemma completed_all (b : Bench) (names : list string) :
  completed b names = names <-> Forall (name_fits b) names.
Proof.
  induction names as [|name names IH]; [by split; [constructor|]|].
  cbn [completed]. rewrite Forall_cons, <- IH.
  destruct (decide (name_fits b name)); [|by split; [|intros []]].
  split; [by intros [= ->]|by intros [_ ->]].
Qed.

(** X15: provided the engine answers every call with success, the
    transactions of the log of every run are in order, whatever the command
    line and the world: no begin inside a transaction, no end outside one,
    no pragma, prepare, finalize or checkpoint inside one and, unless
    [--no_transaction] is given, no operation on an entry outside one.  The
    log of a run that returns ends outside a transaction; a run that is cut
    short by a read outside a key batch ends inside the transaction of that
    chunk, if transactions are on. *)
Theorem main_transactions_in_order (argv : list arg) (W : World) :
  let r := main argv W in
  txn_check (FLAGS_transaction (main_flags argv)) false (log_ (reached r))
  = Some (match ending r with
          | None => false
          | Some _ => FLAGS_transaction (main_flags argv)
          end).
Proof.
  unfold main, benchmark_run.
  destruct (run_names_log (main_flags argv) W
              (split_names (FLAGS_benchmarks (main_flags argv)))
              (benchmark_init (main_flags argv) W))
    as (evs & Hl & Hr & Ht & _).
  cbv zeta. rewrite Hl, Hr.
  change (log_ (benchmark_init (main_flags argv) W)) with (@nil event).
  cbn [app]. rewrite Ht. by destruct (bool_decide _).
Qed.

(** X16: every progress line of a run reports a positive multiple of 100
    operations, whether the run returns or is cut short: the thresholds
    start at 100 with each workload and grow by multiples of 100, and no
    workload counts far enough for an [int] to wrap around. *)
Theorem main_progress_lines (argv : list arg) (W : World) :
  Forall progress_ok (log_ (reached (main argv W))).
Proof.
  unfold main, benchmark_run.
  destruct (run_names_log (main_flags argv) W
              (split_names (FLAGS_benchmarks (main_flags argv)))
              (benchmark_init (main_flags argv) W))
    as (evs & Hl & _ & _ & Hp & _).
  rewrite Hl. by apply Forall_app.
Qed.

(** X17: provided the engine answers every call with success, a list of
    names returns exactly when the workload of every name stays inside its
    batches, and is cut short at the first name whose workload does not.
    The summaries and warnings are one line for each name before that one
    that is not empty, in the order of the names: the summary of the
    workload, with at least one operation counted, for a name of the table,
    and the warning for any other; the workload that is cut short prints no
    summary. *)
Theorem run_names_notices (F : Flags) (W : World) (names : list string)
  (b : Bench) :
  let r := run_names F W names b in
  exists evs,
    log_ (reached r) = log_ b ++ evs /\
    Forall2 notice_of (filter (fun name => name <> "") (completed b names))
      (List.filter is_notice evs) /\
    ending r = (if decide (Forall (name_fits b) names) then None
                else Some OutOfBounds).
Proof.
  destruct (run_names_log F W names b) as (evs & Hl & Hr & _ & _ & Hn & _).
  exists evs. split; [exact Hl|]. split; [exact Hn|]. cbv zeta. rewrite Hr.
  destruct (decide (Forall (name_fits b) names)) as [Hall|Hnot].
  - by rewrite bool_decide_true by (by apply completed_all).
  - by rewrite bool_decide_false by (by rewrite completed_all).
Qed.

(** X18: provided the engine answers every call with success, the turn of a
    name is checkpointed exactly when WAL is enabled, the name is a write or
    a delete workload and the workload stays inside its batches; the
    checkpoint is then the last engine call of the turn, after the
    finalizes and before the summary, and the only checkpoint of the turn.
    The log of a list of names holds one checkpoint for each such name
    before the first whose workload does not stay inside its batches. *)
Theorem run_names_checkpoints (F : Flags) (W : World) (names : list string)
  (name : string) (b : Bench) :
  (exists evs,
     log_ (reached (run_name F W name b)) = log_ b ++ evs /\
     if bool_decide (name_fits b name) && FLAGS_WAL_enabled F
        && checkpointed name
     then List.filter is_checkpoint evs = [ECheckpoint] /\
          last (db_ops evs) = Some ECheckpoint /\
          exists total done, last evs = Some (ESummary name total done)
     else List.filter is_checkpoint evs = []) /\
  (exists evs,
     log_ (reached (run_names F W names b)) = log_ b ++ evs /\
     length (List.filter is_checkpoint evs)
     = (if FLAGS_WAL_enabled F
        then length (List.filter checkpointed (completed b names))
        else 0)%nat).
Proof.
  split.
  - destruct (run_name_log F W name b) as (evs & Hl & _ & _ & _ & _ & Hc).
    by exists evs.
  - destruct (run_names_log F W names b) as (evs & Hl & _ & _ & _ & _ & Hc).
    by exists evs.
Qed.

Section EmptyNames.

Variable F : Flags.
Variable W : World.

Lemma run_name_restart (name : string) (b : Bench) :
  run_name F W name (start (set_bytes 0 b)) = run_name F W name b.
Proof.
  unfold run_name, if_create_database. cbn.
  destruct (bool_decide _ && negb (created_ b)); reflexivity.
Qed.

Lemma run_name_empty (b : Bench) :
  run_name F W "" b = Done (start (set_bytes 0 b)).
Proof.
  unfold run_name.
  rewrite (if_create_database_unknown "" b lookup_workload_empty).
  by rewrite (run_workload_unknown F W "" _ lookup_workload_empty).
Qed.

Lemma run_names_restart (names : list string) (b : Bench) :
  ending (run_names F W names (start (set_bytes 0 b)))
  = ending (run_names F W names b) /\
  log_ (reached (run_names F W names (start (set_bytes 0 b))))
  = log_ (reached (run_names F W names b)).
Proof.
  destruct names as [|name names]; [by split|].
  cbn [run_names]. by rewrite run_name_restart.
Qed.

End EmptyNames.

(** X19: empty names, such as the one after the comma that ends the default
    list, change nothing in the log: a list of names and the same list
    without its empty names end in the same way and leave the same log. *)
Theorem empty_names_skipped (F : Flags) (W : World) (names : list string)
  (b : Bench) :
  ending (run_names F W (filter (fun name => name <> "") names) b)
  = ending (run_names F W names b) /\
  log_ (reached (run_names F W (filter (fun name => name <> "") names) b))
  = log_ (reached (run_names F W names b)).
Proof.
  revert b. induction names as [|name names IH]; intros b; [by split|].
  rewrite filter_cons. destruct (decide (name <> "")) as [Hne|He].
  - cbn [run_names]. destruct (run_name F W name b) as [b1|h b1]; [|by split].
    cbn [mbind result_bind]. apply IH.
  - assert (name = "") as -> by (by destruct (decide (name = ""))).
    cbn [run_names]. rewrite run_name_empty. cbn [mbind result_bind].
    destruct (run_names_restart F W names b) as [-> ->]. apply IH.
Qed.

(** ** Workloads of one entry per batch *)











(** ** The batch loops, in full *)

